(** * capstoneApp: the burn-severity pipeline of [funcs.py]

    A shallow embedding of the imagery pipeline of [funcs.py]
    ([prepImages], [ee_export_image], [downloadRaster], [modelMetrics])
    and the properties its specification states about it.

    Conventions.
    - A Python exception is a value of [exn]; a call that may raise
      returns a [res].
    - A [datetime.date] is its proleptic Gregorian ordinal
      ([date.toordinal]), the number [date] arithmetic is defined on.
    - A pixel value of a decoded raster is a rational or NaN
      ([Table.cell]), with exact arithmetic; [Floats] has the converter
      on floating-point pixels, with the infinities and with the mean
      and the rounding as parameters. An Earth Engine expression is
      written once over the comparisons of its band type ([Band]), with
      integer, rational and real bands.
    - The working directory is a finite set of file names
      ([Exporter]); [Files] has it with the content of the files.
    - The global random source of [random.sample] is an explicit
      stream of draws. *)

From Stdlib Require Import ZArith QArith Qround Reals Lra Lia List Ascii String Bool.
From stdpp Require Import base option list gmap strings.
Import ListNotations.

#[local] Set Warnings "-clear-no-such-hyp".

Local Open Scope string_scope.
Local Open Scope Z_scope.

(** ** Exceptions *)

Inductive exn : Type :=
| OverflowError          (* date arithmetic out of range *)
| IndexError             (* band index past the raster's band count *)
| IntCastingNaNError     (* astype(int) on a missing value *)
| ValueError             (* sklearn input validation *)
| KeyError               (* a dict lookup without the key *)
| NoImageryAvailable     (* st.error + st.stop, funcs.py:376 *)
| ExportExceededLimits.  (* st.error + st.stop, funcs.py:394 *)

Inductive res (A : Type) : Type :=
| Ok (a : A)
| Raise (e : exn).
Arguments Ok {A} a.
Arguments Raise {A} e.

#[global] Instance res_ret : MRet res := fun A a => Ok a.
#[global] Instance res_bind : MBind res := fun A B k m =>
  match m with
  | Ok a => k a
  | Raise e => Raise e
  end.

(** ** Temporal window selector (funcs.py:205-214) *)

Module Window.

(** [datetime.date]: proleptic Gregorian ordinals, 0001-01-01 is day 1
    and 9999-12-31 is day [MAXORDINAL]. *)
Definition date := Z.

Definition MAXORDINAL : Z := 3652059.

Definition valid_date (d : date) : Prop := 1 <= d <= MAXORDINAL.

Definition is_leap (y : Z) : bool :=
  (y mod 4 =? 0) && (negb (y mod 100 =? 0) || (y mod 400 =? 0)).

Definition days_before_year (y : Z) : Z :=
  let p := y - 1 in p * 365 + p / 4 - p / 100 + p / 400.

Definition DAYS_IN_MONTH : list Z :=
  [31; 28; 31; 30; 31; 30; 31; 31; 30; 31; 30; 31].

Definition days_in_month (y m : Z) : Z :=
  if (m =? 2) && is_leap y then 29
  else nth (Z.to_nat (m - 1)) DAYS_IN_MONTH 0.

Definition days_before_month (y m : Z) : Z :=
  fold_right Z.add 0 (map (days_in_month y) (map Z.of_nat (seq 1 (Z.to_nat (m - 1))))).

(** [date(y, m, d).toordinal()] *)
Definition ymd2ord (y m d : Z) : date :=
  days_before_year y + days_before_month y m + d.

(** [date.fromordinal(n)], as [(year, month, day)]. *)
Definition ord2ymd (n : date) : Z * Z * Z :=
  let n := n - 1 in
  let n400 := n / 146097 in let n := n mod 146097 in
  let n100 := n / 36524 in let n := n mod 36524 in
  let n4 := n / 1461 in let n := n mod 1461 in
  let n1 := n / 365 in let n := n mod 365 in
  let year := n400 * 400 + 1 + n100 * 100 + n4 * 4 + n1 in
  if (n1 =? 4) || (n100 =? 4) then (year - 1, 12, 31)
  else
    let leapyear := (n1 =? 3) && (negb (n4 =? 24) || (n100 =? 3)) in
    let bump (m : Z) := if (2 <? m) && leapyear then 1 else 0 in
    let month := Z.shiftr (n + 50) 5 in
    let preceding := days_before_month 1 month + bump month in
    if n <? preceding then
      let month' := month - 1 in
      let preceding' :=
        preceding - (nth (Z.to_nat (month' - 1)) DAYS_IN_MONTH 0
                     + (if (month' =? 2) && leapyear then 1 else 0)) in
      (year, month', n - preceding' + 1)
    else (year, month, n - preceding + 1).

(** [d + timedelta(days=n)]: [OverflowError] outside 1..MAXORDINAL. *)
Definition date_add (d : date) (n : Z) : res date :=
  let o := d + n in
  if (0 <? o) && (o <=? MAXORDINAL) then Ok o else Raise OverflowError.

(** [d - timedelta(days=n)] *)
Definition date_sub (d : date) (n : Z) : res date := date_add d (- n).

(** [d1 - d2], a [timedelta] compared by its days. *)
Definition date_diff (d1 d2 : date) : Z := d1 - d2.

(** The head of [prepImages]: the pair [(shiftedDate, endDate)] that the
    post-fire [filterDate] receives. *)
Definition windows (startDate endDate : date) : res (date * date) :=
  if date_diff endDate startDate >=? 90 then
    shiftedDate ← date_sub endDate 60;
    endDate' ← date_add endDate 20;
    Ok (shiftedDate, endDate')
  else if date_diff endDate startDate >=? 60 then
    shiftedDate ← date_sub endDate 40;
    endDate' ← date_add endDate 30;
    Ok (shiftedDate, endDate')
  else
    shiftedDate ← date_add endDate 1;
    endDate' ← date_add endDate 60;
    Ok (shiftedDate, endDate').

End Window.

(** ** Band deriver: the two classification expressions (funcs.py:250-291) *)

Module Classify.

(** The comparisons an Earth Engine expression applies to a band value
    with an integer literal: [b(..) > c] and [b(..) <= c]. *)
Class Band (T : Type) : Type := {
  gt : T -> Z -> bool;
  le : T -> Z -> bool
}.

(** Integer bands (NLCD [landcover] is an unsigned byte). *)
#[global] Instance Band_Z : Band Z := {|
  gt x c := (c <? x)%Z;
  le x c := (x <=? c)%Z
|}.

(** Rational band values, the executable stand-in for a float band. *)
#[global] Instance Band_Q : Band Q := {|
  gt x c := (c * QDen x <? Qnum x)%Z;
  le x c := (Qnum x <=? c * QDen x)%Z
|}.

(** Real band values. *)
#[global] Instance Band_R : Band R := {|
  gt x c := if Rlt_dec (IZR c) x then true else false;
  le x c := if Rle_dec x (IZR c) then true else false
|}.

(** funcs.py:250-256, the expression over [b('dNBR')]. *)
Definition burnSeverity `{Band T} (dNBR : T) : Z :=
  if gt dNBR 425 then 5
  else if gt dNBR 225 then 4
  else if gt dNBR 100 then 3
  else if gt dNBR (-60) then 2
  else if le dNBR (-60) then 1
  else 0.

(** funcs.py:265-273 and 281-289, the expression over [b('landcover')]
    (the same text for [lc] and [lcViz]). *)
Definition landCover `{Band T} (landcover : T) : Z :=
  if gt landcover 90 then 1
  else if gt landcover 80 then 6
  else if gt landcover 70 then 5
  else if gt landcover 50 then 4
  else if gt landcover 40 then 3
  else if gt landcover 30 then 1
  else if gt landcover 20 then 2
  else if gt landcover 10 then 1
  else 0.

(** The land-cover codes of the NLCD [landcover] band, the declared
    input domain of [landCover]. *)
Definition NLCD_codes : list Z :=
  [11; 12; 21; 22; 23; 24; 31; 41; 42; 43; 51; 52; 71; 72; 73; 74; 81; 82; 90; 95].

End Classify.

(** ** Image assembler: band names (funcs.py:228-305) *)

Module Bands.

(** An [ee.Image] seen through [bandNames()]: its band names in
    physical order. *)
Definition image := list string.

(** Bands of a scene of [LANDSAT/LC08/C02/T1_L2], in catalogue order;
    [mean()] and [clip()] keep them. *)
Definition LC08_C02_T1_L2 : image :=
  ["SR_B1"; "SR_B2"; "SR_B3"; "SR_B4"; "SR_B5"; "SR_B6"; "SR_B7";
   "SR_QA_AEROSOL"; "ST_B10"; "ST_ATRAN"; "ST_CDIST"; "ST_DRAD"; "ST_EMIS";
   "ST_EMSD"; "ST_QA"; "ST_TRAD"; "ST_URAD"; "QA_PIXEL"; "QA_RADSAT"].

(** Bands of [NASA/NASADEM_HGT/001]. *)
Definition NASADEM_HGT : image := ["elevation"; "num"; "swb"].

(** Bands of an image of [USGS/NLCD_RELEASES/2016_REL]. *)
Definition NLCD_2016_REL : image :=
  ["landcover"; "impervious"; "impervious_descriptor"; "percent_tree_cover";
   "rangeland_annual_herbaceous"; "rangeland_bare_ground";
   "rangeland_big_sagebrush"; "rangeland_herbaceous"; "rangeland_litter";
   "rangeland_sagebrush"; "rangeland_sagebrush_height"; "rangeland_shrub";
   "rangeland_shrub_height"].

(** A band selector is a regular expression matched against the whole
    name; the selectors of [prepImages] use literal characters and the
    wildcard [.] only. *)
Fixpoint selects (pat name : string) : bool :=
  match pat, name with
  | EmptyString, EmptyString => true
  | String p pat', String c name' =>
      (Ascii.eqb p "."%char || Ascii.eqb p c) && selects pat' name'
  | _, _ => false
  end.

(** [img.select(pat)] *)
Definition select (pat : string) (img : image) : image :=
  List.filter (selects pat) img.

(** [img.rename(name)] on the one-band images of [prepImages]. *)
Definition rename (name : string) (img : image) : image :=
  match img with
  | [_] => [name]
  | _ => img
  end.

(** [img.normalizedDifference([a, b])]: one band, named [nd]. *)
Definition normalizedDifference (a b : string) (img : image) : image := ["nd"].

(** [img.expression(..)] with one result: the band keeps the name of
    the first band of [img]. *)
Definition expression (img : image) : image := firstn 1 img.

(** [a.subtract(b)], [a.multiply(c)], [a.clip(g)] keep the names of [a]. *)
Definition keep (img : image) : image := img.

(** [a.addBands(b)]: the bands of [b] after those of [a]; a name already
    taken gets the suffix [_1]. *)
Definition addBands (a b : image) : image :=
  fold_left (fun (acc : image) n =>
               (acc ++ [if bool_decide (n ∈ acc) then n +:+ "_1" else n])%list) b a.

(** The image [combined] of [prepImages], by its band names. *)
Definition combined : image :=
  let preFireImage := keep LC08_C02_T1_L2 in
  let postFireImage := keep LC08_C02_T1_L2 in
  let preFireNBR := normalizedDifference "SR_B5" "SR_B7" preFireImage in
  let postFireNBR := normalizedDifference "SR_B5" "SR_B7" postFireImage in
  let dNBR := rename "dNBR" (keep (keep preFireNBR)) in
  let burnSeverity := rename "burnSeverity" (expression dNBR) in
  let dem := select "elevation" NASADEM_HGT in
  let nlcd := NLCD_2016_REL in
  let lc := rename "landCover" (expression (select "landcover" nlcd)) in
  let lcViz :=
    rename "landCoverViz" (keep (expression (select "landcover" NLCD_2016_REL))) in
  let ndvi := keep (rename "NDVI" (normalizedDifference "SR_B5" "SR_B4" postFireImage)) in
  addBands (addBands (addBands (addBands (addBands (addBands (addBands
    (select "SR_B." postFireImage)
    burnSeverity) dNBR) ndvi) dem) (select "percent_tree_cover" nlcd)) lc) lcViz.

(** [colNames] of [downloadRaster] (funcs.py:397-399), the band catalogue. *)
Definition colNames : list string :=
  ["SR_B1"; "SR_B2"; "SR_B3"; "SR_B4"; "SR_B5"; "SR_B6"; "SR_B7";
   "burnSeverity"; "dNBR"; "NDVI"; "elevation";
   "percent_tree_cover"; "landCover"; "landCoverViz"].

End Bands.

(** ** Raster exporter: the retry ladder (funcs.py:312-395) *)

Module Exporter.

(** The working directory, as [os.listdir()] shows it. *)
Abbreviation disk := (gset string).

Definition raster_tif : string := "raster.tif".
Definition raster_zip : string := "raster.zip".

(** What one call of [ee_export_image] meets at the service, on the
    network and in the archive. *)
Inductive attempt : Type :=
| UrlError                            (* getDownloadURL raises *)
| RequestError                        (* requests.get raises, [r] unbound *)
| BadStatus                           (* r.status_code != 200 *)
| StreamError (handler_raises : bool) (* the zip is opened, a chunk fails *)
| BadArchive (written : disk)         (* the zip is complete, unpacking
                                         raises after writing [written] *)
| Extracted (members : disk).         (* the zip is unpacked in full *)

(** [ee_export_image]: the directory afterwards, and whether the call
    left by an exception ([true]) or returned ([false]). *)
Definition ee_export_image (a : attempt) (d : disk) : disk * bool :=
  match a with
  | UrlError => (d, false)
  | RequestError => (d, true)
  | BadStatus => (d, false)
  | StreamError handler_raises => ({[raster_zip]} ∪ d, handler_raises)
  | BadArchive written => (written ∪ ({[raster_zip]} ∪ d), false)
  | Extracted members => ((members ∪ ({[raster_zip]} ∪ d)) ∖ {[raster_zip]}, false)
  end.

(** The [for i in range(numTries)] loop of [downloadRaster], from
    attempt [i] on; [service i s] is what attempt [i] at scale [s] meets. *)
Fixpoint ladder (service : nat -> Z -> attempt) (i : nat) (imgScale : list Z)
    (d : disk) : disk :=
  match imgScale with
  | [] => d
  | s :: rest =>
      let '(d', raised) := ee_export_image (service i s) d in
      if raised then ladder service (S i) rest d'
      else if bool_decide (raster_tif ∈ d') then d'
      else ladder service (S i) rest d'
  end.

(** The export half of [downloadRaster] (funcs.py:373-395):
    [bandNamesOk] tells whether [image.bandNames().size().getInfo()]
    returns. *)
Definition export_stage (bandNamesOk : bool) (service : nat -> Z -> attempt)
    (imgScale : list Z) (d : disk) : disk * res unit :=
  if negb bandNamesOk then (d, Raise NoImageryAvailable)
  else
    let d' := ladder service 0 imgScale d in
    if bool_decide (raster_tif ∉ d') then (d', Raise ExportExceededLimits)
    else (d', Ok tt).

(** Attempt [a] puts [raster.tif] into the directory. *)
Definition produces (a : attempt) : bool :=
  match a with
  | BadArchive written => bool_decide (raster_tif ∈ written)
  | Extracted members => bool_decide (raster_tif ∈ members)
  | _ => false
  end.

End Exporter.

(** ** Raster-to-table converter (funcs.py:397-419) *)

Module Table.

(** A pixel value: a number or a missing value. *)
Inductive cell : Type :=
| Num (q : Q)
| NaN.

(** An opened raster: [img.height], [img.width] and [img.read()], an
    array of bands, each a list of [height] rows of [width] cells. *)
Record raster : Type := {
  height : nat;
  width : nat;
  read : list (list (list cell))
}.

Definition well_shaped (r : raster) : Prop :=
  Forall (fun band =>
            length band = height r /\ Forall (fun row => length row = width r) band)
         (read r).

(** A DataFrame: its columns in order, by name. *)
Definition frame (A : Type) : Type := list (string * list A).

(** [band.flatten()], row-major. *)
Definition flatten (band : list (list cell)) : list cell := concat band.

(** [data[k] = v] on a dict kept in insertion order. *)
Fixpoint dict_set {A : Type} (k : string) (v : A) (d : list (string * A))
    : list (string * A) :=
  match d with
  | [] => [(k, v)]
  | (k', v') :: d' =>
      if String.eqb k k' then (k, v) :: d' else (k', v') :: dict_set k v d'
  end.

(** [data[k]] *)
Fixpoint dict_get {A : Type} (k : string) (d : list (string * A)) : option A :=
  match d with
  | [] => None
  | (k', v') :: d' => if String.eqb k k' then Some v' else dict_get k d'
  end.

(** [{index: value for index, value in enumerate(colNames)}.items()] *)
Definition enumerate {A : Type} (l : list A) : list (nat * A) :=
  combine (seq 0 (length l)) l.

(** funcs.py:406-407 *)
Fixpoint columns (img : list (list (list cell))) (items : list (nat * string))
    (data : frame cell) : res (frame cell) :=
  match items with
  | [] => Ok data
  | (index, val) :: rest =>
      match img !! index with
      | Some band => columns img rest (dict_set val (flatten band) data)
      | None => Raise IndexError
      end
  end.

Definition present (c : list cell) : list Q :=
  omap (fun x => match x with Num q => Some q | NaN => None end) c.

Definition Qsum (qs : list Q) : Q := fold_right Qplus 0%Q qs.

(** [column.mean()], missing values skipped; missing when none is left. *)
Definition mean (c : list cell) : cell :=
  match present c with
  | [] => NaN
  | qs => Num (Qsum qs / inject_Z (Z.of_nat (length qs)))
  end.

(** [column.fillna(m)]; filling with a missing value changes nothing. *)
Definition fillna (m : cell) (c : list cell) : list cell :=
  map (fun x => match x with NaN => m | Num _ => x end) c.

(** Round half to even, to an integer. *)
Definition rint (q : Q) : Z :=
  let f := Qfloor q in
  match Qcompare (q - inject_Z f) (1 # 2) with
  | Lt => f
  | Gt => f + 1
  | Eq => if Z.even f then f else f + 1
  end.

(** [round(2)] on one value. *)
Definition round2 (x : cell) : cell :=
  match x with
  | Num q => Num (rint (q * 100) # 100)
  | NaN => NaN
  end.

(** [x <= 0], false on a missing value. *)
Definition le0 (x : cell) : bool :=
  match x with
  | Num q => Qle_bool q 0
  | NaN => false
  end.

(** The global generator of [random]: the stream of its raw draws. *)
Definition rng : Type := nat -> nat.

(** [random.sample([1,2,3,4,5], k=1)[0]] *)
Definition sample1 (g : rng) : Z * rng :=
  (nth (g 0%nat mod 5)%nat [1; 2; 3; 4; 5] 0, fun n => g (S n)).

(** [[random.sample([1,2,3,4,5], k=1)[0] for i in range(num)]] *)
Fixpoint imputeValues (num : nat) (g : rng) : list Z * rng :=
  match num with
  | O => ([], g)
  | S num' =>
      let '(v, g') := sample1 g in
      let '(vs, g'') := imputeValues num' g' in
      (v :: vs, g'')
  end.

(** [column[column <= 0] = values], the values taken in order. *)
Fixpoint assign_le0 (c : list cell) (values : list Z) : list cell :=
  match c with
  | [] => []
  | x :: c' =>
      if le0 x then
        match values with
        | v :: vs => Num (inject_Z v) :: assign_le0 c' vs
        | [] => x :: assign_le0 c' []
        end
      else x :: assign_le0 c' values
  end.

(** [astype(int)] on one value: truncation, an error on a missing value. *)
Definition to_int (x : cell) : res Z :=
  match x with
  | Num q => Ok (Z.quot (Qnum q) (QDen q))
  | NaN => Raise IntCastingNaNError
  end.

Fixpoint mapM {A B : Type} (f : A -> res B) (l : list A) : res (list B) :=
  match l with
  | [] => Ok []
  | x :: l' => y ← f x; ys ← mapM f l'; Ok (y :: ys)
  end.

(** [df.astype(int)] *)
Definition astype_int (df : frame cell) : res (frame Z) :=
  mapM (fun '(k, c) => c' ← mapM to_int c; Ok (k, c')) df.

(** [df.fillna(df.mean()).reset_index(drop=True).round(2)] *)
Definition impute_round (df : frame cell) : frame cell :=
  map (fun '(k, c) => (k, map round2 (fillna (mean c) c))) df.

(** The burn-severity column of a frame ([df["burnSeverity"]]). *)
Definition burn_column {A : Type} (df : frame A) : list A :=
  default [] (dict_get "burnSeverity" df).

(** [num = sum(df["burnSeverity"] <= 0)] *)
Definition num_le0 (df : frame cell) : nat :=
  length (List.filter le0 (burn_column df)).

(** funcs.py:414-417 *)
Definition repair (df : frame cell) (g : rng) : frame cell * rng :=
  let num := num_le0 df in
  if (0 <? num)%nat then
    let '(values, g') := imputeValues num g in
    (dict_set "burnSeverity" (assign_le0 (burn_column df) values) df, g')
  else (df, g).

(** The conversion half of [downloadRaster] (funcs.py:397-419): the
    table written to [raster.parquet] and the generator afterwards. *)
Definition convert (img : raster) (g : rng) : res (frame Z * rng) :=
  data ← columns (read img) (enumerate Bands.colNames) [];
  let df := impute_round data in
  let '(df', g') := repair df g in
  t ← astype_int df';
  Ok (t, g').

Definition toTable (img : raster) (g : rng) : res (frame Z) :=
  r ← convert img g; Ok (fst r).

(** The [num] of funcs.py:414 for a raster: the burn-severity pixels at
    or below 0 after imputation and rounding (none when the raster has
    too few bands to reach that line). *)
Definition pending (img : raster) : nat :=
  match columns (read img) (enumerate Bands.colNames) [] with
  | Ok data => num_le0 (impute_round data)
  | Raise _ => 0%nat
  end.

End Table.

(** ** The converter on floating-point pixels (funcs.py:403-419)

    The pixels that [img.read()] returns are binary floating-point
    numbers: besides the finite values and the missing value there are
    the two infinities, and [df.mean()] and [round(2)] are computed in
    floating point, so their results need not be the exact mean and the
    exact decimal rounding of [Table]. In this module the cell has the
    infinities, and the two floating-point operations are parameters of
    the converter: what is proved of it holds whatever they compute. *)

Module Floats.

Inductive cell : Type :=
| Num (q : Q)             (* a finite value *)
| Inf (negative : bool)   (* inf, or -inf when [negative] *)
| NaN.

Record raster : Type := {
  height : nat;
  width : nat;
  read : list (list (list cell))
}.

(** [band.flatten()], row-major. *)
Definition flatten (band : list (list cell)) : list cell := concat band.

(** funcs.py:406-407 *)
Fixpoint columns (img : list (list (list cell))) (items : list (nat * string))
    (data : Table.frame cell) : res (Table.frame cell) :=
  match items with
  | [] => Ok data
  | (index, val) :: rest =>
      match img !! index with
      | Some band => columns img rest (Table.dict_set val (flatten band) data)
      | None => Raise IndexError
      end
  end.

(** [column.fillna(m)]: every missing value becomes [m]. *)
Definition fillna (m : cell) (c : list cell) : list cell :=
  map (fun x => match x with NaN => m | _ => x end) c.

(** [x <= 0]: false on a missing value and on inf, true on -inf. *)
Definition le0 (x : cell) : bool :=
  match x with
  | Num q => Qle_bool q 0
  | Inf negative => negative
  | NaN => false
  end.

(** [column[column <= 0] = values], the values taken in order. *)
Fixpoint assign_le0 (c : list cell) (values : list Z) : list cell :=
  match c with
  | [] => []
  | x :: c' =>
      if le0 x then
        match values with
        | v :: vs => Num (inject_Z v) :: assign_le0 c' vs
        | [] => x :: assign_le0 c' []
        end
      else x :: assign_le0 c' values
  end.

(** [astype(int)] on one value: truncation of a finite value (taken
    within the range of a 64-bit integer), an error on a missing or
    infinite one. *)
Definition to_int (x : cell) : res Z :=
  match x with
  | Num q => Ok (Z.quot (Qnum q) (QDen q))
  | Inf _ | NaN => Raise IntCastingNaNError
  end.

(** [df.astype(int)] *)
Definition astype_int (df : Table.frame cell) : res (Table.frame Z) :=
  Table.mapM (fun '(k, c) => c' ← Table.mapM to_int c; Ok (k, c')) df.

(** [num = sum(df["burnSeverity"] <= 0)] *)
Definition num_le0 (df : Table.frame cell) : nat :=
  length (List.filter le0 (Table.burn_column df)).

(** funcs.py:414-417 *)
Definition repair (df : Table.frame cell) (g : Table.rng)
    : Table.frame cell * Table.rng :=
  let num := num_le0 df in
  if (0 <? num)%nat then
    let '(values, g') := Table.imputeValues num g in
    (Table.dict_set "burnSeverity"
       (assign_le0 (Table.burn_column df) values) df, g')
  else (df, g).

Section Arithmetic.

(** [column.mean()] and [round(2)] on one value, as the floating-point
    unit computes them. *)
Variable mean : list cell -> cell.
Variable round2 : cell -> cell.

(** [df.fillna(df.mean()).reset_index(drop=True).round(2)] *)
Definition impute_round (df : Table.frame cell) : Table.frame cell :=
  map (fun '(k, c) => (k, map round2 (fillna (mean c) c))) df.

(** funcs.py:397-419: the table written to [raster.parquet] and the
    generator afterwards. *)
Definition convert (img : raster) (g : Table.rng)
    : res (Table.frame Z * Table.rng) :=
  data ← columns (read img) (Table.enumerate Bands.colNames) [];
  let df := impute_round data in
  let '(df', g') := repair df g in
  t ← astype_int df';
  Ok (t, g').

Definition toTable (img : raster) (g : Table.rng) : res (Table.frame Z) :=
  r ← convert img g; Ok (fst r).

End Arithmetic.

(** One instance of the arithmetic, with exact rationals: the mean of
    the values that are not missing (infinite as soon as one of them
    is, missing when both infinities occur or nothing is left) and the
    rounding of a finite value to two decimals, half to even. *)
Definition exact_mean (c : list cell) : cell :=
  let vs := List.filter (fun x => match x with NaN => false | _ => true end) c in
  let pos := existsb (fun x => match x with Inf false => true | _ => false end) vs in
  let neg := existsb (fun x => match x with Inf true => true | _ => false end) vs in
  match vs with
  | [] => NaN
  | _ =>
      if pos && neg then NaN
      else if pos then Inf false
      else if neg then Inf true
      else
        let qs := omap (fun x => match x with Num q => Some q | _ => None end) vs in
        Num (Table.Qsum qs / inject_Z (Z.of_nat (length qs)))
  end.

Definition exact_round2 (x : cell) : cell :=
  match x with
  | Num q => Num (Table.rint (q * 100) # 100)
  | _ => x
  end.

(** One row of three pixels, every band 1 except burn severity, which
    holds a missing pixel, a no-data 0 and a class 1. *)
Definition edge_raster : raster := {|
  height := 1;
  width := 3;
  read := repeat [[Num 1; Num 1; Num 1]] 7
          ++ [[[NaN; Num 0; Num 1]]]
          ++ repeat [[Num 1; Num 1; Num 1]] 6
|}.

(** The same with burn-severity classes 2, 3 and 1. *)
Definition clean_raster : raster := {|
  height := 1;
  width := 3;
  read := repeat [[Num 1; Num 1; Num 1]] 7
          ++ [[[Num 2; Num 3; Num 1]]]
          ++ repeat [[Num 1; Num 1; Num 1]] 6
|}.

(** A second instance: [np.round(x, 2)] on doubles, which is
    [rint(x * 100) / 100] with both arithmetic operations rounded to
    the nearest double. [nearest_double q] is the double nearest to
    [q], ties to even, for [q] in the normal range of the format (53
    significant bits; overflow and subnormals are left out). *)
Definition nearest_double (q : Q) : Q :=
  match Qcompare q 0 with
  | Eq => 0%Q
  | _ =>
      let a := if Qle_bool 0 q then q else (- q)%Q in
      let k0 := Z.log2 (Qnum a) - Z.log2 (Zpos (Qden a)) in
      let k := if Qle_bool (Qpower 2 k0) a then k0 else k0 - 1 in
      let e := k - 52 in
      let m := Table.rint (a / Qpower 2 e) in
      let r := (inject_Z m * Qpower 2 e)%Q in
      Qred (if Qle_bool 0 q then r else - r)
  end.

Definition double_round2 (x : cell) : cell :=
  match x with
  | Num q =>
      Num (nearest_double
             (inject_Z (Table.rint (nearest_double (q * 100))) / 100))
  | _ => x
  end.

(** Burn severity holds the rational value of the double nearest to
    0.005, which is above 0.005. *)
Definition half_cent_raster : raster := {|
  height := 1;
  width := 1;
  read := repeat [[Num 1]] 7
          ++ [[[Num (5764607523034235 # 1152921504606846976)]]]
          ++ repeat [[Num 1]] 6
|}.

End Floats.

(** ** The trigger of the repair, in the words of the specification *)

Module Trigger.
Import Floats.

(** A value at or below 0. *)
Definition at_or_below_zero (x : cell) : Prop :=
  match x with
  | Num q => (q <= 0)%Q
  | Inf negative => negative = true
  | NaN => False
  end.

(** The value of a pixel after mean-imputation and rounding: a missing
    pixel takes the mean of its band, and the value is rounded to two
    decimals. *)
Definition imputed_rounded (mean : list cell -> cell) (round2 : cell -> cell)
    (pixels : list cell) (x : cell) : cell :=
  round2 (match x with NaN => mean pixels | _ => x end).

(** The burn-severity band is band 8 of the raster (index 7): some
    pixel of it has a value at or below 0 after mean-imputation and
    rounding. *)
Definition repair_triggered (mean : list cell -> cell) (round2 : cell -> cell)
    (img : raster) : Prop :=
  exists (band : list (list cell)) (i : nat) (x : cell),
    read img !! 7%nat = Some band /\
    concat band !! i = Some x /\
    at_or_below_zero (imputed_rounded mean round2 (concat band) x).

End Trigger.

(** ** [downloadRaster] as a whole (funcs.py:369-419)

    The working directory with the content of its files: what
    [rio.open("raster.tif")] reads is the file that the last successful
    attempt unpacked, or the one that was there before. *)

Module Files.

Inductive content : Type :=
| RasterFile (r : Floats.raster)     (* a raster that [rio.open] reads *)
| TableFile (t : Table.frame Z)      (* a parquet table *)
| OtherFile.                         (* anything else: an archive, a
                                        truncated download, ... *)

Abbreviation disk := (gmap string content).

Definition raster_parquet : string := "raster.parquet".

(** What one call of [ee_export_image] meets, as in [Exporter]; an
    archive carries the content of its members. *)
Inductive attempt : Type :=
| UrlError
| RequestError
| BadStatus
| StreamError (handler_raises : bool)
| BadArchive (written : disk)
| Extracted (members : disk).

(** [ee_export_image]: [extractall] overwrites the files it unpacks. *)
Definition ee_export_image (a : attempt) (d : disk) : disk * bool :=
  match a with
  | UrlError => (d, false)
  | RequestError => (d, true)
  | BadStatus => (d, false)
  | StreamError handler_raises =>
      (<[Exporter.raster_zip := OtherFile]> d, handler_raises)
  | BadArchive written =>
      (written ∪ <[Exporter.raster_zip := OtherFile]> d, false)
  | Extracted members =>
      (delete Exporter.raster_zip
         (members ∪ <[Exporter.raster_zip := OtherFile]> d), false)
  end.

(** The [for i in range(numTries)] loop. *)
Fixpoint ladder (service : nat -> Z -> attempt) (i : nat) (imgScale : list Z)
    (d : disk) : disk :=
  match imgScale with
  | [] => d
  | s :: rest =>
      let '(d', raised) := ee_export_image (service i s) d in
      if raised then ladder service (S i) rest d'
      else if bool_decide (is_Some (d' !! Exporter.raster_tif)) then d'
      else ladder service (S i) rest d'
  end.

(** Attempt [a] puts a [raster.tif] into the directory. *)
Definition produces (a : attempt) : bool :=
  match a with
  | BadArchive written => bool_decide (is_Some (written !! Exporter.raster_tif))
  | Extracted members => bool_decide (is_Some (members !! Exporter.raster_tif))
  | _ => false
  end.

(** How a run of [downloadRaster] ends. *)
Inductive outcome : Type :=
| Stopped (e : exn)               (* [st.stop()] or an exception of the
                                     converter *)
| NotARaster                      (* [rio.open] cannot read raster.tif *)
| Written (t : Table.frame Z).    (* the table went to raster.parquet *)

Definition downloadRaster (mean : list Floats.cell -> Floats.cell)
    (round2 : Floats.cell -> Floats.cell) (bandNamesOk : bool)
    (service : nat -> Z -> attempt) (imgScale : list Z) (d : disk)
    (g : Table.rng) : disk * outcome :=
  if negb bandNamesOk then (d, Stopped NoImageryAvailable)
  else
    let d' := ladder service 0 imgScale d in
    match d' !! Exporter.raster_tif with
    | None => (d', Stopped ExportExceededLimits)
    | Some (RasterFile img) =>
        match Floats.toTable mean round2 img g with
        | Ok t => (<[raster_parquet := TableFile t]> d', Written t)
        | Raise e => (d', Stopped e)
        end
    | Some _ => (d', NotARaster)
    end.

(** A service that refuses every request. *)
Definition refusing_service : nat -> Z -> attempt := fun _ _ => UrlError.

End Files.

(** ** Metrics engine (funcs.py:504-538) *)

Module Metrics.

(** [sorted(set(l))] *)
Fixpoint insert_label (x : Z) (l : list Z) : list Z :=
  match l with
  | [] => [x]
  | y :: l' =>
      if x <? y then x :: l
      else if x =? y then l
      else y :: insert_label x l'
  end.

(** [sklearn.utils.multiclass.unique_labels(y_true, y_pred)]: the labels
    that occur in either sequence, each once, in ascending order. *)
Definition unique_labels (y_true y_pred : list Z) : list Z :=
  fold_right insert_label [] (y_true ++ y_pred).

(** [sklearn.metrics.confusion_matrix(y_true, y_pred)] without a
    [labels] argument: row [i], column [j] counts the samples with
    reference label [labels[i]] and predicted label [labels[j]]. *)
Definition confusion_matrix (y_true y_pred : list Z) : res (list (list Z)) :=
  if negb (length y_true =? length y_pred)%nat then Raise ValueError
  else
    let labels := unique_labels y_true y_pred in
    let pairs := combine y_true y_pred in
    Ok (map (fun a =>
               map (fun b =>
                      Z.of_nat (length (List.filter
                        (fun '(t, p) => (t =? a) && (p =? b)) pairs)))
                   labels)
            labels).

(** A float that may be NaN. *)
Definition ratio : Type := option Q.

(** [np.sum(cm, axis=0)] *)
Definition col_sums (cm : list (list Z)) : list Z :=
  map (fun j => fold_right Z.add 0 (map (fun row => nth j row 0) cm))
      (seq 0 (length cm)).

(** [np.sum(cm, axis=1)] *)
Definition row_sums (cm : list (list Z)) : list Z :=
  map (fold_right Z.add 0) cm.

(** [np.diag(cm)] *)
Definition diag (cm : list (list Z)) : list Z :=
  map (fun '(i, row) => nth i row 0) (combine (seq 0 (length cm)) cm).

(** Float division of counts: [0/0] is NaN. *)
Definition div_count (a b : Z) : ratio :=
  if b =? 0 then None else Some (inject_Z a / inject_Z b)%Q.

(** [2*(p*r)/(p+r)] on floats. *)
Definition f1_score (p r : ratio) : ratio :=
  match p, r with
  | Some p, Some r =>
      if Qeq_bool (p + r) 0 then None else Some (2 * (p * r) / (p + r))%Q
  | _, _ => None
  end.

(** [np.round(100*x, 2)] *)
Definition percent (x : ratio) : ratio :=
  match x with
  | Some q => Some (Qred (Table.rint (100 * q * 100) # 100))
  | None => None
  end.

(** [fillna(0)] on one value. *)
Definition fill0 (x : ratio) : Q := default 0%Q x.

Definition bsMap : list (Z * string) :=
  [(1, "Vegetation Growth"); (2, "Unburned"); (3, "Low"); (4, "Moderate");
   (5, "High")].

(** [bsMap[i]] *)
Definition bsMap_get (i : Z) : res string :=
  match List.find (fun kv => fst kv =? i) bsMap with
  | Some kv => Ok (snd kv)
  | None => Raise KeyError
  end.

(** [[bsMap[i] for i in range(1, n+1)]] *)
Definition names (n : nat) : res (list string) :=
  Table.mapM (fun i => bsMap_get (Z.of_nat i)) (seq 1 n).

(** The confusion matrix with margins, after [fillna(0)]. *)
Record cm_frame : Type := {
  cm_columns : list string;
  cm_index : list string;
  cm_values : list (list Z)
}.

(** The metrics table, after [fillna(0)]: one row per entry of
    [m_index]. *)
Record metrics_frame : Type := {
  m_index : list string;
  m_precision : list Q;
  m_recall : list Q;
  m_f1 : list Q
}.

Definition modelMetrics (labels predictions : list Z)
    : res (cm_frame * metrics_frame) :=
  cm ← confusion_matrix labels predictions;
  let predictedTotal := col_sums cm in
  let actualTotal := (map Some (row_sums cm) ++ [None])%list in
  let precision := map (fun '(a, b) => div_count a b) (combine (diag cm) (col_sums cm)) in
  let recall := map (fun '(a, b) => div_count a b) (combine (diag cm) (row_sums cm)) in
  let f1 := map (fun '(p, r) => percent (f1_score p r)) (combine precision recall) in
  let precision := map percent precision in
  let recall := map percent recall in
  let stacked := (cm ++ [predictedTotal])%list in
  let with_margin :=
    map (fun '(row, t) => (map Some row ++ [t])%list) (combine stacked actualTotal) in
  columns ← names (length cm);
  index ← names (length cm);
  Ok ({| cm_columns := (columns ++ ["Predicted Total"])%list;
         cm_index := (index ++ ["Actual Total"])%list;
         cm_values := map (map (default 0)) with_margin |},
      {| m_index := index;
         m_precision := map fill0 precision;
         m_recall := map fill0 recall;
         m_f1 := map fill0 f1 |}).

End Metrics.

(** ** Sample inputs *)

Module Samples.
Import Table Exporter.

(** One row of three pixels, every band 1 except burn severity, which
    holds a missing pixel, a no-data 0 and a class 1. *)
Definition edge_raster : raster := {|
  height := 1;
  width := 3;
  read := repeat [[Num 1; Num 1; Num 1]] 7
          ++ [[[NaN; Num 0; Num 1]]]
          ++ repeat [[Num 1; Num 1; Num 1]] 6
|}.

(** The table of [edge_raster] when the repair draws [v]. *)
Definition edge_table (v : Z) : frame Z :=
  map (fun name =>
         (name, if String.eqb name "burnSeverity" then [0; v; 1] else [1; 1; 1]))
      Bands.colNames.

(** A service whose archive never unpacks. *)
Definition corrupt_service : nat -> Z -> attempt := fun _ _ => BadArchive ∅.

(** A service that refuses every request. *)
Definition refusing_service : nat -> Z -> attempt := fun _ _ => UrlError.

(** Two corrupt archives, then a good one. *)
Definition third_time_service : nat -> Z -> attempt := fun i _ =>
  match i with
  | 0%nat | 1%nat => BadArchive ∅
  | _ => Extracted {[raster_tif]}
  end.

End Samples.

(** ** Composite builder: the two image queries (funcs.py:226-241) *)

Module Composite.
Import Window.

(** A scene of the collection: [system:time_start] in milliseconds since
    1970-01-01, its [CLOUD_COVER] percentage, and whether its footprint
    meets the query geometry. *)
Record scene : Type := {
  time_start : Z;
  cloud_cover : Q;
  in_bounds : bool
}.

(** Ordinal of 1970-01-01. *)
Definition EPOCH : Z := 719163.

Definition MS_PER_DAY : Z := 86400000.

(** [ee.Date(d.isoformat())]: midnight UTC of [d], in milliseconds. *)
Definition ee_Date (d : date) : Z := (d - EPOCH) * MS_PER_DAY.

(** [date.advance(n, "day")] *)
Definition advance (n : Z) (ms : Z) : Z := ms + n * MS_PER_DAY.

(** [.filterDate(lo, hi)]: [lo] inclusive, [hi] exclusive. *)
Definition filterDate (lo hi : Z) (c : list scene) : list scene :=
  List.filter (fun s => (lo <=? time_start s) && (time_start s <? hi)) c.

(** [.filterBounds(geometry_EE)] *)
Definition filterBounds (c : list scene) : list scene :=
  List.filter in_bounds c.

(** [.filter(ee.Filter.lte("CLOUD_COVER", limit))] *)
Definition filterCloud (limit : Z) (c : list scene) : list scene :=
  List.filter (fun s => Qle_bool (cloud_cover s) (inject_Z limit)) c.

(** The scenes that [preFireImage] averages. *)
Definition preFireScenes (startDate : date) (c : list scene) : list scene :=
  let startDate := ee_Date startDate in
  filterCloud 10 (filterBounds (filterDate (advance (-60) startDate) startDate c)).

(** The scenes that [postFireImage] averages, for the window that the
    head of [prepImages] selects. *)
Definition postFireScenes (startDate endDate : date) (c : list scene)
    : res (list scene) :=
  w ← windows startDate endDate;
  let '(shiftedDate, endDate') := w in
  Ok (filterCloud 15
        (filterBounds (filterDate (ee_Date shiftedDate) (ee_Date endDate') c))).

End Composite.

(** ** Band deriver: the spectral indices (funcs.py:244-248, 293-295) *)

Module Indices.

(** [img.normalizedDifference([a, b])] on one pixel: [(a - b) / (a + b)],
    masked ([None]) when a band value is negative or the sum is 0. *)
Definition normalizedDifference (a b : Q) : option Q :=
  if Qle_bool 0 a && Qle_bool 0 b && negb (Qeq_bool (a + b) 0)
  then Some ((a - b) / (a + b))%Q
  else None.

(** One pixel of [dNBR]: masked where either NBR is. *)
Definition dNBR (preB5 preB7 postB5 postB7 : Q) : option Q :=
  preFireNBR ← normalizedDifference preB5 preB7;
  postFireNBR ← normalizedDifference postB5 postB7;
  Some ((preFireNBR - postFireNBR) * 1000)%Q.

(** One pixel of [burnSeverity]. *)
Definition burnSeverityPixel (preB5 preB7 postB5 postB7 : Q) : option Z :=
  Classify.burnSeverity <$> dNBR preB5 preB7 postB5 postB7.

(** One pixel of [ndvi]. *)
Definition ndvi (postB5 postB4 : Q) : option Q :=
  nd ← normalizedDifference postB5 postB4;
  Some (nd * 1000)%Q.

End Indices.

(** ** Vocabulary for the converter's behaviour *)

Module TableSpec.
Import Table.

Definition is_nan (x : cell) : bool :=
  match x with
  | NaN => true
  | Num _ => false
  end.

(** A column without a missing pixel. *)
Definition nan_free (c : list cell) : bool :=
  forallb (fun x => negb (is_nan x)) c.

(** A column without a single number: it has pixels, all missing. *)
Definition all_missing (c : list cell) : bool :=
  negb (forallb (fun x => negb (is_nan x)) c) && forallb is_nan c.

(** A pixel holding the integer [n]. *)
Definition int_cell (n : Z) : cell := Num (inject_Z n).

End TableSpec.

(** ** Vocabulary for the metrics engine's behaviour *)

Module MetricsSpec.

(** How often the label [a] occurs in a sequence. *)
Definition occurrences (a : Z) (l : list Z) : Z :=
  Z.of_nat (length (List.filter (Z.eqb a) l)).

(** In how many positions two sequences agree. *)
Definition agreements (l p : list Z) : Z :=
  Z.of_nat (length (List.filter (fun tp => fst tp =? snd tp) (combine l p))).

Definition sumZ (l : list Z) : Z := fold_right Z.add 0 l.

(** One cell of the count matrix: the pairs with reference label [a] and
    predicted label [b]. *)
Definition cell_count (pairs : list (Z * Z)) (a b : Z) : Z :=
  Z.of_nat (length (List.filter (fun '(t, p) => (t =? a) && (p =? b)) pairs)).

End MetricsSpec.

(** ** Fire selection glue (funcs.py:152-177) *)

From Stdlib Require Import DecimalString.

Module Fires.

(** Exceptions of the glue code: those of [exn], and the read of a local
    variable that no branch has bound. *)
Inductive py_exn : Type :=
| Std (e : exn)
| UnboundLocalError.

Inductive outcome (A : Type) : Type :=
| Returns (a : A)
| Throws (e : py_exn).
Arguments Returns {A} a.
Arguments Throws {A} e.

#[global] Instance outcome_ret : MRet outcome := fun A a => Returns a.
#[global] Instance outcome_bind : MBind outcome := fun A B k m =>
  match m with
  | Returns a => k a
  | Throws e => Throws e
  end.

(** One row of the fire table, by the columns the glue code reads. *)
Record fire : Type := {
  ID : Z;
  Fire : string;
  Year : Z;
  ContainedMonth : string;
  SizeClass : string;
  County : string
}.

(** [str(n)] for an integer. *)
Definition str (n : Z) : string := NilZero.string_of_int (Z.to_int n).

(** [value in values], for [Series.isin]. *)
Definition isin (values : list string) (v : string) : bool :=
  existsb (String.eqb v) values.

(** [sort_values(by="Fire")]: ascending by name; rows with the same name
    are kept in their order, a choice that pandas leaves open. *)
Fixpoint insert_by_name (r : fire) (l : list fire) : list fire :=
  match l with
  | [] => [r]
  | x :: l' =>
      if String.leb (Fire r) (Fire x) then r :: l
      else x :: insert_by_name r l'
  end.

Definition sort_values (l : list fire) : list fire :=
  fold_right insert_by_name [] l.

(** The order of [sort_values]: [a] may stand before [b]. *)
Definition by_name (a b : fire) : Prop := String.leb (Fire a) (Fire b) = true.

(** Reading the local [subset]: [None] is the variable before any
    assignment. *)
Definition read_local (subset : option (list fire)) : outcome (list fire) :=
  match subset with
  | Some s => Returns s
  | None => Throws UnboundLocalError
  end.

(** One [if len(values) > 0: subset = subset[subset[col].isin(values)]]. *)
Definition narrow (col : fire -> string) (values : list string)
    (subset : option (list fire)) : outcome (option (list fire)) :=
  if (0 <? length values)%nat then
    s ← read_local subset;
    Returns (Some (List.filter (fun r => isin values (col r)) s))
  else Returns subset.

(** [subsetFires]: the messages shown with [st.error], and the result. *)
Definition subsetFires (data : list fire) (startYear endYear : Z)
    (containedMonths sizeClass counties : list string)
    : list string * outcome (list fire) :=
  let '(shown, subset) :=
    if startYear =? endYear
    then (["### Select valid time interval"], None)
    else ([], Some (List.filter
                      (fun r => (startYear <=? Year r) && (Year r <? endYear))
                      data)) in
  (shown,
   subset ← narrow ContainedMonth containedMonths subset;
   subset ← narrow SizeClass sizeClass subset;
   subset ← narrow County counties subset;
   s ← read_local subset;
   Returns (sort_values s)).

(** The label of one row: ["{} ({})".format(fire, year)]. *)
Definition label (r : fire) : string :=
  Fire r +:+ " (" +:+ str (Year r) +:+ ")".

(** [formatFireSelectBox]: the dict from fire id to label, filled in
    order of fire name (a later row with the same id overwrites). *)
Definition formatFireSelectBox (data : list fire) : gmap Z string :=
  fold_left (fun acc r => <[ID r := label r]> acc) (sort_values data) ∅.

End Fires.

(** ** Bounding box (funcs.py:127-139) *)

Module Geometry.

Definition point : Type := Q * Q.

(** [bbox]: the tuple is unpacked into exactly four numbers, then the
    four corners are handed to [Polygon]. *)
Definition bbox (x : list Q) : res (list point) :=
  match x with
  | [minx; miny; maxx; maxy] =>
      Ok [(minx, miny); (minx, maxy); (maxx, maxy); (maxx, miny)]
  | _ => Raise ValueError
  end.

Definition qmin (a b : Q) : Q := if Qle_bool a b then a else b.
Definition qmax (a b : Q) : Q := if Qle_bool a b then b else a.

(** [polygon.bounds]: [(minx, miny, maxx, maxy)] over the vertices. *)
Definition bounds (poly : list point) : option (list Q) :=
  match poly with
  | [] => None
  | (x, y) :: rest =>
      Some [fold_left qmin (map fst rest) x; fold_left qmin (map snd rest) y;
            fold_left qmax (map fst rest) x; fold_left qmax (map snd rest) y]
  end.

End Geometry.

(** ** Date display (funcs.py:142-149) *)

Module Dates.
Import Window Composite.

(** [%m] and [%d]: two digits. *)
Definition pad2 (n : Z) : string :=
  if n <? 10 then "0" +:+ Fires.str n else Fires.str n.

(** [strftime("%Y-%m-%d")] on a date given by its fields. *)
Definition strftime (ymd : Z * Z * Z) : string :=
  let '(y, m, d) := ymd in
  Fires.str y +:+ "-" +:+ pad2 m +:+ "-" +:+ pad2 d.

(** [convertDate] on a timestamp in milliseconds (the [value] of an
    [ee.Date]); a timestamp outside the calendar is an error. *)
Definition convertDate (ms : Z) : res string :=
  let ordinal := EPOCH + ms / MS_PER_DAY in
  if (1 <=? ordinal) && (ordinal <=? MAXORDINAL)
  then Ok (strftime (ord2ymd ordinal))
  else Raise ValueError.

(** The calendar check behind the display of a date: the day number of
    each date of year [y] is in range and turns back into the date. *)
Definition date_round_trip (y m d : Z) : bool :=
  let o := ymd2ord y m d in
  let '(y', m', d') := ord2ymd o in
  (1 <=? o) && (o <=? MAXORDINAL) && (y' =? y) && (m' =? m) && (d' =? d).

Definition range (lo : Z) (n : nat) : list Z :=
  map (fun i => lo + Z.of_nat i) (seq 0 n).

Definition year_round_trip (y : Z) : bool :=
  forallb (fun m =>
             forallb (fun d => negb (d <=? days_in_month y m)
                               || date_round_trip y m d)
                     (range 1 31))
          (range 1 12).

End Dates.

(** ** Legend (funcs.py:441-494) *)

Module Legend.
Import Fires.

(** The argument [legend_dict]: absent, not a dict, or a dict from
    label to colour in insertion order. *)
Inductive legend_arg : Type :=
| NoLegend
| NotADict
| LegendDict (items : list (string * string)).

Definition nl : string := String (ascii_of_nat 10) EmptyString.

(** The lines written for the legend at template line 39. *)
Fixpoint entries (noneCount : nat) (opacity : string)
    (items : list (string * string)) : list string :=
  match items with
  | [] => []
  | (label, color) :: rest =>
      if String.eqb color "#None" then
        let noneCount := S noneCount in
        (if (noneCount =? 2)%nat
         then "<div class='legend-title'><br>" +:+ label +:+ "</div>"
         else "<div class='legend-title'>" +:+ label +:+ "</div>")
        :: entries noneCount opacity rest
      else
        ("    <li><span style='background:" +:+ color +:+ ";opacity:"
         +:+ opacity +:+ ";'></span>" +:+ label +:+ "</li>" +:+ nl)
        :: entries noneCount opacity rest
  end.

(** The loop over [enumerate(lines)], from line [index] on; [colors] is
    [None] while the local is unbound. *)
Fixpoint fill (colors : option (list (string * string))) (opacity : string)
    (index : nat) (lines content : list string) : outcome (list string) :=
  match lines with
  | [] => Returns content
  | line :: rest =>
      if (index <=? 36)%nat then
        fill colors opacity (S index) rest (content ++ [line])
      else if (index <? 39)%nat then
        fill colors opacity (S index) rest (content ++ [line])
      else if (index =? 39)%nat then
        match colors with
        | None => Throws UnboundLocalError
        | Some items =>
            fill colors opacity (S index) rest
              (content ++ entries 0 opacity items)
        end
      else if (41 <? index)%nat then
        fill colors opacity (S index) rest (content ++ [line])
      else fill colors opacity (S index) rest content
  end.

(** [add_legend]: the lines joined into the template of the macro. *)
Definition add_legend (template : list string) (legend_dict : legend_arg)
    (opacity : string) : outcome (list string) :=
  colors ←
    match legend_dict with
    | NoLegend => Returns None
    | NotADict => Throws (Std ValueError)
    | LegendDict items =>
        Returns (Some (map (fun '(label, color) => (label, "#" +:+ color)) items))
    end;
  fill colors opacity 0 template [].

End Legend.

(** ** Burn-severity picture (funcs.py:423-438) *)

Module Picture.

Definition cmapDict : list (Z * string) :=
  [(1, "#706C1E"); (2, "#4E9D5C"); (3, "#FFF70B"); (4, "#FF641B");
   (5, "#A41FD6")].

(** [cmapDict[i]] *)
Definition cmapDict_get (i : Z) : res string :=
  match List.find (fun kv => fst kv =? i) cmapDict with
  | Some kv => Ok (snd kv)
  | None => Raise KeyError
  end.

(** [sorted(set(data))] *)
Definition sorted_set (data : list Z) : list Z :=
  fold_right Metrics.insert_label [] data.

(** [data.reshape(height, width)] *)
Fixpoint rows_of (height width : nat) (data : list Z) : list (list Z) :=
  match height with
  | O => []
  | S h => firstn width data :: rows_of h width (skipn width data)
  end.

Definition reshape (height width : nat) (data : list Z) : res (list (list Z)) :=
  if (length data =? height * width)%nat then Ok (rows_of height width data)
  else Raise ValueError.

(** [burnSeverityImage] up to the drawing: the colours of the colour map
    and the picture's class grid. *)
Definition burnSeverityImage (data : list Z) (dim : nat * nat)
    : res (list string * list (list Z)) :=
  cmap ← Table.mapM cmapDict_get (sorted_set data);
  let '(height, width) := dim in
  grid ← reshape height width data;
  Ok (cmap, grid).

End Picture.

(** ** Land-cover chart (funcs.py:594-654) *)

Module Chart.

Definition lcMap : list (Z * string) :=
  [(1, "Other"); (2, "Developed"); (3, "Forest"); (4, "Shrub");
   (5, "Grassland"); (6, "Agriculture")].

(** [lcMap[x]] *)
Definition lcMap_get (x : Z) : res string :=
  match List.find (fun kv => fst kv =? x) lcMap with
  | Some kv => Ok (snd kv)
  | None => Raise KeyError
  end.

(** [lcPivot] of [altChart]: one row per land-cover class that occurs,
    ascending, with its share of the pixels in percent. *)
Definition lcPivot (landCoverViz : list Z) : res (list (string * Q)) :=
  let classes := Picture.sorted_set landCoverViz in
  let counts := map (fun c => MetricsSpec.occurrences c landCoverViz) classes in
  let total := MetricsSpec.sumZ counts in
  let shares := map (fun n => (inject_Z n / inject_Z total)%Q) counts in
  let percentage :=
    map (fun q => Qred (Table.rint (100 * q * 100) # 100)) shares in
  names ← Table.mapM lcMap_get classes;
  Ok (combine names percentage).

End Chart.

(** * Properties *)

(** ** Temporal window selector *)

Section WindowFacts.
Import Window.

Lemma date_add_ok (d : date) (n : Z) :
  0 < d + n <= MAXORDINAL -> date_add d n = Ok (d + n).
Proof.
  intros [Hlo Hhi]. unfold date_add. cbv zeta.
  apply Z.ltb_lt in Hlo. apply Z.leb_le in Hhi.
  now rewrite Hlo, Hhi.
Qed.

Lemma date_add_inv (d : date) (n : Z) (r : date) :
  date_add d n = Ok r -> r = d + n /\ 0 < r <= MAXORDINAL.
Proof.
  unfold date_add. cbv zeta.
  destruct (0 <? d + n) eqn:Hlo; destruct (d + n <=? MAXORDINAL) eqn:Hhi;
    cbn; intros H; inversion H; subst.
  apply Z.ltb_lt in Hlo. apply Z.leb_le in Hhi. lia.
Qed.

Lemma ge_tier (d c : Z) : (d >=? c) = true <-> c <= d.
Proof. rewrite Z.geb_le. reflexivity. Qed.

Lemma lt_tier (d c : Z) : (d >=? c) = false <-> d < c.
Proof.
  rewrite <- Bool.not_true_iff_false, ge_tier. lia.
Qed.

Example ord_2020_08_01 : ymd2ord 2020 8 1 = 737638.
Proof. reflexivity. Qed.

Example ymd_back_2020_08_20 : ord2ymd (ymd2ord 2020 8 20) = (2020, 8, 20).
Proof. reflexivity. Qed.

Example elapsed_scenario :
  date_diff (ymd2ord 2020 8 20) (ymd2ord 2020 8 1) = 19.
Proof. reflexivity. Qed.

(** Boundary values of the elapsed days select the documented tier. *)
Example tier_boundaries :
  windows 737000 737059 = Ok (737060, 737119) /\
  windows 737000 737060 = Ok (737020, 737090) /\
  windows 737000 737089 = Ok (737049, 737119) /\
  windows 737000 737090 = Ok (737030, 737110).
Proof. repeat split; reflexivity. Qed.

(** The selector raises when the adjusted end leaves the calendar. *)
Example windows_overflow :
  windows (ymd2ord 9999 12 1) (ymd2ord 9999 12 25) = Raise OverflowError.
Proof. reflexivity. Qed.

(** C3, as stated, fails on its own scenario: for start 2020-08-01 and
    end 2020-08-20 the selector returns the shifted start 2020-08-21 and
    the adjusted end 2020-10-19, which is not 2020-09-19. *)
Lemma windows_scenario_adjusted_end_not_sep19 :
  exists s e,
    windows (ymd2ord 2020 8 1) (ymd2ord 2020 8 20) = Ok (s, e) /\
    s = ymd2ord 2020 8 21 /\
    ord2ymd e = (2020, 10, 19) /\
    e <> ymd2ord 2020 9 19.
Proof.
  exists 737658, 737717. repeat split; try reflexivity.
  vm_compute. discriminate.
Qed.

(** C3 (amended): with d = end - start, and whenever the adjusted end
    does not pass 9999-12-31, the selector returns (end - 60, end + 20)
    if d >= 90, (end - 40, end + 30) if 60 <= d < 90 and
    (end + 1, end + 60) if d < 60; for start 2020-08-01 and end
    2020-08-20 this is shifted start 2020-08-21 and adjusted end
    2020-10-19. *)
Theorem windows_tiers (startDate endDate : date) :
  valid_date startDate -> valid_date endDate ->
  (90 <= date_diff endDate startDate -> endDate + 20 <= MAXORDINAL ->
     windows startDate endDate = Ok (endDate - 60, endDate + 20)) /\
  (60 <= date_diff endDate startDate < 90 -> endDate + 30 <= MAXORDINAL ->
     windows startDate endDate = Ok (endDate - 40, endDate + 30)) /\
  (date_diff endDate startDate < 60 -> endDate + 60 <= MAXORDINAL ->
     windows startDate endDate = Ok (endDate + 1, endDate + 60)) /\
  windows (ymd2ord 2020 8 1) (ymd2ord 2020 8 20)
    = Ok (ymd2ord 2020 8 21, ymd2ord 2020 10 19).
Proof.
  unfold valid_date, date_diff. intros Hs He.
  repeat split.
  - intros Hd Hmax. unfold windows, date_diff, date_sub.
    apply ge_tier in Hd. rewrite Hd.
    rewrite !date_add_ok by lia. cbn. f_equal.
  - intros Hd Hmax. unfold windows, date_diff, date_sub.
    destruct Hd as [Hd1 Hd2].
    apply lt_tier in Hd2. apply ge_tier in Hd1. rewrite Hd2, Hd1.
    rewrite !date_add_ok by lia. cbn. f_equal.
  - intros Hd Hmax. unfold windows, date_diff.
    assert (H90 : endDate - startDate < 90) by lia.
    apply lt_tier in Hd, H90. rewrite H90, Hd.
    rewrite !date_add_ok by lia. reflexivity.
Qed.

Lemma windows_tiers_witness :
  windows (ymd2ord 2020 1 1) (ymd2ord 2020 3 15)
    = Ok (ymd2ord 2020 3 15 - 40, ymd2ord 2020 3 15 + 30).
Proof.
  refine (proj1 (proj2 (windows_tiers (ymd2ord 2020 1 1) (ymd2ord 2020 3 15) _ _)) _ _).
  - unfold valid_date. vm_compute. split; discriminate.
  - unfold valid_date. vm_compute. split; discriminate.
  - vm_compute. split; [discriminate | reflexivity].
  - vm_compute. discriminate.
Defined.

(** C4, as stated, fails: for start 2020-08-01 < end 2020-08-20 the
    shifted start is 2020-08-21, after the nominal end. *)
Lemma shifted_start_after_end :
  ymd2ord 2020 8 1 < ymd2ord 2020 8 20 /\
  exists s e,
    windows (ymd2ord 2020 8 1) (ymd2ord 2020 8 20) = Ok (s, e) /\
    ~ (ymd2ord 2020 8 1 <= s /\ s <= ymd2ord 2020 8 20).
Proof.
  split; [reflexivity |].
  exists 737658, 737717. split; [reflexivity |].
  intros [_ H]. vm_compute in H. apply H. reflexivity.
Qed.

(** C4 (amended): for start < end, a shifted start the selector returns
    is never before start and never after the adjusted end; it is at
    most the nominal end exactly when at least 60 days elapsed, and
    otherwise it is the day after the nominal end. *)
Theorem shifted_start_bounds (startDate endDate s e : date) :
  valid_date startDate -> valid_date endDate -> startDate < endDate ->
  windows startDate endDate = Ok (s, e) ->
  startDate <= s /\ s <= e /\
  (s <= endDate <-> 60 <= date_diff endDate startDate) /\
  (date_diff endDate startDate < 60 -> s = endDate + 1).
Proof.
  unfold valid_date, date_diff. intros Hs He Hlt.
  unfold windows, date_diff, date_sub.
  destruct (endDate - startDate >=? 90) eqn:H90;
    [| destruct (endDate - startDate >=? 60) eqn:H60];
    repeat match goal with
    | H : (_ >=? _) = true |- _ => apply ge_tier in H
    | H : (_ >=? _) = false |- _ => apply lt_tier in H
    end;
    match goal with
    | |- context [date_add endDate ?a ≫= _] =>
        destruct (date_add endDate a) as [s0|] eqn:Ha; cbn; [| discriminate]
    end;
    match goal with
    | |- context [date_add endDate ?b ≫= _] =>
        destruct (date_add endDate b) as [e0|] eqn:Hb; cbn; [| discriminate]
    end;
    intros Heq; inversion Heq; subst;
    apply date_add_inv in Ha, Hb; lia.
Qed.

Lemma shifted_start_bounds_witness :
  ymd2ord 2020 8 1 <= ymd2ord 2020 8 21 /\
  ymd2ord 2020 8 21 <= ymd2ord 2020 10 19.
Proof.
  pose proof (shifted_start_bounds (ymd2ord 2020 8 1) (ymd2ord 2020 8 20)
                (ymd2ord 2020 8 21) (ymd2ord 2020 10 19)) as H.
  destruct H as (H1 & H2 & _).
  - unfold valid_date. vm_compute. split; discriminate.
  - unfold valid_date. vm_compute. split; discriminate.
  - reflexivity.
  - reflexivity.
  - split; assumption.
Defined.

End WindowFacts.

(** ** Band deriver *)

Section ClassifyFacts.
Import Classify.

Lemma gt_R_spec (x : R) (c : Z) : gt x c = true <-> (IZR c < x)%R.
Proof.
  cbn. destruct (Rlt_dec (IZR c) x); split; intros; try easy.
Qed.

Lemma gt_R_false (x : R) (c : Z) : gt x c = false <-> (x <= IZR c)%R.
Proof.
  cbn. destruct (Rlt_dec (IZR c) x); split; intros; try easy; lra.
Qed.

Lemma le_R_spec (x : R) (c : Z) : le x c = true <-> (x <= IZR c)%R.
Proof.
  cbn. destruct (Rle_dec x (IZR c)); split; intros; try easy.
Qed.

(** On a number, the last test of the burn-severity expression holds
    whenever the test before it fails: the final [0] is never taken. *)
Lemma burn_mask_unreachable_R (x : R) : gt x (-60) || le x (-60) = true.
Proof.
  destruct (gt x (-60)) eqn:Hg; [reflexivity |].
  apply gt_R_false in Hg. cbn [orb]. now apply le_R_spec.
Qed.

Lemma gt_Q_spec (x : Q) (c : Z) : gt x c = true <-> (inject_Z c < x)%Q.
Proof.
  cbn. unfold Qlt. cbn. rewrite Z.ltb_lt. rewrite Z.mul_1_r. reflexivity.
Qed.

Lemma le_Q_spec (x : Q) (c : Z) : le x c = true <-> (x <= inject_Z c)%Q.
Proof.
  cbn. unfold Qle. cbn. rewrite Z.leb_le. rewrite Z.mul_1_r. reflexivity.
Qed.

(** The same classification on rational values, where it computes. *)
Lemma burnSeverity_Q_total (dNBR : Q) :
  1 <= burnSeverity dNBR <= 5.
Proof.
  unfold burnSeverity.
  destruct (gt dNBR 425); [lia |].
  destruct (gt dNBR 225); [lia |].
  destruct (gt dNBR 100); [lia |].
  destruct (gt dNBR (-60)) eqn:Hg; [lia |].
  destruct (le dNBR (-60)) eqn:Hl; [lia |].
  exfalso. cbn in Hg, Hl.
  apply Z.ltb_ge in Hg. apply Z.leb_gt in Hl. lia.
Qed.

Example burnSeverity_thresholds :
  map burnSeverity [(4251 # 10)%Q; 425%Q; (2251 # 10)%Q; 225%Q; (1001 # 10)%Q;
                    100%Q; (-599 # 10)%Q; (-60)%Q; (-1000)%Q]
  = [5; 4; 4; 3; 3; 2; 2; 1; 1].
Proof. reflexivity. Qed.

(** C1: on every real dNBR the burn-severity expression returns the
    class of the first test that holds: 5 above 425, else 4 above 225,
    else 3 above 100, else 2 above -60, else 1 (dNBR <= -60); the class
    is always one of 1..5 and the final 0 is never returned. *)
Theorem burnSeverity_total (dNBR : R) :
  (((425 < dNBR)%R /\ burnSeverity dNBR = 5) \/
   ((225 < dNBR <= 425)%R /\ burnSeverity dNBR = 4) \/
   ((100 < dNBR <= 225)%R /\ burnSeverity dNBR = 3) \/
   ((-60 < dNBR <= 100)%R /\ burnSeverity dNBR = 2) \/
   ((dNBR <= -60)%R /\ burnSeverity dNBR = 1)) /\
  1 <= burnSeverity dNBR <= 5 /\
  burnSeverity dNBR <> 0.
Proof.
  unfold burnSeverity.
  destruct (gt dNBR 425) eqn:H425;
    [apply gt_R_spec in H425 | apply gt_R_false in H425].
  { split; [left; split; [assumption | reflexivity] | lia]. }
  destruct (gt dNBR 225) eqn:H225;
    [apply gt_R_spec in H225 | apply gt_R_false in H225].
  { split; [right; left; split; [lra | reflexivity] | lia]. }
  destruct (gt dNBR 100) eqn:H100;
    [apply gt_R_spec in H100 | apply gt_R_false in H100].
  { split; [right; right; left; split; [lra | reflexivity] | lia]. }
  destruct (gt dNBR (-60)) eqn:H60;
    [apply gt_R_spec in H60 | apply gt_R_false in H60].
  { split; [right; right; right; left; split; [lra | reflexivity] | lia]. }
  assert (Hle : le dNBR (-60) = true) by now apply le_R_spec.
  rewrite Hle.
  split; [right; right; right; right; split; [lra | reflexivity] | lia].
Qed.

Lemma landCover_range (x : Z) : 0 <= landCover x <= 6.
Proof.
  unfold landCover.
  repeat match goal with
         | |- context [if ?b then _ else _] => destruct b
         end; lia.
Qed.

Lemma landCover_pos_iff (x : Z) : landCover x <> 0 <-> 10 < x.
Proof.
  unfold landCover. cbn [gt Band_Z].
  repeat match goal with
         | |- context [if (?c <? x) then _ else _] =>
             destruct (Z.ltb_spec c x)
         end; split; intros; try lia; try discriminate.
Qed.

Example landCover_codes :
  map landCover NLCD_codes
  = [1; 1; 2; 2; 2; 2; 1; 3; 3; 3; 4; 4; 5; 5; 5; 5; 6; 6; 6; 1].
Proof. reflexivity. Qed.

Lemma NLCD_codes_above_10 (x : Z) : In x NLCD_codes -> 10 < x.
Proof.
  unfold NLCD_codes. intros Hin.
  repeat (destruct Hin as [<- | Hin]; [lia |]). destruct Hin.
Qed.

(** C7, as stated, fails: the NLCD code 95 is classified 1, and the
    expression applied to that 1 returns 0. *)
Lemma landCover_not_idempotent :
  In 95 NLCD_codes /\ landCover 95 = 1 /\
  landCover (landCover 95) = 0 /\
  landCover (landCover 95) <> landCover 95.
Proof.
  repeat split; try reflexivity.
  - cbn. tauto.
  - discriminate.
Qed.

(** C7 (amended): the land-cover expression is total, with a class in
    0..6 for every value and in 1..6 for every NLCD code; applied to an
    already classified value it always returns 0, so that the second
    application agrees with the first exactly on the values not above
    10, and on no NLCD code. *)
Theorem landCover_reapplied (x : Z) :
  0 <= landCover x <= 6 /\
  landCover (landCover x) = 0 /\
  (landCover (landCover x) = landCover x <-> x <= 10) /\
  (In x NLCD_codes ->
     1 <= landCover x <= 6 /\ landCover (landCover x) <> landCover x).
Proof.
  pose proof (landCover_range x) as Hr.
  assert (H0 : landCover (landCover x) = 0).
  { destruct (Z.eq_dec (landCover (landCover x)) 0) as [E | E]; [exact E |].
    apply landCover_pos_iff in E. lia. }
  assert (Hiff : landCover (landCover x) = landCover x <-> x <= 10).
  { rewrite H0. pose proof (landCover_pos_iff x) as Hp.
    split; intros H.
    - destruct (Z.le_gt_cases x 10) as [Hle | Hgt]; [exact Hle |].
      exfalso. apply Hp in Hgt. congruence.
    - destruct (Z.eq_dec (landCover x) 0) as [E | E]; [congruence |].
      apply Hp in E. lia. }
  split; [exact Hr |]. split; [exact H0 |]. split; [exact Hiff |].
  intros Hin. apply NLCD_codes_above_10 in Hin. split.
  - apply landCover_pos_iff in Hin. lia.
  - intros Heq. apply Hiff in Heq. lia.
Qed.

End ClassifyFacts.

(** ** Raster-to-table converter *)

Section TableFacts.
Import Table.

Lemma mapM_length {A B : Type} (f : A -> res B) (l : list A) (r : list B) :
  mapM f l = Ok r -> length r = length l.
Proof.
  revert r. induction l as [| x l IH]; intros r; cbn.
  - intros H. inversion H. reflexivity.
  - destruct (f x) as [y |]; cbn; [| discriminate].
    destruct (mapM f l) as [ys |]; cbn; [| discriminate].
    intros H. inversion H. cbn. f_equal. now apply IH.
Qed.

Lemma astype_int_keys (df : frame cell) (t : frame Z) :
  astype_int df = Ok t -> map fst t = map fst df.
Proof.
  unfold astype_int. revert t.
  induction df as [| [k c] df IH]; intros t; cbn.
  - intros H. inversion H. reflexivity.
  - destruct (mapM to_int c) as [c' |]; cbn; [| discriminate].
    destruct (mapM _ df) as [t' |]; cbn; [| discriminate].
    intros H. inversion H. cbn. f_equal. now apply IH.
Qed.

Lemma astype_int_lengths (df : frame cell) (t : frame Z) :
  astype_int df = Ok t -> map (fun kc => length (snd kc)) t = map (fun kc => length (snd kc)) df.
Proof.
  unfold astype_int. revert t.
  induction df as [| [k c] df IH]; intros t; cbn.
  - intros H. inversion H. reflexivity.
  - destruct (mapM to_int c) as [c' |] eqn:Hc; cbn; [| discriminate].
    destruct (mapM _ df) as [t' |]; cbn; [| discriminate].
    intros H. inversion H. cbn. f_equal; [now apply mapM_length in Hc | now apply IH].
Qed.

Lemma dict_set_keys {A : Type} (k : string) (v : A) (d : list (string * A)) :
  In k (map fst d) -> map fst (dict_set k v d) = map fst d.
Proof.
  induction d as [| [k' v'] d IH]; cbn; [tauto |].
  intros Hin. destruct (String.eqb_spec k k') as [-> | Hne]; cbn; [reflexivity |].
  f_equal. apply IH. destruct Hin as [E | Hin]; [congruence | exact Hin].
Qed.

Lemma impute_round_keys (df : frame cell) :
  map fst (impute_round df) = map fst df.
Proof.
  unfold impute_round. induction df as [| [k c] df IH]; [reflexivity |].
  rewrite !map_cons. cbn [fst]. f_equal. exact IH.
Qed.

Lemma impute_round_lengths (df : frame cell) :
  map (fun kc => length (snd kc)) (impute_round df)
  = map (fun kc => length (snd kc)) df.
Proof.
  unfold impute_round. induction df as [| [k c] df IH]; [reflexivity |].
  rewrite !map_cons. cbn [snd]. unfold fillna at 1. rewrite !length_map.
  f_equal. exact IH.
Qed.

(** With at least 14 bands, the loop of funcs.py:406 pairs the name at
    position [i] of [colNames] with the flattened band [i]. *)
Lemma columns_colNames (bands : list (list (list cell))) :
  (14 <= length bands)%nat ->
  columns bands (enumerate Bands.colNames) []
  = Ok (combine Bands.colNames (map flatten (firstn 14 bands))).
Proof.
  intros Hlen.
  do 14 (destruct bands as [| ? bands]; [cbn in Hlen; lia |]).
  reflexivity.
Qed.

(** With fewer bands, [img[index]] raises. *)
Lemma columns_short (bands : list (list (list cell))) :
  (length bands < 14)%nat ->
  columns bands (enumerate Bands.colNames) [] = Raise IndexError.
Proof.
  intros Hlen.
  do 14 (destruct bands as [| ? bands]; [reflexivity |]).
  cbn in Hlen. lia.
Qed.

Lemma flatten_length (band : list (list cell)) (h w : nat) :
  length band = h -> Forall (fun row => length row = w) band ->
  length (flatten band) = (h * w)%nat.
Proof.
  intros <- Hrows. unfold flatten.
  induction Hrows as [| row band Hrow Hrows IH]; cbn; [reflexivity |].
  rewrite length_app, IH, Hrow. reflexivity.
Qed.

Lemma toTable_unfold (img : raster) (g : rng) (data : frame cell) :
  columns (read img) (enumerate Bands.colNames) [] = Ok data ->
  toTable img g = astype_int (fst (repair (impute_round data) g)).
Proof.
  intros Hc. unfold toTable, convert. rewrite Hc.
  unfold mbind, res_bind.
  destruct (repair (impute_round data) g) as [df' g']. cbn [fst].
  destruct (astype_int df'); reflexivity.
Qed.

Lemma toTable_short (img : raster) (g : rng) :
  (length (read img) < 14)%nat -> toTable img g = Raise IndexError.
Proof.
  intros H. unfold toTable, convert. now rewrite columns_short.
Qed.

Lemma sample1_range (g : rng) : 1 <= fst (sample1 g) <= 5.
Proof.
  unfold sample1. cbn [fst].
  pose proof (Nat.mod_upper_bound (g 0%nat) 5 ltac:(lia)) as Hm.
  destruct (g 0%nat mod 5)%nat as [| [| [| [| [| m]]]]]; cbn; lia.
Qed.

Lemma to_int_inject (v : Z) : to_int (Num (inject_Z v)) = Ok v.
Proof. cbn. now rewrite Z.quot_1_r. Qed.

(** C5: on the one-row raster whose burn-severity band holds a missing
    pixel, a 0 and a 1, the conversion succeeds for every state of the
    random source, and its burn-severity column starts with 0: the
    missing pixel is imputed with the mean 0.5, passes the test
    [<= 0] untouched and is truncated to 0 by [astype(int)]. The claim
    (only values in 1..5) fails on this accepted raster. *)
Theorem edge_raster_keeps_zero (g : rng) :
  exists v, 1 <= v <= 5 /\
    toTable Samples.edge_raster g = Ok (Samples.edge_table v) /\
    burn_column (Samples.edge_table v) = [0; v; 1] /\
    In 0 (burn_column (Samples.edge_table v)).
Proof.
  rewrite (toTable_unfold Samples.edge_raster g _
             (columns_colNames (read Samples.edge_raster) ltac:(cbn; lia))).
  unfold repair.
  change (num_le0 _) with 1%nat. cbn [Nat.ltb Nat.leb imputeValues].
  unfold sample1.
  pose proof (Nat.mod_upper_bound (g 0%nat) 5 ltac:(lia)) as Hm.
  set (m := (g 0%nat mod 5)%nat) in *. clearbody m.
  destruct m as [| [| [| [| [| m]]]]]; [| | | | | lia].
  - exists 1. vm_compute. intuition congruence.
  - exists 2. vm_compute. intuition congruence.
  - exists 3. vm_compute. intuition congruence.
  - exists 4. vm_compute. intuition congruence.
  - exists 5. vm_compute. intuition congruence.
Qed.

Lemma assign_le0_length (c : list cell) (vs : list Z) :
  length (assign_le0 c vs) = length c.
Proof.
  revert vs. induction c as [| x c IH]; intros vs; cbn; [reflexivity |].
  destruct (le0 x); [destruct vs |]; cbn; now rewrite IH.
Qed.

Lemma le0_to_int (x : cell) : le0 x = true -> exists y, to_int x = Ok y.
Proof. destruct x; cbn; [eauto | discriminate]. Qed.

Lemma mapM_cons_inv {A B : Type} (f : A -> res B) (x : A) (l : list A)
    (r : list B) :
  mapM f (x :: l) = Ok r ->
  exists y ys, f x = Ok y /\ mapM f l = Ok ys /\ r = y :: ys.
Proof.
  cbn. destruct (f x) as [y |]; cbn; [| discriminate].
  destruct (mapM f l) as [ys |]; cbn; [| discriminate].
  intros H. inversion H. eauto.
Qed.

Lemma mapM_cons_ok {A B : Type} (f : A -> res B) (x : A) (l : list A)
    (y : B) (ys : list B) :
  f x = Ok y -> mapM f l = Ok ys -> mapM f (x :: l) = Ok (y :: ys).
Proof. intros Hx Hl. cbn. rewrite Hx. cbn. rewrite Hl. reflexivity. Qed.

(** Whether the cast succeeds does not depend on the values drawn. *)
Lemma assign_le0_success (c : list cell) (vs1 vs2 : list Z) (r1 : list Z) :
  mapM to_int (assign_le0 c vs1) = Ok r1 ->
  exists r2, mapM to_int (assign_le0 c vs2) = Ok r2.
Proof.
  revert vs1 vs2 r1. induction c as [| x c IH]; intros vs1 vs2 r1 H1.
  - exists []. reflexivity.
  - cbn [assign_le0] in *. destruct (le0 x) eqn:Hx.
    + destruct (le0_to_int x Hx) as [y0 Hy0].
      assert (Hrest : exists vs1', exists r1',
                 mapM to_int (assign_le0 c vs1') = Ok r1').
      { destruct vs1 as [| v1 vs1];
          apply mapM_cons_inv in H1 as (y & ys & _ & Hys & _); eauto. }
      destruct Hrest as (vs1' & r1' & Hr1').
      destruct vs2 as [| v2 vs2].
      * destruct (IH vs1' [] r1' Hr1') as [r2 Hr2].
        exists (y0 :: r2). now apply mapM_cons_ok.
      * destruct (IH vs1' vs2 r1' Hr1') as [r2 Hr2].
        exists (v2 :: r2). apply mapM_cons_ok; [apply to_int_inject | exact Hr2].
    + apply mapM_cons_inv in H1 as (y & ys & Hy & Hys & _).
      destruct (IH vs1 vs2 ys Hys) as [r2 Hr2].
      exists (y :: r2). now apply mapM_cons_ok.
Qed.

(** Two different first draws give two different columns. *)
Lemma assign_le0_differs (c : list cell) (v1 v2 : Z) (vs1 vs2 r1 r2 : list Z) :
  (0 < length (List.filter le0 c))%nat -> v1 <> v2 ->
  mapM to_int (assign_le0 c (v1 :: vs1)) = Ok r1 ->
  mapM to_int (assign_le0 c (v2 :: vs2)) = Ok r2 ->
  r1 <> r2.
Proof.
  revert r1 r2. induction c as [| x c IH]; intros r1 r2 Hnum Hne H1 H2.
  - cbn in Hnum. lia.
  - cbn [assign_le0 List.filter] in *. destruct (le0 x) eqn:Hx.
    + apply mapM_cons_inv in H1 as (y1 & ys1 & Hy1 & _ & ->).
      apply mapM_cons_inv in H2 as (y2 & ys2 & Hy2 & _ & ->).
      rewrite to_int_inject in Hy1, Hy2. congruence.
    + apply mapM_cons_inv in H1 as (y1 & ys1 & Hy1 & Hys1 & ->).
      apply mapM_cons_inv in H2 as (y2 & ys2 & Hy2 & Hys2 & ->).
      specialize (IH ys1 ys2 Hnum Hne Hys1 Hys2). congruence.
Qed.

Lemma astype_int_cons (k : string) (c : list cell) (df : frame cell) :
  astype_int ((k, c) :: df)
  = (c' ← mapM to_int c; t ← astype_int df; Ok ((k, c') :: t)).
Proof.
  unfold astype_int. cbn. unfold mbind, res_bind.
  destruct (mapM to_int c); reflexivity.
Qed.

Lemma astype_int_cons_inv (k : string) (c : list cell) (df : frame cell)
    (t : frame Z) :
  astype_int ((k, c) :: df) = Ok t ->
  exists c' t', mapM to_int c = Ok c' /\ astype_int df = Ok t' /\ t = (k, c') :: t'.
Proof.
  rewrite astype_int_cons. unfold mbind, res_bind.
  destruct (mapM to_int c) as [c' |]; [| discriminate].
  destruct (astype_int df) as [t' |]; [| discriminate].
  intros H. inversion H. eauto.
Qed.

(** The cast of a frame whose column [k] was replaced by [v] holds the
    cast of [v] under [k]. *)
Lemma astype_int_dict_set (k : string) (v c : list cell) (df : frame cell)
    (t : frame Z) :
  dict_get k df = Some c ->
  astype_int (dict_set k v df) = Ok t ->
  exists r, mapM to_int v = Ok r /\ dict_get k t = Some r.
Proof.
  revert t. induction df as [| [k' c'] df IH]; intros t Hget Hcast.
  - discriminate.
  - cbn [dict_get dict_set] in *. destruct (String.eqb k k') eqn:Hk.
    + apply astype_int_cons_inv in Hcast as (r & t' & Hr & _ & ->).
      exists r. split; [exact Hr |]. cbn. now rewrite String.eqb_refl.
    + apply astype_int_cons_inv in Hcast as (r' & t' & _ & Ht' & ->).
      destruct (IH t' Hget Ht') as (r & Hr & Hg).
      exists r. split; [exact Hr |]. cbn. now rewrite Hk.
Qed.

(** Replacing column [k] by another castable column keeps the cast
    defined. *)
Lemma astype_int_dict_set_other (k : string) (v1 v2 c : list cell)
    (df : frame cell) (t1 : frame Z) (r2 : list Z) :
  dict_get k df = Some c ->
  astype_int (dict_set k v1 df) = Ok t1 ->
  mapM to_int v2 = Ok r2 ->
  exists t2, astype_int (dict_set k v2 df) = Ok t2.
Proof.
  revert t1. induction df as [| [k' c'] df IH]; intros t1 Hget Hcast Hr2.
  - discriminate.
  - cbn [dict_get dict_set] in *. destruct (String.eqb k k') eqn:Hk.
    + apply astype_int_cons_inv in Hcast as (r & t' & _ & Ht' & _).
      exists ((k, r2) :: t'). rewrite astype_int_cons, Hr2, Ht'. reflexivity.
    + apply astype_int_cons_inv in Hcast as (r' & t' & Hr' & Ht' & _).
      destruct (IH t' Hget Ht' Hr2) as [t2 Ht2].
      exists ((k', r') :: t2). rewrite astype_int_cons, Hr', Ht2. reflexivity.
Qed.

Lemma repair_fst (df : frame cell) (g : rng) :
  fst (repair df g)
  = if (0 <? num_le0 df)%nat
    then dict_set "burnSeverity"
           (assign_le0 (burn_column df) (fst (imputeValues (num_le0 df) g))) df
    else df.
Proof.
  unfold repair. destruct (0 <? num_le0 df)%nat; [| reflexivity].
  destruct (imputeValues (num_le0 df) g). reflexivity.
Qed.

Lemma imputeValues_S (n : nat) (g : rng) :
  fst (imputeValues (S n) g)
  = fst (sample1 g) :: fst (imputeValues n (snd (sample1 g))).
Proof.
  cbn [imputeValues]. destruct (sample1 g) as [v g']. cbn [fst snd].
  destruct (imputeValues n g'). reflexivity.
Qed.

(** Every draw is one of the five classes. *)
Lemma imputeValues_range (n : nat) (g : rng) :
  Forall (fun v => 1 <= v <= 5) (fst (imputeValues n g)).
Proof.
  revert g. induction n as [| n IH]; intros g.
  - constructor.
  - rewrite imputeValues_S. constructor; [apply sample1_range | apply IH].
Qed.

(** A generator whose first draw differs from that of [g]. *)
Lemma sample1_other (g : rng) :
  fst (sample1 (fun _ => S (g 0%nat))) <> fst (sample1 g).
Proof.
  unfold sample1. cbn [fst].
  replace (S (g 0%nat)) with (1 + g 0%nat)%nat by reflexivity.
  rewrite (Nat.Div0.add_mod 1 (g 0%nat) 5).
  pose proof (Nat.mod_upper_bound (g 0%nat) 5 ltac:(lia)) as Hm.
  set (m := (g 0%nat mod 5)%nat) in *. clearbody m.
  destruct m as [| [| [| [| [| m]]]]]; [| | | | | lia]; vm_compute; discriminate.
Qed.

Lemma burn_column_present (bands : list (list (list cell))) :
  (14 <= length bands)%nat ->
  exists c,
    dict_get "burnSeverity"
      (impute_round (combine Bands.colNames (map flatten (firstn 14 bands))))
    = Some c.
Proof.
  intros Hlen.
  do 14 (destruct bands as [| ? bands]; [cbn in Hlen; lia |]).
  eexists. reflexivity.
Qed.

Lemma dict_set_lengths {A : Type} (k : string) (v c : list A)
    (d : list (string * list A)) :
  dict_get k d = Some c -> length v = length c ->
  map (fun kc => length (snd kc)) (dict_set k v d)
  = map (fun kc => length (snd kc)) d.
Proof.
  induction d as [| [k' c'] d IH]; intros Hget Hlen; [discriminate |].
  cbn [dict_get dict_set] in *. destruct (String.eqb k k').
  - inversion Hget; subst. cbn. now rewrite Hlen.
  - cbn. f_equal. now apply IH.
Qed.

Lemma dict_get_In {A : Type} (k : string) (c : A) (d : list (string * A)) :
  dict_get k d = Some c -> In k (map fst d).
Proof.
  induction d as [| [k' c'] d IH]; cbn; [discriminate |].
  destruct (String.eqb_spec k k') as [-> | Hne]; [now left |].
  intros H. right. now apply IH.
Qed.

Lemma repair_keys (df : frame cell) (g : rng) (c : list cell) :
  dict_get "burnSeverity" df = Some c ->
  map fst (fst (repair df g)) = map fst df.
Proof.
  intros Hget. rewrite repair_fst.
  destruct (0 <? num_le0 df)%nat; [| reflexivity].
  apply dict_set_keys. eapply dict_get_In, Hget.
Qed.

Lemma repair_lengths (df : frame cell) (g : rng) (c : list cell) :
  dict_get "burnSeverity" df = Some c ->
  map (fun kc => length (snd kc)) (fst (repair df g))
  = map (fun kc => length (snd kc)) df.
Proof.
  intros Hget. rewrite repair_fst.
  destruct (0 <? num_le0 df)%nat; [| reflexivity].
  apply (dict_set_lengths _ _ c); [exact Hget |].
  rewrite assign_le0_length. unfold burn_column. now rewrite Hget.
Qed.

Lemma combine_colNames_keys (bands : list (list (list cell))) :
  (14 <= length bands)%nat ->
  map fst (combine Bands.colNames (map flatten (firstn 14 bands)))
  = Bands.colNames.
Proof.
  intros Hlen.
  do 14 (destruct bands as [| ? bands]; [cbn in Hlen; lia |]).
  reflexivity.
Qed.

(** The persisted table has the catalogue's columns, in its order. *)
Lemma toTable_keys (img : raster) (g : rng) (t : frame Z) :
  toTable img g = Ok t -> map fst t = Bands.colNames.
Proof.
  intros Ht.
  destruct (le_lt_dec 14 (length (read img))) as [Hlen | Hlen];
    [| rewrite toTable_short in Ht by exact Hlen; discriminate].
  rewrite (toTable_unfold img g _ (columns_colNames _ Hlen)) in Ht.
  destruct (burn_column_present _ Hlen) as [c Hc].
  apply astype_int_keys in Ht. rewrite Ht.
  rewrite (repair_keys _ g c Hc), impute_round_keys.
  now apply combine_colNames_keys.
Qed.

Lemma combine_colNames_lengths (img : raster) :
  well_shaped img -> (14 <= length (read img))%nat ->
  Forall (fun n => n = (height img * width img)%nat)
    (map (fun kc => length (snd kc))
       (combine Bands.colNames (map flatten (firstn 14 (read img))))).
Proof.
  unfold well_shaped. destruct img as [h w bands]. cbn [read height width].
  intros Hshape Hlen.
  do 14 (destruct bands as [| ? bands]; [cbn in Hlen; lia |]).
  cbn [firstn map combine Bands.colNames snd].
  repeat match goal with
         | H : Forall _ (_ :: _) |- _ => apply Forall_cons_iff in H as [[? ?] H]
         end.
  repeat (constructor; [now apply flatten_length |]). constructor.
Qed.

(** Every column of the table has one row per pixel. *)
Lemma toTable_rows (img : raster) (g : rng) (t : frame Z) :
  well_shaped img -> toTable img g = Ok t ->
  length t = 14%nat /\
  Forall (fun kc => length (snd kc) = (height img * width img)%nat) t.
Proof.
  intros Hshape Ht.
  destruct (le_lt_dec 14 (length (read img))) as [Hlen | Hlen];
    [| rewrite toTable_short in Ht by exact Hlen; discriminate].
  split.
  { apply toTable_keys in Ht. apply (f_equal (@length string)) in Ht.
    rewrite length_map in Ht. exact Ht. }
  rewrite (toTable_unfold img g _ (columns_colNames _ Hlen)) in Ht.
  destruct (burn_column_present _ Hlen) as [c Hc].
  apply astype_int_lengths in Ht.
  rewrite (repair_lengths _ g c Hc), impute_round_lengths in Ht.
  pose proof (combine_colNames_lengths img Hshape Hlen) as Hall.
  rewrite <- Ht in Hall.
  apply Forall_map in Hall. exact Hall.
Qed.

(** A raster that triggers the repair: one pixel is pending, and two
    states of the random source give two tables. *)
Example edge_raster_two_runs :
  pending Samples.edge_raster = 1%nat /\
  toTable Samples.edge_raster (fun _ => 0%nat) = Ok (Samples.edge_table 1) /\
  toTable Samples.edge_raster (fun _ => 3%nat) = Ok (Samples.edge_table 4) /\
  Samples.edge_table 1 <> Samples.edge_table 4.
Proof.
  split; [reflexivity |]. split; [reflexivity |]. split; [reflexivity |].
  vm_compute. discriminate.
Qed.

(** C6: the band names of the assembled image are the 14 names of the
    catalogue [colNames], in the same order, and the converter keys the
    flattened band at physical index i by the catalogue name at index
    i, for all 14 entries; the persisted table keeps that column
    order. *)
Theorem band_order_round_trip :
  Bands.combined = Bands.colNames /\
  Bands.colNames =
    ["SR_B1"; "SR_B2"; "SR_B3"; "SR_B4"; "SR_B5"; "SR_B6"; "SR_B7";
     "burnSeverity"; "dNBR"; "NDVI"; "elevation"; "percent_tree_cover";
     "landCover"; "landCoverViz"] /\
  length Bands.colNames = 14%nat /\
  forall img : raster, (14 <= length (read img))%nat ->
    exists data,
      columns (read img) (enumerate Bands.colNames) [] = Ok data /\
      map fst data = Bands.colNames /\
      (forall (i : nat) (name : string),
         Bands.colNames !! i = Some name ->
         exists band,
           read img !! i = Some band /\
           data !! i = Some (name, flatten band) /\
           dict_get name data = Some (flatten band)) /\
      (forall g t, toTable img g = Ok t -> map fst t = Bands.colNames).
Proof.
  split; [reflexivity |]. split; [reflexivity |]. split; [reflexivity |].
  intros img Hlen.
  exists (combine Bands.colNames (map flatten (firstn 14 (read img)))).
  split; [now apply columns_colNames |].
  split; [now apply combine_colNames_keys |].
  split; [| intros g t; apply toTable_keys].
  destruct img as [h w bands]. cbn [read] in *.
  do 14 (destruct bands as [| ? bands]; [cbn in Hlen; lia |]).
  intros i name Hi.
  do 14 (destruct i as [| i];
         [cbn in Hi; inversion Hi; subst name; eexists;
          split; [reflexivity |]; split; reflexivity |]).
  cbn in Hi. discriminate.
Qed.

End TableFacts.

(** ** Converter on floating-point pixels: when two runs agree *)

Section FloatFacts.
Import Floats Trigger.

Lemma float_to_int_inject (v : Z) : to_int (Num (inject_Z v)) = Ok v.
Proof. cbn. now rewrite Z.quot_1_r. Qed.

Lemma imputeValues_length (n : nat) (g : Table.rng) :
  length (fst (Table.imputeValues n g)) = n.
Proof.
  revert g. induction n as [| n IH]; intros g; [reflexivity |].
  rewrite imputeValues_S. cbn [length]. now rewrite IH.
Qed.

(** Whether the cast succeeds does not depend on the values drawn, as
    long as there is one for every pixel at or below 0. *)
Lemma float_assign_success (c : list cell) (vs1 vs2 : list Z) (r1 : list Z) :
  (length (List.filter le0 c) <= length vs2)%nat ->
  Table.mapM to_int (assign_le0 c vs1) = Ok r1 ->
  exists r2, Table.mapM to_int (assign_le0 c vs2) = Ok r2.
Proof.
  revert vs1 vs2 r1. induction c as [| x c IH]; intros vs1 vs2 r1 Hlen H1.
  - exists []. reflexivity.
  - cbn [assign_le0 List.filter] in *. destruct (le0 x) eqn:Hx.
    + assert (Hrest : exists vs1', exists r1',
                 Table.mapM to_int (assign_le0 c vs1') = Ok r1').
      { destruct vs1 as [| v1 vs1];
          apply mapM_cons_inv in H1 as (y & ys & _ & Hys & _); eauto. }
      destruct Hrest as (vs1' & r1' & Hr1').
      destruct vs2 as [| v2 vs2]; [cbn in Hlen; lia |].
      cbn [length] in Hlen.
      destruct (IH vs1' vs2 r1' ltac:(lia) Hr1') as [r2 Hr2].
      exists (v2 :: r2).
      apply mapM_cons_ok; [apply float_to_int_inject | exact Hr2].
    + apply mapM_cons_inv in H1 as (y & ys & Hy & Hys & _).
      destruct (IH vs1 vs2 ys Hlen Hys) as [r2 Hr2].
      exists (y :: r2). now apply mapM_cons_ok.
Qed.

(** Two different first draws give two different columns. *)
Lemma float_assign_differs (c : list cell) (v1 v2 : Z)
    (vs1 vs2 r1 r2 : list Z) :
  (0 < length (List.filter le0 c))%nat -> v1 <> v2 ->
  Table.mapM to_int (assign_le0 c (v1 :: vs1)) = Ok r1 ->
  Table.mapM to_int (assign_le0 c (v2 :: vs2)) = Ok r2 ->
  r1 <> r2.
Proof.
  revert r1 r2. induction c as [| x c IH]; intros r1 r2 Hnum Hne H1 H2.
  - cbn in Hnum. lia.
  - cbn [assign_le0 List.filter] in *. destruct (le0 x) eqn:Hx.
    + apply mapM_cons_inv in H1 as (y1 & ys1 & Hy1 & _ & ->).
      apply mapM_cons_inv in H2 as (y2 & ys2 & Hy2 & _ & ->).
      rewrite float_to_int_inject in Hy1, Hy2. congruence.
    + apply mapM_cons_inv in H1 as (y1 & ys1 & Hy1 & Hys1 & ->).
      apply mapM_cons_inv in H2 as (y2 & ys2 & Hy2 & Hys2 & ->).
      specialize (IH ys1 ys2 Hnum Hne Hys1 Hys2). congruence.
Qed.

Lemma float_astype_int_cons (k : string) (c : list cell)
    (df : Table.frame cell) :
  astype_int ((k, c) :: df)
  = (c' ← Table.mapM to_int c; t ← astype_int df; Ok ((k, c') :: t)).
Proof.
  unfold astype_int. cbn. unfold mbind, res_bind.
  destruct (Table.mapM to_int c); reflexivity.
Qed.

Lemma float_astype_int_cons_inv (k : string) (c : list cell)
    (df : Table.frame cell) (t : Table.frame Z) :
  astype_int ((k, c) :: df) = Ok t ->
  exists c' t',
    Table.mapM to_int c = Ok c' /\ astype_int df = Ok t' /\ t = (k, c') :: t'.
Proof.
  rewrite float_astype_int_cons. unfold mbind, res_bind.
  destruct (Table.mapM to_int c) as [c' |]; [| discriminate].
  destruct (astype_int df) as [t' |]; [| discriminate].
  intros H. inversion H. eauto.
Qed.

Lemma float_astype_int_dict_set (k : string) (v c : list cell)
    (df : Table.frame cell) (t : Table.frame Z) :
  Table.dict_get k df = Some c ->
  astype_int (Table.dict_set k v df) = Ok t ->
  exists r, Table.mapM to_int v = Ok r /\ Table.dict_get k t = Some r.
Proof.
  revert t. induction df as [| [k' c'] df IH]; intros t Hget Hcast.
  - discriminate.
  - cbn [Table.dict_get Table.dict_set] in *.
    destruct (String.eqb k k') eqn:Hk.
    + apply float_astype_int_cons_inv in Hcast as (r & t' & Hr & _ & ->).
      exists r. split; [exact Hr |]. cbn. now rewrite String.eqb_refl.
    + apply float_astype_int_cons_inv in Hcast as (r' & t' & _ & Ht' & ->).
      destruct (IH t' Hget Ht') as (r & Hr & Hg).
      exists r. split; [exact Hr |]. cbn. now rewrite Hk.
Qed.

Lemma float_astype_int_dict_set_other (k : string) (v1 v2 c : list cell)
    (df : Table.frame cell) (t1 : Table.frame Z) (r2 : list Z) :
  Table.dict_get k df = Some c ->
  astype_int (Table.dict_set k v1 df) = Ok t1 ->
  Table.mapM to_int v2 = Ok r2 ->
  exists t2, astype_int (Table.dict_set k v2 df) = Ok t2.
Proof.
  revert t1. induction df as [| [k' c'] df IH]; intros t1 Hget Hcast Hr2.
  - discriminate.
  - cbn [Table.dict_get Table.dict_set] in *.
    destruct (String.eqb k k') eqn:Hk.
    + apply float_astype_int_cons_inv in Hcast as (r & t' & _ & Ht' & _).
      exists ((k, r2) :: t'). rewrite float_astype_int_cons, Hr2, Ht'.
      reflexivity.
    + apply float_astype_int_cons_inv in Hcast as (r' & t' & Hr' & Ht' & _).
      destruct (IH t' Hget Ht' Hr2) as [t2 Ht2].
      exists ((k', r') :: t2). rewrite float_astype_int_cons, Hr', Ht2.
      reflexivity.
Qed.

Lemma float_repair_fst (df : Table.frame cell) (g : Table.rng) :
  fst (repair df g)
  = if (0 <? num_le0 df)%nat
    then Table.dict_set "burnSeverity"
           (assign_le0 (Table.burn_column df)
              (fst (Table.imputeValues (num_le0 df) g))) df
    else df.
Proof.
  unfold repair. destruct (0 <? num_le0 df)%nat; [| reflexivity].
  destruct (Table.imputeValues (num_le0 df) g). reflexivity.
Qed.

Lemma lookup_map {A B : Type} (f : A -> B) (l : list A) (i : nat) :
  map f l !! i = option_map f (l !! i).
Proof.
  revert i. induction l as [| x l IH]; intros [| i]; cbn; auto.
Qed.

(** The test [x <= 0] of the code decides that a value is at or below
    0. *)
Lemma le0_spec (x : cell) : le0 x = true <-> at_or_below_zero x.
Proof.
  destruct x as [q | negative |]; cbn.
  - apply Qle_bool_iff.
  - tauto.
  - split; [discriminate | tauto].
Qed.

(** The count of the code is positive exactly when some position holds a
    value at or below 0. *)
Lemma count_le0_pos (c : list cell) :
  (0 < length (List.filter le0 c))%nat <->
  exists (i : nat) (x : cell), c !! i = Some x /\ at_or_below_zero x.
Proof.
  induction c as [| y c IH].
  - cbn. split; [lia |]. intros (i & x & Hi & _). destruct i; discriminate.
  - cbn [List.filter]. destruct (le0 y) eqn:Hy.
    + cbn [length]. split; [| lia]. intros _.
      exists 0%nat, y. split; [reflexivity |]. now apply le0_spec.
    + rewrite IH. split.
      * intros (i & x & Hi & Hx). exists (S i), x. split; [exact Hi | exact Hx].
      * intros (i & x & Hi & Hx). destruct i as [| i].
        -- cbn in Hi. inversion Hi; subst x.
           apply le0_spec in Hx. congruence.
        -- exists i, x. split; [exact Hi | exact Hx].
Qed.

Section WithArithmetic.

Variable mean : list cell -> cell.
Variable round2 : cell -> cell.

Lemma float_columns_colNames (bands : list (list (list cell))) :
  (14 <= length bands)%nat ->
  columns bands (Table.enumerate Bands.colNames) []
  = Ok (combine Bands.colNames (map flatten (firstn 14 bands))).
Proof.
  intros Hlen.
  do 14 (destruct bands as [| ? bands]; [cbn in Hlen; lia |]).
  reflexivity.
Qed.

Lemma float_columns_short (bands : list (list (list cell))) :
  (length bands < 14)%nat ->
  columns bands (Table.enumerate Bands.colNames) [] = Raise IndexError.
Proof.
  intros Hlen.
  do 14 (destruct bands as [| ? bands]; [reflexivity |]).
  cbn in Hlen. lia.
Qed.

Lemma float_toTable_unfold (img : raster) (g : Table.rng)
    (data : Table.frame cell) :
  columns (read img) (Table.enumerate Bands.colNames) [] = Ok data ->
  toTable mean round2 img g
  = astype_int (fst (repair (impute_round mean round2 data) g)).
Proof.
  intros Hc. unfold toTable, convert. rewrite Hc.
  unfold mbind, res_bind.
  destruct (repair (impute_round mean round2 data) g) as [df' g'].
  cbn [fst]. destruct (astype_int df'); reflexivity.
Qed.

Lemma float_toTable_short (img : raster) (g : Table.rng) :
  (length (read img) < 14)%nat ->
  toTable mean round2 img g = Raise IndexError.
Proof.
  intros H. unfold toTable, convert. now rewrite float_columns_short.
Qed.

(** The burn-severity column of the imputed, rounded frame is the band
    at index 7, flattened, imputed with its own mean and rounded. *)
Lemma float_burn_column (bands : list (list (list cell))) :
  (14 <= length bands)%nat ->
  exists band : list (list cell),
    bands !! 7%nat = Some band /\
    Table.dict_get "burnSeverity"
      (impute_round mean round2
         (combine Bands.colNames (map flatten (firstn 14 bands))))
    = Some (map round2 (fillna (mean (flatten band)) (flatten band))).
Proof.
  intros Hlen.
  do 14 (destruct bands as [| ? bands]; [cbn in Hlen; lia |]).
  eexists. split; reflexivity.
Qed.

(** C10: the conversion is deterministic exactly when no repair is
    triggered, whatever the floating-point mean and rounding compute.
    If no pixel of the burn-severity band is at or below 0 after
    mean-imputation and rounding, any two states of the random source
    give the same outcome; if one is, then for every run that produces
    a table there is a state of the random source whose run produces a
    different table. *)
Theorem deterministic_exactly_without_repair (img : raster) :
  (~ repair_triggered mean round2 img ->
     forall g1 g2 : Table.rng,
       toTable mean round2 img g1 = toTable mean round2 img g2) /\
  (repair_triggered mean round2 img ->
     forall (g1 : Table.rng) (t1 : Table.frame Z),
       toTable mean round2 img g1 = Ok t1 ->
       exists (g2 : Table.rng) (t2 : Table.frame Z),
         toTable mean round2 img g2 = Ok t2 /\ t2 <> t1).
Proof.
  destruct (le_lt_dec 14 (length (read img))) as [Hlen | Hlen].
  2: { split.
       - intros _ g1 g2. now rewrite !float_toTable_short.
       - intros _ g1 t1. rewrite float_toTable_short by exact Hlen.
         discriminate. }
  pose proof (float_columns_colNames _ Hlen) as Hcols.
  destruct (float_burn_column _ Hlen) as (band & Hband & Hc).
  set (df := impute_round mean round2 _) in *.
  set (c := map round2 (fillna (mean (flatten band)) (flatten band))) in *.
  assert (Hcol : Table.burn_column df = c)
    by (unfold Table.burn_column; now rewrite Hc).
  assert (Htrig : repair_triggered mean round2 img <->
                  (0 < num_le0 df)%nat).
  { unfold num_le0. rewrite Hcol, count_le0_pos. unfold repair_triggered.
    subst c. unfold fillna, flatten. split.
    - intros (band' & i & x & Hb & Hi & Hx).
      rewrite Hband in Hb. inversion Hb; subst band'.
      exists i, (imputed_rounded mean round2 (concat band) x).
      split; [| exact Hx].
      rewrite !lookup_map, Hi. reflexivity.
    - intros (i & y & Hi & Hy). rewrite !lookup_map in Hi.
      destruct (concat band !! i) as [x |] eqn:Hx; [| discriminate].
      cbn in Hi. inversion Hi; subst y.
      exists band, i, x. split; [exact Hband |]. split; [exact Hx | exact Hy]. }
  split.
  - intros Hno g1 g2.
    rewrite (float_toTable_unfold img g1 _ Hcols),
            (float_toTable_unfold img g2 _ Hcols).
    fold df. rewrite !float_repair_fst.
    destruct (Nat.ltb_spec 0 (num_le0 df)) as [Hpos | _]; [| reflexivity].
    exfalso. apply Hno, Htrig, Hpos.
  - intros Hyes g1 t1. apply Htrig in Hyes.
    rewrite (float_toTable_unfold img g1 _ Hcols). fold df.
    rewrite float_repair_fst.
    unfold num_le0 in *. rewrite Hcol in *.
    destruct (length (List.filter le0 c)) as [| n] eqn:Hn; [lia |].
    cbn [Nat.ltb Nat.leb]. rewrite imputeValues_S. intros Ht1.
    destruct (float_astype_int_dict_set _ _ _ _ _ Hc Ht1) as (r1 & Hr1 & Hg1).
    set (g2 := fun _ : nat => S (g1 0%nat)).
    destruct (float_assign_success c _
                (fst (Table.sample1 g2)
                   :: fst (Table.imputeValues n (snd (Table.sample1 g2))))
                _ ltac:(cbn [length]; rewrite imputeValues_length, Hn; lia) Hr1)
      as [r2 Hr2].
    destruct (float_astype_int_dict_set_other _ _ _ _ _ _ _ Hc Ht1 Hr2)
      as [t2 Ht2].
    destruct (float_astype_int_dict_set _ _ _ _ _ Hc Ht2) as (r2' & Hr2' & Hg2).
    assert (r2' = r2) by congruence. subst r2'.
    exists g2, t2. split.
    + rewrite (float_toTable_unfold img g2 _ Hcols). fold df.
      rewrite float_repair_fst. unfold num_le0. rewrite Hcol, Hn.
      cbn [Nat.ltb Nat.leb]. rewrite imputeValues_S. exact Ht2.
    + intros ->.
      assert (Hne : r2 <> r1).
      { eapply float_assign_differs;
          [| apply sample1_other | exact Hr2 | exact Hr1].
        rewrite Hn. lia. }
      congruence.
Qed.

End WithArithmetic.

(** The burn-severity band of [edge_raster] triggers the repair (its 0
    stays 0), and two states of the random source give two tables. *)
Example float_edge_raster_two_runs :
  repair_triggered exact_mean exact_round2 edge_raster /\
  toTable exact_mean exact_round2 edge_raster (fun _ => 0%nat)
    = Ok (Samples.edge_table 1) /\
  toTable exact_mean exact_round2 edge_raster (fun _ => 3%nat)
    = Ok (Samples.edge_table 4) /\
  Samples.edge_table 1 <> Samples.edge_table 4.
Proof.
  split.
  { exists [[NaN; Num 0; Num 1]], 1%nat, (Num 0).
    split; [reflexivity |]. split; [reflexivity |]. cbn. discriminate. }
  split; [reflexivity |]. split; [reflexivity |].
  vm_compute. discriminate.
Qed.

(** A raster whose burn-severity band holds classes only does not
    trigger it, and converts without a draw. *)
Example float_clean_raster_no_repair :
  ~ repair_triggered exact_mean exact_round2 clean_raster /\
  exists t : Table.frame Z,
    Table.burn_column t = [2; 3; 1] /\
    forall g : Table.rng, toTable exact_mean exact_round2 clean_raster g = Ok t.
Proof.
  split.
  - intros (band & i & x & Hb & Hi & Hx).
    cbn in Hb. inversion Hb; subst band. clear Hb.
    destruct i as [| [| [| i]]]; cbn in Hi; inversion Hi; subst x;
      revert Hx; vm_compute; intros Hx; apply Hx; reflexivity.
  - eexists. split; [| intros g; vm_compute; reflexivity]. reflexivity.
Qed.

(** The double nearest to 0.005 lies above 0.005: the exact decimal
    rounding takes it to 0.01 and no repair follows, the rounding in
    double arithmetic takes it to 0 and the repair draws a class. *)
Example half_cent_rounding :
  exact_round2 (Num (5764607523034235 # 1152921504606846976)) = Num (1 # 100) /\
  double_round2 (Num (5764607523034235 # 1152921504606846976)) = Num 0 /\
  ~ repair_triggered exact_mean exact_round2 half_cent_raster /\
  repair_triggered exact_mean double_round2 half_cent_raster /\
  (exists t : Table.frame Z,
     toTable exact_mean double_round2 half_cent_raster (fun _ => 0%nat) = Ok t /\
     Table.burn_column t = [1]) /\
  (exists t : Table.frame Z,
     toTable exact_mean double_round2 half_cent_raster (fun _ => 3%nat) = Ok t /\
     Table.burn_column t = [4]).
Proof.
  split; [vm_compute; reflexivity |].
  split; [vm_compute; reflexivity |].
  split.
  { intros (band & i & x & Hb & Hi & Hx).
    cbn in Hb. inversion Hb; subst band. clear Hb.
    destruct i as [| i]; cbn in Hi; inversion Hi; subst x.
    revert Hx. vm_compute. intros Hx; apply Hx; reflexivity. }
  split.
  { exists [[Num (5764607523034235 # 1152921504606846976)]], 0%nat,
      (Num (5764607523034235 # 1152921504606846976)).
    split; [reflexivity |]. split; [reflexivity |].
    vm_compute. discriminate. }
  split; eexists; (split; [vm_compute; reflexivity | reflexivity]).
Qed.

End FloatFacts.

(** ** Raster exporter *)

Section ExporterFacts.
Import Exporter.

Lemma tif_not_zip : raster_tif <> raster_zip.
Proof. discriminate. Qed.

(** [raster.tif] is in the directory after a call exactly when it was
    there before or the call wrote it. *)
Lemma ee_export_image_tif (a : attempt) (d : disk) :
  raster_tif ∈ fst (ee_export_image a d) <->
  raster_tif ∈ d \/ produces a = true.
Proof.
  pose proof tif_not_zip as Hne.
  destruct a; cbn [ee_export_image produces fst];
    rewrite ?bool_decide_eq_true; set_solver.
Qed.

(** A call that leaves by an exception wrote no [raster.tif]. *)
Lemma ee_export_image_raised (a : attempt) (d : disk) :
  snd (ee_export_image a d) = true -> produces a = false.
Proof. destruct a; cbn; congruence. Qed.

(** A [raster.tif] in the directory stays there through the ladder. *)
Lemma ladder_keeps_tif (service : nat -> Z -> attempt) (imgScale : list Z) :
  forall (i : nat) (d : disk),
    raster_tif ∈ d -> raster_tif ∈ ladder service i imgScale d.
Proof.
  induction imgScale as [| s rest IH]; intros i d Hin; [exact Hin |].
  cbn [ladder].
  pose proof (ee_export_image_tif (service i s) d) as Htif.
  destruct (ee_export_image (service i s) d) as [d' raised]. cbn [fst] in Htif.
  assert (Hin' : raster_tif ∈ d') by (apply Htif; now left).
  destruct raised; [now apply IH |].
  rewrite bool_decide_eq_true_2 by exact Hin'. exact Hin'.
Qed.

(** From a directory without [raster.tif], the ladder ends with one
    exactly when some attempt writes it. *)
Lemma ladder_tif_iff (service : nat -> Z -> attempt) (imgScale : list Z) :
  forall (i : nat) (d : disk),
    raster_tif ∉ d ->
    (raster_tif ∈ ladder service i imgScale d <->
     exists (j : nat) (s : Z),
       imgScale !! j = Some s /\ produces (service (i + j)%nat s) = true).
Proof.
  induction imgScale as [| s rest IH]; intros i d Hout.
  - cbn [ladder]. split; [tauto |]. intros (j & s & Hj & _).
    destruct j; discriminate.
  - cbn [ladder].
    pose proof (ee_export_image_tif (service i s) d) as Htif.
    pose proof (ee_export_image_raised (service i s) d) as Hraised.
    destruct (ee_export_image (service i s) d) as [d' raised].
    cbn [fst snd] in Htif, Hraised.
    assert (Hnext :
              produces (service i s) = false ->
              (raster_tif ∈ ladder service (S i) rest d' <->
               exists (j : nat) (s0 : Z),
                 (s :: rest) !! j = Some s0 /\
                 produces (service (i + j)%nat s0) = true)).
    { intros Hp. rewrite IH by (rewrite Htif, Hp; intros [? | ?]; [tauto | discriminate]).
      split.
      - intros (j & s0 & Hj & Hprod). exists (S j), s0.
        split; [exact Hj |]. now rewrite Nat.add_succ_r.
      - intros (j & s0 & Hj & Hprod). destruct j as [| j].
        + cbn in Hj. inversion Hj; subst s0.
          rewrite Nat.add_0_r in Hprod. congruence.
        + exists j, s0. split; [exact Hj |].
          now rewrite Nat.add_succ_r in Hprod. }
    destruct raised; [apply Hnext; now apply Hraised |].
    destruct (bool_decide (raster_tif ∈ d')) eqn:Hd.
    + apply bool_decide_eq_true in Hd. split; [| intros _; exact Hd].
      intros _. exists 0%nat, s. split; [reflexivity |].
      rewrite Nat.add_0_r. apply Htif in Hd as [Hd | Hd]; [tauto | exact Hd].
    + apply bool_decide_eq_false in Hd. apply Hnext.
      destruct (produces (service i s)) eqn:Hp; [| reflexivity].
      exfalso. apply Hd, Htif. now right.
Qed.

Example three_scales_last_succeeds :
  raster_zip ∈ ladder Samples.third_time_service 0 [30] ∅ /\
  raster_zip ∈ ladder Samples.third_time_service 0 [30; 60] ∅ /\
  ladder Samples.third_time_service 0 [30; 60; 90] ∅ = {[raster_tif]}.
Proof.
  pose proof tif_not_zip as Hne.
  cbn [ladder Samples.third_time_service ee_export_image].
  rewrite !bool_decide_eq_false_2 by set_solver.
  cbn [ladder Samples.third_time_service ee_export_image].
  rewrite bool_decide_eq_true_2 by set_solver.
  repeat split; set_solver.
Qed.

(** The loop stops at the first call that returns with [raster.tif] in
    the directory; the remaining scales are not tried. *)
Lemma ladder_stops_at_success (service : nat -> Z -> attempt) (i : nat)
    (s : Z) (rest : list Z) (d : disk) :
  snd (ee_export_image (service i s) d) = false ->
  raster_tif ∈ fst (ee_export_image (service i s) d) ->
  ladder service i (s :: rest) d = fst (ee_export_image (service i s) d).
Proof.
  cbn [ladder]. destruct (ee_export_image (service i s) d) as [d' raised].
  cbn [fst snd]. intros -> Hin. now rewrite bool_decide_eq_true_2.
Qed.

(** C8: the exporter is meant to raise ExportExceededLimits when every
    candidate scale fails to produce the raster file, and it tests for
    that by looking for [raster.tif] in the working directory
    (funcs.py:388, 393). The test misses when an earlier run left a
    [raster.tif] there: with the three scales 30, 60, 90 and a service
    that refuses every request, no attempt produces the file, the
    ladder stops at the first call on the file of the earlier run, and
    the exporter raises nothing. *)
Lemma stale_raster_masks_exhaustion :
  (forall (i : nat) (s : Z), produces (Samples.refusing_service i s) = false) /\
  export_stage true Samples.refusing_service [30; 60; 90] {[raster_tif]}
    = ({[raster_tif]}, Ok tt) /\
  snd (export_stage true Samples.refusing_service [30; 60; 90] {[raster_tif]})
    <> Raise ExportExceededLimits.
Proof.
  assert (H : export_stage true Samples.refusing_service [30; 60; 90] {[raster_tif]}
              = ({[raster_tif]}, Ok tt)).
  { unfold export_stage. cbn [negb ladder Samples.refusing_service ee_export_image].
    rewrite (bool_decide_eq_true_2 (raster_tif ∈ _)) by set_solver.
    rewrite (bool_decide_eq_false_2 (raster_tif ∉ _)) by set_solver.
    reflexivity. }
  split; [reflexivity |]. split; [exact H |]. rewrite H. discriminate.
Qed.

(** X29: what the exporter does in every directory. If band
    enumeration fails it raises NoImageryAvailable and leaves the
    directory untouched. Otherwise it runs the ladder, stopping at the
    first call that returns with raster.tif present, and raises
    ExportExceededLimits exactly when no raster.tif is in the directory
    after the ladder; when the directory holds no raster.tif before the
    run, that is exactly when every candidate scale fails to produce
    the raster file. *)
Theorem export_stage_failures (service : nat -> Z -> attempt)
    (imgScale : list Z) (d : disk) :
  export_stage false service imgScale d = (d, Raise NoImageryAvailable) /\
  fst (export_stage true service imgScale d) = ladder service 0 imgScale d /\
  (snd (export_stage true service imgScale d) = Ok tt \/
   snd (export_stage true service imgScale d) = Raise ExportExceededLimits) /\
  (snd (export_stage true service imgScale d) = Raise ExportExceededLimits <->
   raster_tif ∉ ladder service 0 imgScale d) /\
  (forall (i : nat) (s : Z) (rest : list Z) (d0 : disk),
     snd (ee_export_image (service i s) d0) = false ->
     raster_tif ∈ fst (ee_export_image (service i s) d0) ->
     ladder service i (s :: rest) d0 = fst (ee_export_image (service i s) d0)) /\
  (raster_tif ∉ d ->
   (snd (export_stage true service imgScale d) = Raise ExportExceededLimits <->
    forall (j : nat) (s : Z),
      imgScale !! j = Some s -> produces (service j s) = false)).
Proof.
  assert (Hiff : snd (export_stage true service imgScale d)
                 = Raise ExportExceededLimits <->
                 raster_tif ∉ ladder service 0 imgScale d).
  { unfold export_stage. cbn [negb].
    destruct (bool_decide (raster_tif ∉ ladder service 0 imgScale d)) eqn:Hd;
      cbn [snd].
    - apply bool_decide_eq_true in Hd. tauto.
    - apply bool_decide_eq_false in Hd. split; [discriminate | tauto]. }
  split; [reflexivity |].
  split; [unfold export_stage; cbn [negb];
          destruct (bool_decide _); reflexivity |].
  split; [unfold export_stage; cbn [negb];
          destruct (bool_decide _); cbn [snd]; tauto |].
  split; [exact Hiff |].
  split; [intros i s rest d0; apply ladder_stops_at_success |].
  intros Hout. rewrite Hiff, (ladder_tif_iff service imgScale 0 d Hout).
  cbn [Nat.add]. split.
  - intros Hnone j s Hj. destruct (produces (service j s)) eqn:Hp; [| reflexivity].
    exfalso. apply Hnone. eauto.
  - intros Hall (j & s & Hj & Hp). rewrite (Hall j s Hj) in Hp. discriminate.
Qed.

(** C9: an archive that fails to unpack, or a download that breaks off,
    leaves raster.zip in the working directory, because
    [os.remove(filename_zip)] runs only after a successful
    [extractall]; with one candidate scale and a corrupt archive the
    exporter fails with ExportExceededLimits and raster.zip is what
    remains on disk. The claim (no zip artifact after a failed
    attempt) fails there. *)
Theorem corrupt_archive_leaves_zip :
  (forall (written d : disk),
     raster_zip ∈ fst (ee_export_image (BadArchive written) d)) /\
  (forall (handler_raises : bool) (d : disk),
     raster_zip ∈ fst (ee_export_image (StreamError handler_raises) d)) /\
  (forall (members d : disk),
     raster_zip ∉ fst (ee_export_image (Extracted members) d)) /\
  export_stage true Samples.corrupt_service [30] ∅
    = ({[raster_zip]}, Raise ExportExceededLimits).
Proof.
  pose proof tif_not_zip as Hne.
  split; [intros; cbn; set_solver |].
  split; [intros; cbn; set_solver |].
  split; [intros; cbn; set_solver |].
  unfold export_stage.
  cbn [negb ladder Samples.corrupt_service ee_export_image].
  rewrite (bool_decide_eq_false_2 (raster_tif ∈ _)) by set_solver.
  rewrite (bool_decide_eq_true_2 (raster_tif ∉ _)) by set_solver.
  first [reflexivity | f_equal; set_solver].
Qed.

End ExporterFacts.

(** ** Metrics engine *)

Section MetricsFacts.
Import Metrics.

Lemma insert_label_In (x y : Z) (l : list Z) :
  In x (insert_label y l) <-> x = y \/ In x l.
Proof.
  induction l as [| z l IH]; cbn; [intuition congruence |].
  destruct (Z.ltb_spec y z); cbn; [intuition congruence |].
  destruct (Z.eqb_spec y z); cbn; [subst; intuition congruence |].
  rewrite IH. intuition congruence.
Qed.

(** The label domain of the count matrix is the set of labels that
    occur in the reference or in the predictions. *)
Lemma unique_labels_In (x : Z) (y_true y_pred : list Z) :
  In x (unique_labels y_true y_pred) <-> In x y_true \/ In x y_pred.
Proof.
  unfold unique_labels. rewrite <- in_app_iff.
  induction (y_true ++ y_pred)%list as [| z l IH]; cbn; [tauto |].
  rewrite insert_label_In, IH. intuition congruence.
Qed.

Lemma confusion_matrix_rows (y_true y_pred : list Z) (cm : list (list Z)) :
  confusion_matrix y_true y_pred = Ok cm ->
  length cm = length (unique_labels y_true y_pred).
Proof.
  unfold confusion_matrix. destruct (negb _); [discriminate |].
  intros H. inversion H. now rewrite length_map.
Qed.

Lemma names_length (n : nat) (l : list string) : names n = Ok l -> length l = n.
Proof.
  unfold names. intros H. apply mapM_length in H. now rewrite length_seq in H.
Qed.

(** The metrics table has one row per label that occurs, not one per
    class of the vocabulary. *)
Lemma modelMetrics_rows (labels predictions : list Z) (cm : cm_frame)
    (m : metrics_frame) :
  modelMetrics labels predictions = Ok (cm, m) ->
  length (m_index m) = length (unique_labels labels predictions) /\
  length (cm_index cm) = S (length (unique_labels labels predictions)).
Proof.
  unfold modelMetrics.
  destruct (confusion_matrix labels predictions) as [c |] eqn:Hc;
    [| discriminate].
  apply confusion_matrix_rows in Hc. unfold mbind, res_bind.
  destruct (names (length c)) as [idx |] eqn:Hn; [| discriminate].
  apply names_length in Hn. intros H. inversion H. cbn.
  rewrite length_app. cbn. lia.
Qed.

Example metrics_all_classes_present :
  exists cm m,
    modelMetrics [1; 2; 3; 4; 5] [1; 2; 3; 5; 5] = Ok (cm, m) /\
    m_index m = ["Vegetation Growth"; "Unburned"; "Low"; "Moderate"; "High"] /\
    m_precision m = [100%Q; 100%Q; 100%Q; 0%Q; 50%Q] /\
    m_recall m = [100%Q; 100%Q; 100%Q; 0%Q; 100%Q] /\
    m_f1 m = [100%Q; 100%Q; 100%Q; 0%Q; (6667 # 100)%Q].
Proof. do 2 eexists. vm_compute. repeat split; reflexivity. Qed.

(** C2: on the reference labels [2,2,3,5] and the predictions
    [2,3,3,5] the count matrix is built over the three labels that
    occur, 2, 3 and 5: it is 3 x 3 before margins, not 5 x 5, class 4
    (absent from both) has no row at all, and the three rows are named
    after classes 1, 2 and 3. In general the rows follow the labels that
    occur in either sequence. *)
Theorem absent_class_has_no_row :
  (forall (labels predictions : list Z) (cm : cm_frame) (m : metrics_frame),
     modelMetrics labels predictions = Ok (cm, m) ->
     length (m_index m) = length (unique_labels labels predictions)) /\
  (forall (x : Z) (labels predictions : list Z),
     In x (unique_labels labels predictions) <->
     In x labels \/ In x predictions) /\
  exists cm m,
    modelMetrics [2; 2; 3; 5] [2; 3; 3; 5] = Ok (cm, m) /\
    unique_labels [2; 2; 3; 5] [2; 3; 3; 5] = [2; 3; 5] /\
    confusion_matrix [2; 2; 3; 5] [2; 3; 3; 5]
      = Ok [[1; 1; 0]; [0; 1; 0]; [0; 0; 1]] /\
    cm_index cm = ["Vegetation Growth"; "Unburned"; "Low"; "Actual Total"] /\
    m_index m = ["Vegetation Growth"; "Unburned"; "Low"] /\
    m_precision m = [100%Q; 50%Q; 100%Q] /\
    m_recall m = [50%Q; 100%Q; 100%Q] /\
    length (m_f1 m) = 3%nat.
Proof.
  split; [intros labels predictions cm m H;
          now apply modelMetrics_rows in H |].
  split; [apply unique_labels_In |].
  do 2 eexists. vm_compute. repeat split; reflexivity.
Qed.

End MetricsFacts.

(** * Further properties of the pipeline *)

(** ** Windows and image queries *)

Section CompositeFacts.
Import Window Composite.

Lemma windows_inv (startDate endDate s e : date) :
  windows startDate endDate = Ok (s, e) ->
  0 < s <= MAXORDINAL /\ 0 < e <= MAXORDINAL /\
  ((90 <= endDate - startDate /\ s = endDate - 60 /\ e = endDate + 20) \/
   (60 <= endDate - startDate < 90 /\ s = endDate - 40 /\ e = endDate + 30) \/
   (endDate - startDate < 60 /\ s = endDate + 1 /\ e = endDate + 60)).
Proof.
  unfold windows, date_diff, date_sub.
  destruct (endDate - startDate >=? 90) eqn:H90;
    [| destruct (endDate - startDate >=? 60) eqn:H60];
    repeat match goal with
    | H : (_ >=? _) = true |- _ => apply ge_tier in H
    | H : (_ >=? _) = false |- _ => apply lt_tier in H
    end;
    match goal with
    | |- context [date_add endDate ?a ≫= _] =>
        destruct (date_add endDate a) as [s0|] eqn:Ha; cbn; [| discriminate]
    end;
    match goal with
    | |- context [date_add endDate ?b ≫= _] =>
        destruct (date_add endDate b) as [e0|] eqn:Hb; cbn; [| discriminate]
    end;
    intros Heq; inversion Heq; subst;
    apply date_add_inv in Ha, Hb; lia.
Qed.

(** X1: the post-fire query window is never empty: it spans 80 days
    when at least 90 days elapsed, 70 days when 60 to 89 elapsed and 59
    days otherwise. *)
Theorem postfire_window_span (startDate endDate s e : date) :
  windows startDate endDate = Ok (s, e) ->
  s < e /\
  e - s = (if endDate - startDate >=? 90 then 80
           else if endDate - startDate >=? 60 then 70 else 59).
Proof.
  intros H. apply windows_inv in H as (_ & _ & H).
  destruct H as [(Hd & -> & ->) | [(Hd & -> & ->) | (Hd & -> & ->)]].
  - assert (E : (endDate - startDate >=? 90) = true) by now apply ge_tier.
    rewrite E. lia.
  - assert (E1 : (endDate - startDate >=? 90) = false) by (apply lt_tier; lia).
    assert (E2 : (endDate - startDate >=? 60) = true) by (apply ge_tier; lia).
    rewrite E1, E2. lia.
  - assert (E1 : (endDate - startDate >=? 90) = false) by (apply lt_tier; lia).
    assert (E2 : (endDate - startDate >=? 60) = false) by (apply lt_tier; lia).
    rewrite E1, E2. lia.
Qed.

Lemma postfire_window_span_witness :
  ymd2ord 2020 8 21 < ymd2ord 2020 10 19 /\
  ymd2ord 2020 10 19 - ymd2ord 2020 8 21 = 59.
Proof.
  exact (postfire_window_span (ymd2ord 2020 8 1) (ymd2ord 2020 8 20)
           (ymd2ord 2020 8 21) (ymd2ord 2020 10 19) eq_refl).
Defined.

(** X2: for valid dates the window selector either returns a window or
    raises OverflowError, and it raises exactly when the adjusted end
    (end + 20, + 30 or + 60 days, by tier) passes 9999-12-31. *)
Theorem windows_overflow_iff (startDate endDate : date) :
  valid_date startDate -> valid_date endDate ->
  ((exists s e, windows startDate endDate = Ok (s, e)) \/
   windows startDate endDate = Raise OverflowError) /\
  (windows startDate endDate = Raise OverflowError <->
   MAXORDINAL < endDate + (if endDate - startDate >=? 90 then 20
                           else if endDate - startDate >=? 60 then 30
                           else 60)).
Proof.
  unfold valid_date. intros Hs He.
  unfold windows, date_diff, date_sub, date_add. cbv zeta.
  destruct (endDate - startDate >=? 90) eqn:H90;
    [| destruct (endDate - startDate >=? 60) eqn:H60];
    repeat match goal with
    | H : (_ >=? _) = true |- _ => apply ge_tier in H
    | H : (_ >=? _) = false |- _ => apply lt_tier in H
    end;
    repeat match goal with
    | |- context [?a <? ?b] => destruct (Z.ltb_spec a b)
    | |- context [?a <=? ?b] => destruct (Z.leb_spec a b)
    end; cbn; try lia;
    (split; [eauto | split; [intros; try discriminate; try lia | intros; try reflexivity; try lia]]).
Qed.

Lemma windows_overflow_iff_witness :
  windows (ymd2ord 9999 12 1) (ymd2ord 9999 12 25) = Raise OverflowError.
Proof.
  refine (proj2 (proj2 (windows_overflow_iff (ymd2ord 9999 12 1)
                          (ymd2ord 9999 12 25) _ _)) _).
  - unfold valid_date. vm_compute. split; discriminate.
  - unfold valid_date. vm_compute. split; discriminate.
  - vm_compute. reflexivity.
Defined.

Lemma ee_Date_mono (d1 d2 : date) : d1 <= d2 -> ee_Date d1 <= ee_Date d2.
Proof. unfold ee_Date, MS_PER_DAY. lia. Qed.

Lemma in_filterDate (lo hi : Z) (c : list scene) (sc : scene) :
  In sc (filterDate lo hi c) <-> In sc c /\ lo <= time_start sc < hi.
Proof.
  unfold filterDate. rewrite filter_In, andb_true_iff, Z.leb_le, Z.ltb_lt.
  tauto.
Qed.

Lemma in_preFireScenes (startDate : date) (c : list scene) (sc : scene) :
  In sc (preFireScenes startDate c) ->
  In sc c /\ time_start sc < ee_Date startDate.
Proof.
  unfold preFireScenes, filterCloud, filterBounds.
  rewrite !filter_In, in_filterDate. tauto.
Qed.

(** X3: when the fire does not end before it starts, no scene is
    averaged into both composites: every pre-fire scene is older than
    the start date, every post-fire scene is not, and the post-fire
    scenes all lie in the selected window of the collection. *)
Theorem composites_share_no_scene (startDate endDate : date)
    (c post : list scene) :
  startDate <= endDate ->
  postFireScenes startDate endDate c = Ok post ->
  forall sc : scene,
    In sc post ->
    In sc c /\ ee_Date startDate <= time_start sc /\
    ~ In sc (preFireScenes startDate c).
Proof.
  intros Hle Hpost sc Hin.
  unfold postFireScenes in Hpost.
  destruct (windows startDate endDate) as [[s e] |] eqn:Hw; [| discriminate].
  cbn in Hpost. inversion Hpost; subst post; clear Hpost.
  unfold filterCloud, filterBounds in Hin.
  rewrite !filter_In, in_filterDate in Hin.
  destruct Hin as (((Hc & Hlo & Hhi) & _) & _).
  apply windows_inv in Hw as (_ & _ & Hw).
  assert (Hs : startDate <= s) by lia.
  apply ee_Date_mono in Hs.
  split; [exact Hc |]. split; [lia |].
  intros Hpre. apply in_preFireScenes in Hpre. lia.
Qed.

Lemma composites_share_no_scene_witness :
  let sc := {| time_start := ee_Date (ymd2ord 2020 9 1);
               cloud_cover := 5; in_bounds := true |} in
  In sc [sc] /\ ee_Date (ymd2ord 2020 8 1) <= time_start sc /\
  ~ In sc (preFireScenes (ymd2ord 2020 8 1) [sc]).
Proof.
  intros sc.
  refine (composites_share_no_scene (ymd2ord 2020 8 1) (ymd2ord 2020 8 20)
            [sc] [sc] _ _ sc _).
  - vm_compute. discriminate.
  - reflexivity.
  - left. reflexivity.
Defined.

End CompositeFacts.

(** ** Spectral indices and classes *)

From Stdlib Require Import Psatz.

Section IndicesFacts.
Import Classify Indices.

Lemma gt_Q_false (x : Q) (c : Z) : gt x c = false <-> (x <= inject_Z c)%Q.
Proof.
  rewrite <- Bool.not_true_iff_false, gt_Q_spec. split.
  - apply Qnot_lt_le.
  - apply Qle_not_lt.
Qed.

Lemma gt_Q_mono (x y : Q) (c : Z) :
  (x <= y)%Q -> gt x c = true -> gt y c = true.
Proof.
  rewrite !gt_Q_spec. intros Hxy Hc. eapply Qlt_le_trans; eassumption.
Qed.

(** The class as a function of the thresholds passed. *)
Lemma burnSeverity_Q_cases (x : Q) :
  burnSeverity x =
    if gt x 425 then 5 else if gt x 225 then 4 else if gt x 100 then 3
    else if gt x (-60) then 2 else 1.
Proof.
  unfold burnSeverity.
  destruct (gt x 425); [reflexivity |].
  destruct (gt x 225); [reflexivity |].
  destruct (gt x 100); [reflexivity |].
  destruct (gt x (-60)) eqn:Hg; [reflexivity |].
  destruct (le x (-60)) eqn:Hl; [reflexivity |].
  exfalso. cbn in Hg, Hl.
  apply Z.ltb_ge in Hg. apply Z.leb_gt in Hl. lia.
Qed.

Lemma gt_Q_chain (x : Q) (c c' : Z) :
  c' <= c -> gt x c = true -> gt x c' = true.
Proof.
  rewrite !gt_Q_spec. intros Hc Hx.
  eapply Qle_lt_trans; [| exact Hx].
  rewrite <- Zle_Qle. exact Hc.
Qed.

(** X4: the burn-severity class never decreases when dNBR grows. *)
Theorem burnSeverity_monotone (x y : Q) :
  (x <= y)%Q -> burnSeverity x <= burnSeverity y.
Proof.
  intros Hxy. rewrite !burnSeverity_Q_cases.
  pose proof (gt_Q_mono x y 425 Hxy) as M425.
  pose proof (gt_Q_mono x y 225 Hxy) as M225.
  pose proof (gt_Q_mono x y 100 Hxy) as M100.
  pose proof (gt_Q_mono x y (-60) Hxy) as M60.
  pose proof (gt_Q_chain y 425 225 ltac:(lia)) as C1.
  pose proof (gt_Q_chain y 225 100 ltac:(lia)) as C2.
  pose proof (gt_Q_chain y 100 (-60) ltac:(lia)) as C3.
  destruct (gt x 425), (gt x 225), (gt x 100), (gt x (-60)),
    (gt y 425), (gt y 225), (gt y 100), (gt y (-60));
    try lia;
    repeat match goal with
           | H : true = true -> _ |- _ => specialize (H eq_refl)
           end; try discriminate.
Qed.

Lemma burnSeverity_monotone_witness :
  burnSeverity (101 # 1)%Q <= burnSeverity (2255 # 10)%Q.
Proof.
  apply burnSeverity_monotone. vm_compute. discriminate.
Defined.

Lemma normalizedDifference_some (a b : Q) :
  (0 <= a)%Q -> (0 <= b)%Q -> (0 < a + b)%Q ->
  normalizedDifference a b = Some ((a - b) / (a + b))%Q.
Proof.
  intros Ha Hb Hab. unfold normalizedDifference.
  apply Qle_bool_iff in Ha, Hb. rewrite Ha, Hb. cbn [andb].
  destruct (Qeq_bool (a + b) 0) eqn:E; [| reflexivity].
  apply Qeq_bool_eq in E. rewrite E in Hab. exfalso. revert Hab. apply Qlt_irrefl.
Qed.

Lemma nd_bounds (a b : Q) :
  (0 <= a)%Q -> (0 <= b)%Q -> (0 < a + b)%Q ->
  (-1 <= (a - b) / (a + b) <= 1)%Q.
Proof.
  intros Ha Hb Hab. split.
  - apply Qle_shift_div_l; [exact Hab | lra].
  - apply Qle_shift_div_r; [exact Hab | lra].
Qed.

(** X5: on non-negative band values with a positive sum the normalized
    difference is defined and lies in [-1, 1], so dNBR is defined and
    lies in [-2000, 2000]. *)
Theorem dNBR_bounds (preB5 preB7 postB5 postB7 : Q) :
  (0 <= preB5)%Q -> (0 <= preB7)%Q -> (0 < preB5 + preB7)%Q ->
  (0 <= postB5)%Q -> (0 <= postB7)%Q -> (0 < postB5 + postB7)%Q ->
  exists v,
    dNBR preB5 preB7 postB5 postB7 = Some v /\
    (-2000 <= v <= 2000)%Q.
Proof.
  intros H1 H2 H3 H4 H5 H6. unfold dNBR.
  rewrite (normalizedDifference_some preB5 preB7) by assumption.
  rewrite (normalizedDifference_some postB5 postB7) by assumption.
  cbn. eexists. split; [reflexivity |].
  pose proof (nd_bounds preB5 preB7 H1 H2 H3) as [Ha Hb].
  pose proof (nd_bounds postB5 postB7 H4 H5 H6) as [Hc Hd].
  set (p := ((preB5 - preB7) / (preB5 + preB7))%Q) in *.
  set (q := ((postB5 - postB7) / (postB5 + postB7))%Q) in *.
  split; lra.
Qed.

Lemma dNBR_bounds_witness :
  exists v, dNBR 9000 3000 4000 8000 = Some v /\ (-2000 <= v <= 2000)%Q.
Proof.
  apply dNBR_bounds; vm_compute; first [discriminate | reflexivity].
Defined.

(** X6: a pixel whose two bands are the same before and after the fire
    (non-negative, not both 0) has a dNBR of 0, and the pixel is
    classified 2, unburned. *)
Theorem unchanged_pixel_is_unburned (b5 b7 : Q) :
  (0 <= b5)%Q -> (0 <= b7)%Q -> (0 < b5 + b7)%Q ->
  (exists v : Q, dNBR b5 b7 b5 b7 = Some v /\ (v == 0)%Q) /\
  burnSeverityPixel b5 b7 b5 b7 = Some 2.
Proof.
  intros H1 H2 H3.
  set (n := ((b5 - b7) / (b5 + b7))%Q).
  assert (Hd : dNBR b5 b7 b5 b7 = Some ((n - n) * 1000)%Q).
  { unfold dNBR. rewrite (normalizedDifference_some b5 b7) by assumption.
    reflexivity. }
  assert (E : ((n - n) * 1000 == 0)%Q) by ring.
  split; [exists ((n - n) * 1000)%Q; split; [exact Hd | exact E] |].
  unfold burnSeverityPixel. rewrite Hd.
  cbn [fmap option_fmap option_map].
  f_equal. rewrite burnSeverity_Q_cases.
  assert (G425 : gt ((n - n) * 1000)%Q 425 = false)
    by (apply gt_Q_false; rewrite E; vm_compute; discriminate).
  assert (G225 : gt ((n - n) * 1000)%Q 225 = false)
    by (apply gt_Q_false; rewrite E; vm_compute; discriminate).
  assert (G100 : gt ((n - n) * 1000)%Q 100 = false)
    by (apply gt_Q_false; rewrite E; vm_compute; discriminate).
  assert (G60 : gt ((n - n) * 1000)%Q (-60) = true)
    by (apply gt_Q_spec; rewrite E; reflexivity).
  now rewrite G425, G225, G100, G60.
Qed.

Lemma unchanged_pixel_is_unburned_witness :
  (exists v : Q, dNBR 9000 3000 9000 3000 = Some v /\ (v == 0)%Q) /\
  burnSeverityPixel 9000 3000 9000 3000 = Some 2.
Proof.
  apply unchanged_pixel_is_unburned; vm_compute; first [discriminate | reflexivity].
Defined.

End IndicesFacts.

(** ** Exporter: what the ladder leaves on disk *)

Section ExporterMore.
Import Exporter.

Lemma ee_export_image_keeps (a : attempt) (d : disk) :
  d ∖ {[raster_zip]} ⊆ fst (ee_export_image a d).
Proof. destruct a; cbn; set_solver. Qed.

(** X7: the retry ladder never deletes a file other than raster.zip:
    whatever was in the working directory before is still there
    afterwards. *)
Theorem ladder_deletes_only_zip (service : nat -> Z -> attempt)
    (imgScale : list Z) (i : nat) (d : disk) (f : string) :
  f ∈ d -> f <> raster_zip -> f ∈ ladder service i imgScale d.
Proof.
  revert i d. induction imgScale as [| s rest IH]; intros i d Hin Hne;
    [exact Hin |].
  cbn [ladder].
  pose proof (ee_export_image_keeps (service i s) d) as Hkeep.
  destruct (ee_export_image (service i s) d) as [d' raised]. cbn [fst] in Hkeep.
  assert (Hin' : f ∈ d') by set_solver.
  destruct raised; [now apply IH |].
  destruct (bool_decide (raster_tif ∈ d')); [exact Hin' | now apply IH].
Qed.

Lemma ladder_deletes_only_zip_witness :
  "notes.txt" ∈ ladder Samples.third_time_service 0 [30; 60; 90] {["notes.txt"]}.
Proof.
  apply ladder_deletes_only_zip; [set_solver | discriminate].
Defined.

(** X8: if no raster.tif is in the directory before the run and no
    interrupted unpacking writes one, then a ladder that ends with
    raster.tif present ends with no raster.zip left: a success cleans up
    the archives of the failed attempts before it. *)
Theorem success_leaves_no_zip (service : nat -> Z -> attempt)
    (imgScale : list Z) (i : nat) (d : disk) :
  (forall (j : nat) (s : Z) (written : disk),
     service j s = BadArchive written -> raster_tif ∉ written) ->
  raster_tif ∉ d ->
  raster_tif ∈ ladder service i imgScale d ->
  raster_zip ∉ ladder service i imgScale d.
Proof.
  intros Hpartial. revert i d.
  induction imgScale as [| s rest IH]; intros i d Hout Hin.
  - cbn in Hin. contradiction.
  - cbn [ladder] in *.
    pose proof tif_not_zip as Hne.
    pose proof (Hpartial i s) as Hp.
    destruct (service i s) as [| | | hr | written | members];
      cbn [ee_export_image] in *.
    + rewrite bool_decide_eq_false_2 in * by exact Hout. now apply IH.
    + now apply IH.
    + rewrite bool_decide_eq_false_2 in * by exact Hout. now apply IH.
    + assert (Hout' : raster_tif ∉ ({[raster_zip]} ∪ d : disk)) by set_solver.
      destruct hr; [now apply IH |].
      rewrite bool_decide_eq_false_2 in * by exact Hout'. now apply IH.
    + specialize (Hp written eq_refl).
      assert (Hout' : raster_tif ∉ (written ∪ ({[raster_zip]} ∪ d) : disk))
        by set_solver.
      rewrite bool_decide_eq_false_2 in * by exact Hout'. now apply IH.
    + destruct (bool_decide
                  (raster_tif ∈ (members ∪ ({[raster_zip]} ∪ d)) ∖ {[raster_zip]}))
        eqn:Hd.
      * set_solver.
      * apply bool_decide_eq_false in Hd. now apply IH.
Qed.

Lemma success_leaves_no_zip_witness :
  raster_zip ∉ ladder Samples.third_time_service 0 [30; 60; 90] ∅.
Proof.
  apply success_leaves_no_zip.
  - intros j s written H. unfold Samples.third_time_service in H.
    destruct j as [| [| j]]; inversion H; set_solver.
  - set_solver.
  - apply ladder_tif_iff; [set_solver |].
    exists 2%nat, 90. split; [reflexivity |]. cbn.
    now rewrite bool_decide_eq_true_2 by set_solver.
Defined.

End ExporterMore.

(** ** Converter: shape, inputs and failures *)

Section TableMore.
Import Table TableSpec.

Lemma mapM_to_int_ok (c : list cell) :
  nan_free c = true -> exists r, mapM to_int c = Ok r.
Proof.
  induction c as [| x c IH]; cbn; [eauto |].
  rewrite andb_true_iff. intros [Hx Hc].
  destruct x as [q |]; [| discriminate].
  destruct (IH Hc) as [r Hr]. cbn. rewrite Hr. cbn. eauto.
Qed.

Lemma mapM_to_int_raise (c : list cell) :
  nan_free c = false -> mapM to_int c = Raise IntCastingNaNError.
Proof.
  induction c as [| x c IH]; cbn; [discriminate |].
  destruct x as [q |]; cbn; [| reflexivity].
  intros Hc. rewrite (IH Hc). reflexivity.
Qed.

Lemma astype_int_ok (df : frame cell) :
  forallb (fun kc => nan_free (snd kc)) df = true ->
  exists t, astype_int df = Ok t.
Proof.
  induction df as [| [k c] df IH]; [exists []; reflexivity |].
  cbn [forallb snd]. rewrite andb_true_iff. intros [Hc Hdf].
  destruct (mapM_to_int_ok c Hc) as [r Hr]. destruct (IH Hdf) as [t Ht].
  exists ((k, r) :: t). rewrite astype_int_cons, Hr, Ht. reflexivity.
Qed.

Lemma astype_int_raise (df : frame cell) :
  forallb (fun kc => nan_free (snd kc)) df = false ->
  astype_int df = Raise IntCastingNaNError.
Proof.
  induction df as [| [k c] df IH]; [discriminate |].
  cbn [forallb snd]. rewrite astype_int_cons.
  destruct (nan_free c) eqn:Hc; cbn [andb].
  - destruct (mapM_to_int_ok c Hc) as [r Hr]. rewrite Hr.
    intros Hdf. rewrite (IH Hdf). reflexivity.
  - intros _. rewrite (mapM_to_int_raise c Hc). reflexivity.
Qed.

Lemma nan_free_assign_le0 (c : list cell) (vs : list Z) :
  nan_free (assign_le0 c vs) = nan_free c.
Proof.
  revert vs. induction c as [| x c IH]; intros vs; [reflexivity |].
  cbn [assign_le0]. destruct (le0 x) eqn:Hx.
  - destruct x as [q |]; [| discriminate].
    destruct vs as [| v vs]; cbn; now rewrite IH.
  - cbn. now rewrite IH.
Qed.

Lemma present_nil_iff (c : list cell) :
  present c = [] <-> forallb is_nan c = true.
Proof.
  unfold present. induction c as [| x c IH]; cbn; [tauto |].
  destruct x as [q |]; cbn; [split; discriminate | exact IH].
Qed.

Lemma fillna_nan (c : list cell) : fillna NaN c = c.
Proof.
  unfold fillna. induction c as [| x c IH]; cbn; [reflexivity |].
  rewrite IH. now destruct x.
Qed.

Lemma nan_free_fillna_num (m : Q) (c : list cell) :
  nan_free (map round2 (fillna (Num m) c)) = true.
Proof.
  unfold fillna. induction c as [| x c IH]; cbn; [reflexivity |].
  destruct x; cbn; exact IH.
Qed.

Lemma nan_free_round2 (c : list cell) : nan_free (map round2 c) = nan_free c.
Proof.
  induction c as [| x c IH]; cbn; [reflexivity |].
  destruct x; cbn; [exact IH | reflexivity].
Qed.

(** An imputed column still holds a missing value exactly when the
    column held no number at all. *)
Lemma nan_free_imputed (c : list cell) :
  nan_free (map round2 (fillna (mean c) c)) = negb (all_missing c).
Proof.
  unfold all_missing. fold (nan_free c). unfold mean.
  destruct (present c) as [| q qs] eqn:Hp.
  - apply present_nil_iff in Hp. rewrite Hp, fillna_nan, nan_free_round2.
    now destruct (nan_free c).
  - rewrite nan_free_fillna_num.
    destruct (forallb is_nan c) eqn:Hall.
    + apply present_nil_iff in Hall. congruence.
    + now destruct (nan_free c).
Qed.

Lemma forallb_dict_set (P : list cell -> bool) (k : string) (v c : list cell)
    (df : frame cell) :
  dict_get k df = Some c -> P v = P c ->
  forallb (fun kc => P (snd kc)) (dict_set k v df)
  = forallb (fun kc => P (snd kc)) df.
Proof.
  induction df as [| [k' c'] df IH]; intros Hget HP; [discriminate |].
  cbn [dict_get dict_set] in *. destruct (String.eqb k k').
  - inversion Hget; subst. cbn. now rewrite HP.
  - cbn. f_equal. now apply IH.
Qed.

Lemma nan_free_repair (df : frame cell) (g : rng) (c : list cell) :
  dict_get "burnSeverity" df = Some c ->
  forallb (fun kc => nan_free (snd kc)) (fst (repair df g))
  = forallb (fun kc => nan_free (snd kc)) df.
Proof.
  intros Hget. rewrite repair_fst.
  destruct (0 <? num_le0 df)%nat; [| reflexivity].
  apply (forallb_dict_set nan_free _ _ c _ Hget).
  rewrite nan_free_assign_le0. unfold burn_column. now rewrite Hget.
Qed.

Lemma nan_free_frame (bands : list (list (list cell))) :
  (14 <= length bands)%nat ->
  forallb (fun kc => nan_free (snd kc))
    (impute_round (combine Bands.colNames (map flatten (firstn 14 bands))))
  = forallb (fun b => negb (all_missing (flatten b))) (firstn 14 bands).
Proof.
  intros Hlen.
  do 14 (destruct bands as [| ? bands]; [cbn in Hlen; lia |]).
  unfold impute_round.
  cbn [firstn map combine Bands.colNames forallb snd].
  rewrite !nan_free_imputed. reflexivity.
Qed.

(** X9: the conversion raises IndexError exactly when the raster has
    fewer than 14 bands. With at least 14 bands, a band among the first
    14 that holds only missing pixels makes the integer cast raise: the
    mean of such a column is missing, so [fillna] leaves the column as
    it is. Hence a table is returned only for a raster with at least 14
    bands whose first 14 bands each hold a number. *)
Theorem conversion_failures (img : raster) (g : rng) :
  (toTable img g = Raise IndexError <-> (length (read img) < 14)%nat) /\
  ((14 <= length (read img))%nat /\
   forallb (fun b => negb (all_missing (flatten b))) (firstn 14 (read img))
   = false ->
   toTable img g = Raise IntCastingNaNError) /\
  (forall t : frame Z, toTable img g = Ok t ->
     (14 <= length (read img))%nat /\
     forallb (fun b => negb (all_missing (flatten b))) (firstn 14 (read img))
     = true).
Proof.
  destruct (le_lt_dec 14 (length (read img))) as [Hlen | Hlen].
  - rewrite (toTable_unfold img g _ (columns_colNames _ Hlen)).
    destruct (burn_column_present _ Hlen) as [c Hc].
    pose proof (nan_free_repair _ g c Hc) as Hrep.
    rewrite nan_free_frame in Hrep by exact Hlen.
    destruct (forallb (fun b => negb (all_missing (flatten b)))
                (firstn 14 (read img))) eqn:Hall.
    + destruct (astype_int_ok _ Hrep) as [t Ht]. rewrite Ht.
      split; [split; [discriminate | lia] |].
      split; [intros [_ H]; discriminate |].
      intros t' _. split; [exact Hlen | reflexivity].
    + rewrite (astype_int_raise _ Hrep).
      split; [split; [discriminate | lia] |].
      split; [reflexivity |].
      intros t' H. discriminate.
  - rewrite (toTable_short img g Hlen).
    split; [split; [intros _; exact Hlen | reflexivity] |].
    split; [intros [H _]; lia |].
    intros t' H. discriminate.
Qed.

(** X10: only the first 14 bands of the raster matter: two rasters that
    agree on them convert to the same result, whatever further bands
    they carry. *)
Theorem extra_bands_ignored (img1 img2 : raster) (g : rng) :
  firstn 14 (read img1) = firstn 14 (read img2) ->
  toTable img1 g = toTable img2 g.
Proof.
  intros Heq.
  assert (Hlen : (14 <= length (read img1))%nat <-> (14 <= length (read img2))%nat).
  { apply (f_equal (@length _)) in Heq. rewrite !length_firstn in Heq. lia. }
  destruct (le_lt_dec 14 (length (read img1))) as [H1 | H1].
  - assert (H2 : (14 <= length (read img2))%nat) by now apply Hlen.
    rewrite (toTable_unfold img1 g _ (columns_colNames _ H1)).
    rewrite (toTable_unfold img2 g _ (columns_colNames _ H2)).
    now rewrite Heq.
  - assert (H2 : (length (read img2) < 14)%nat) by lia.
    now rewrite !toTable_short.
Qed.

Lemma extra_bands_ignored_witness :
  toTable Samples.edge_raster (fun _ => 0%nat)
  = toTable {| height := 1; width := 3;
               read := read Samples.edge_raster ++ [[[NaN; NaN; NaN]]] |}
            (fun _ => 0%nat).
Proof.
  apply extra_bands_ignored. reflexivity.
Defined.

(** X11: for a raster whose bands all have [height] rows of [width]
    pixels, a table that the conversion returns has the 14 catalogue
    columns, each with height x width rows. *)
Theorem table_shape (img : raster) (g : rng) (t : frame Z) :
  well_shaped img -> toTable img g = Ok t ->
  map fst t = Bands.colNames /\
  length t = 14%nat /\
  Forall (fun kc => length (snd kc) = (height img * width img)%nat) t.
Proof.
  intros Hshape Ht. split; [now apply toTable_keys in Ht |].
  now apply (toTable_rows img g).
Qed.

Lemma table_shape_witness :
  map fst (Samples.edge_table 1) = Bands.colNames /\
  length (Samples.edge_table 1) = 14%nat /\
  Forall (fun kc => length (snd kc) = (1 * 3)%nat) (Samples.edge_table 1).
Proof.
  apply (table_shape Samples.edge_raster (fun _ => 0%nat)).
  - unfold well_shaped. cbn. repeat constructor.
  - reflexivity.
Defined.

Lemma astype_int_get (df : frame cell) (t : frame Z) (name : string) :
  astype_int df = Ok t ->
  dict_get name t =
    match dict_get name df with
    | Some c => match mapM to_int c with Ok r => Some r | Raise _ => None end
    | None => None
    end.
Proof.
  revert t. induction df as [| [k c] df IH]; intros t Ht.
  - inversion Ht. reflexivity.
  - apply astype_int_cons_inv in Ht as (r & t' & Hr & Ht' & ->).
    cbn [dict_get]. destruct (String.eqb name k); [now rewrite Hr |].
    now apply IH.
Qed.

Lemma dict_get_set_ne {A : Type} (name k : string) (v : A)
    (d : list (string * A)) :
  name <> k -> dict_get name (dict_set k v d) = dict_get name d.
Proof.
  intros Hne. induction d as [| [k' v'] d IH]; cbn.
  - destruct (String.eqb_spec name k); [contradiction | reflexivity].
  - destruct (String.eqb_spec k k') as [-> | Hk]; cbn.
    + destruct (String.eqb_spec name k'); [contradiction | reflexivity].
    + destruct (String.eqb name k'); [reflexivity | exact IH].
Qed.

Lemma dict_get_set_eq {A : Type} (k : string) (v c : A)
    (d : list (string * A)) :
  dict_get k d = Some c -> dict_get k (dict_set k v d) = Some v.
Proof.
  induction d as [| [k' v'] d IH]; cbn; [discriminate |].
  destruct (String.eqb k k') eqn:Hk; cbn.
  - now rewrite String.eqb_refl.
  - now rewrite Hk.
Qed.

Lemma dict_get_repair_ne (df : frame cell) (g : rng) (name : string) :
  name <> "burnSeverity" ->
  dict_get name (fst (repair df g)) = dict_get name df.
Proof.
  intros Hne. rewrite repair_fst.
  destruct (0 <? num_le0 df)%nat; [| reflexivity].
  now apply dict_get_set_ne.
Qed.

(** X12: the random repair touches the burn-severity column only: in
    two tables converted from one raster under any two states of the
    random source, every other column is the same. *)
Theorem other_columns_unaffected (img : raster) (g1 g2 : rng)
    (t1 t2 : frame Z) (name : string) :
  name <> "burnSeverity" ->
  toTable img g1 = Ok t1 -> toTable img g2 = Ok t2 ->
  dict_get name t1 = dict_get name t2.
Proof.
  intros Hne H1 H2.
  destruct (le_lt_dec 14 (length (read img))) as [Hlen | Hlen];
    [| rewrite toTable_short in H1 by exact Hlen; discriminate].
  rewrite (toTable_unfold img g1 _ (columns_colNames _ Hlen)) in H1.
  rewrite (toTable_unfold img g2 _ (columns_colNames _ Hlen)) in H2.
  rewrite (astype_int_get _ _ name H1), (astype_int_get _ _ name H2).
  now rewrite !dict_get_repair_ne.
Qed.

Lemma other_columns_unaffected_witness :
  dict_get "dNBR" (Samples.edge_table 1) = dict_get "dNBR" (Samples.edge_table 4).
Proof.
  apply (other_columns_unaffected Samples.edge_raster
           (fun _ => 0%nat) (fun _ => 3%nat)).
  - discriminate.
  - reflexivity.
  - reflexivity.
Defined.

Lemma burn_column_frame (bands : list (list (list cell)))
    (band : list (list cell)) :
  (14 <= length bands)%nat -> bands !! 7%nat = Some band ->
  dict_get "burnSeverity"
    (impute_round (combine Bands.colNames (map flatten (firstn 14 bands))))
  = Some (map round2 (fillna (mean (flatten band)) (flatten band))).
Proof.
  intros Hlen Hband.
  do 14 (destruct bands as [| ? bands]; [cbn in Hlen; lia |]).
  cbn in Hband. inversion Hband; subst. reflexivity.
Qed.

Lemma fillna_int_cells (m : cell) (ns : list Z) :
  fillna m (map int_cell ns) = map int_cell ns.
Proof.
  unfold fillna. induction ns as [| n ns IH]; cbn; [reflexivity |].
  now rewrite IH.
Qed.

Lemma rint_of_int (z : Z) : rint (z # 1) = z.
Proof.
  unfold rint. cbn [Qfloor]. rewrite Z.div_1_r.
  assert (E : Qcompare ((z # 1) - inject_Z z) (1 # 2) = Lt).
  { unfold Qcompare. cbn. apply Z.compare_lt_iff. lia. }
  now rewrite E.
Qed.

Lemma round2_int_cell (n : Z) : round2 (int_cell n) = Num (n * 100 # 100).
Proof.
  unfold round2, int_cell.
  replace (inject_Z n * 100)%Q with (n * 100 # 1)%Q by reflexivity.
  now rewrite rint_of_int.
Qed.

Lemma le0_hundredths (n : Z) : le0 (Num (n * 100 # 100)) = (n <=? 0).
Proof.
  cbn. unfold Qle_bool. cbn.
  destruct (Z.leb_spec (n * 100 * 1) 0); destruct (Z.leb_spec n 0);
    try reflexivity; lia.
Qed.

Lemma to_int_hundredths (n : Z) : to_int (Num (n * 100 # 100)) = Ok n.
Proof. cbn. f_equal. apply Z.quot_mul. discriminate. Qed.

Lemma assign_le0_nil (c : list cell) : assign_le0 c [] = c.
Proof.
  induction c as [| x c IH]; cbn; [reflexivity |].
  destruct (le0 x); now rewrite IH.
Qed.

(** Casting a repaired column of whole classes: drawn values fill the
    pixels at or below 0, the others keep their class. *)
Lemma assign_int_classes (ns vs r : list Z) :
  Forall (fun n => 0 <= n <= 5) ns ->
  Forall (fun v => 1 <= v <= 5) vs ->
  (length (List.filter le0 (map (fun n => Num (n * 100 # 100)) ns))
   <= length vs)%nat ->
  mapM to_int (assign_le0 (map (fun n => Num (n * 100 # 100)) ns) vs) = Ok r ->
  Forall (fun v => 1 <= v <= 5) r /\
  Forall2 (fun n v => 1 <= n -> v = n) ns r.
Proof.
  revert vs r. induction ns as [| n ns IH]; intros vs r Hns Hvs Hlen Hr.
  - inversion Hr. split; constructor.
  - apply Forall_cons_iff in Hns as [Hn Hns].
    cbn [map assign_le0 List.filter] in Hr, Hlen.
    rewrite le0_hundredths in Hr, Hlen.
    destruct (Z.leb_spec n 0) as [Hle | Hgt].
    + destruct vs as [| v vs]; [cbn in Hlen; lia |].
      apply Forall_cons_iff in Hvs as [Hv Hvs].
      apply mapM_cons_inv in Hr as (y & ys & Hy & Hys & ->).
      rewrite to_int_inject in Hy. inversion Hy; subst y.
      cbn in Hlen.
      destruct (IH vs ys Hns Hvs ltac:(lia) Hys) as [H1 H2].
      split; constructor; try assumption. lia.
    + apply mapM_cons_inv in Hr as (y & ys & Hy & Hys & ->).
      rewrite to_int_hundredths in Hy. inversion Hy; subst y.
      destruct (IH vs ys Hns Hvs Hlen Hys) as [H1 H2].
      split; constructor; try assumption; lia.
Qed.

(** X13: when the burn-severity band of the raster holds only whole
    classes 0..5 and no missing pixel, the burn-severity column of the
    table holds only classes 1..5: every 0 is replaced by a drawn class
    and every other pixel keeps its class. *)
Theorem whole_classes_repaired (img : raster) (g : rng) (t : frame Z)
    (band : list (list cell)) (ns : list Z) :
  read img !! 7%nat = Some band ->
  flatten band = map int_cell ns ->
  Forall (fun n => 0 <= n <= 5) ns ->
  toTable img g = Ok t ->
  Forall (fun v => 1 <= v <= 5) (burn_column t) /\
  Forall2 (fun n v => 1 <= n -> v = n) ns (burn_column t).
Proof.
  intros Hband Hflat Hns Ht.
  destruct (le_lt_dec 14 (length (read img))) as [Hlen | Hlen];
    [| rewrite toTable_short in Ht by exact Hlen; discriminate].
  rewrite (toTable_unfold img g _ (columns_colNames _ Hlen)) in Ht.
  pose proof (burn_column_frame _ _ Hlen Hband) as Hcol.
  rewrite Hflat, fillna_int_cells, map_map in Hcol.
  rewrite (map_ext _ _ round2_int_cell) in Hcol.
  set (df := impute_round _) in *.
  set (col := map (fun n => Num (n * 100 # 100)) ns) in *.
  assert (Hbc : burn_column df = col) by (unfold burn_column; now rewrite Hcol).
  pose proof (astype_int_get _ _ "burnSeverity" Ht) as Hget.
  rewrite repair_fst in Hget.
  assert (Hfin : forall vs,
             Forall (fun v => 1 <= v <= 5) vs ->
             (length (List.filter le0 col) <= length vs)%nat ->
             dict_get "burnSeverity" t =
               match mapM to_int (assign_le0 col vs) with
               | Ok r => Some r
               | Raise _ => None
               end ->
             Forall (fun v => 1 <= v <= 5) (burn_column t) /\
             Forall2 (fun n v => 1 <= n -> v = n) ns (burn_column t)).
  { intros vs Hvs Hlenvs Hg.
    destruct (mapM to_int (assign_le0 col vs)) as [r |] eqn:Hr.
    - unfold burn_column. rewrite Hg. cbn [default].
      now apply (assign_int_classes ns vs r).
    - exfalso.
      assert (Hnf : nan_free (assign_le0 col vs) = true).
      { rewrite nan_free_assign_le0. unfold col, nan_free.
        rewrite forallb_forall. intros x Hx.
        apply in_map_iff in Hx as (n & <- & _). reflexivity. }
      destruct (mapM_to_int_ok _ Hnf) as [r' Hr']. congruence. }
  destruct (0 <? num_le0 df)%nat eqn:Hnum.
  - rewrite (dict_get_set_eq _ _ _ _ Hcol), Hbc in Hget.
    apply (Hfin _ (imputeValues_range (num_le0 df) g)); [| exact Hget].
    rewrite imputeValues_length. unfold num_le0. now rewrite Hbc.
  - rewrite Hcol, <- (assign_le0_nil col) in Hget.
    apply (Hfin [] ltac:(constructor)); [| exact Hget].
    apply Nat.ltb_ge in Hnum. unfold num_le0 in Hnum. rewrite Hbc in Hnum.
    cbn. lia.
Qed.

Lemma whole_classes_repaired_witness :
  exists t,
    toTable {| height := 1; width := 3;
               read := repeat [[int_cell 0; int_cell 3; int_cell 5]] 14 |}
            (fun _ => 1%nat) = Ok t /\
    Forall (fun v => 1 <= v <= 5) (burn_column t) /\
    Forall2 (fun n v => 1 <= n -> v = n) [0; 3; 5] (burn_column t).
Proof.
  eexists. split; [vm_compute; reflexivity |].
  eapply (whole_classes_repaired
            {| height := 1; width := 3;
               read := repeat [[int_cell 0; int_cell 3; int_cell 5]] 14 |}
            (fun _ => 1%nat)).
  - reflexivity.
  - reflexivity.
  - repeat constructor; lia.
  - vm_compute. reflexivity.
Defined.

End TableMore.

(** ** Metrics engine: failures and row names *)

Section MetricsMore.
Import Table Metrics.

Lemma mapM_raise_inv {A B : Type} (f : A -> res B) (l : list A) (e : exn) :
  mapM f l = Raise e -> exists x, In x l /\ f x = Raise e.
Proof.
  induction l as [| x l IH]; cbn; [discriminate |].
  destruct (f x) as [y |] eqn:Hx; cbn.
  - destruct (mapM f l) as [ys |]; cbn; [discriminate |].
    intros H. inversion H; subst. destruct (IH eq_refl) as (x' & Hin & Hx').
    eauto.
  - intros H. inversion H; subst. eauto.
Qed.

Lemma mapM_ok_inv {A B : Type} (f : A -> res B) (l : list A) (r : list B) :
  mapM f l = Ok r -> forall x, In x l -> exists y, f x = Ok y.
Proof.
  revert r. induction l as [| x l IH]; intros r Hr x' Hin; [destruct Hin |].
  apply mapM_cons_inv in Hr as (y & ys & Hy & Hys & _).
  destruct Hin as [<- | Hin]; [eauto | eapply IH; eassumption].
Qed.

Lemma mapM_map {A B C : Type} (f : B -> res C) (h : A -> B) (l : list A) :
  mapM f (map h l) = mapM (fun x => f (h x)) l.
Proof.
  induction l as [| x l IH]; cbn; [reflexivity |]. now rewrite IH.
Qed.

Lemma mapM_inj {A B : Type} (f : A -> res B) (l1 l2 : list A) (r : list B) :
  (forall a b y, f a = Ok y -> f b = Ok y -> a = b) ->
  mapM f l1 = Ok r -> mapM f l2 = Ok r -> l1 = l2.
Proof.
  intros Hinj. revert l2 r.
  induction l1 as [| a l1 IH]; intros l2 r H1 H2.
  - inversion H1; subst. destruct l2 as [| b l2]; [reflexivity |].
    apply mapM_cons_inv in H2 as (y & ys & _ & _ & E). discriminate.
  - apply mapM_cons_inv in H1 as (y & ys & Hy & Hys & ->).
    destruct l2 as [| b l2]; [discriminate |].
    apply mapM_cons_inv in H2 as (y' & ys' & Hy' & Hys' & E).
    inversion E; subst. f_equal; [eapply Hinj; eassumption | eapply IH; eassumption].
Qed.

Lemma bsMap_get_cases (i : Z) :
  (1 <= i <= 5 /\ exists s, bsMap_get i = Ok s) \/
  ((i < 1 \/ 5 < i) /\ bsMap_get i = Raise KeyError).
Proof.
  unfold bsMap_get, bsMap. cbn [List.find fst snd].
  destruct (Z.eqb_spec 1 i); [left; split; [lia | eauto] |].
  destruct (Z.eqb_spec 2 i); [left; split; [lia | eauto] |].
  destruct (Z.eqb_spec 3 i); [left; split; [lia | eauto] |].
  destruct (Z.eqb_spec 4 i); [left; split; [lia | eauto] |].
  destruct (Z.eqb_spec 5 i); [left; split; [lia | eauto] |].
  right. split; [lia | reflexivity].
Qed.

Lemma bsMap_get_inj (a b : Z) (s : string) :
  bsMap_get a = Ok s -> bsMap_get b = Ok s -> a = b.
Proof.
  unfold bsMap_get, bsMap. cbn [List.find fst snd].
  destruct (Z.eqb_spec 1 a); destruct (Z.eqb_spec 1 b);
    destruct (Z.eqb_spec 2 a); destruct (Z.eqb_spec 2 b);
    destruct (Z.eqb_spec 3 a); destruct (Z.eqb_spec 3 b);
    destruct (Z.eqb_spec 4 a); destruct (Z.eqb_spec 4 b);
    destruct (Z.eqb_spec 5 a); destruct (Z.eqb_spec 5 b);
    cbn; intros H1 H2; inversion H1; inversion H2; subst;
    try discriminate; try lia.
Qed.

Lemma names_ok_iff (n : nat) :
  (exists l, names n = Ok l) <-> (n <= 5)%nat.
Proof.
  split.
  - intros [l Hl]. destruct (le_lt_dec n 5) as [H | H]; [exact H |].
    exfalso. unfold names in Hl.
    destruct (mapM_ok_inv _ _ _ Hl 6%nat) as [y Hy].
    + apply in_seq. lia.
    + discriminate.
  - intros Hn. do 6 (destruct n as [| n]; [eexists; reflexivity |]). lia.
Qed.

Lemma names_raise (n : nat) (e : exn) : names n = Raise e -> e = KeyError.
Proof.
  unfold names. intros H. apply mapM_raise_inv in H as (x & _ & Hx).
  destruct (bsMap_get_cases (Z.of_nat x)) as [(_ & s & Hs) | (_ & Hk)];
    congruence.
Qed.

(** X14: the metrics engine raises ValueError exactly when the two
    label sequences differ in length and KeyError exactly when more than
    five distinct labels occur; otherwise it returns both tables. *)
Theorem modelMetrics_failures (labels predictions : list Z) :
  (modelMetrics labels predictions = Raise ValueError <->
   length labels <> length predictions) /\
  (modelMetrics labels predictions = Raise KeyError <->
   length labels = length predictions /\
   (5 < length (unique_labels labels predictions))%nat) /\
  ((exists r, modelMetrics labels predictions = Ok r) <->
   length labels = length predictions /\
   (length (unique_labels labels predictions) <= 5)%nat).
Proof.
  unfold modelMetrics, confusion_matrix.
  destruct (Nat.eqb_spec (length labels) (length predictions)) as [Hlen | Hlen];
    cbn [negb].
  2: { cbn. split; [tauto |]. split.
       - split; [discriminate | tauto].
       - split; [intros [r H]; discriminate | tauto]. }
  cbn [mbind res_bind]. unfold mbind, res_bind. rewrite !length_map.
  set (k := length (unique_labels labels predictions)).
  destruct (names k) as [idx |] eqn:Hn.
  - assert (Hk : (k <= 5)%nat) by (apply names_ok_iff; eauto).
    split; [split; [discriminate | tauto] |]. split.
    + split; [discriminate | lia].
    + split; [tauto | eauto].
  - pose proof (names_raise _ _ Hn) as ->.
    assert (Hk : (5 < k)%nat).
    { destruct (le_lt_dec k 5) as [H | H]; [| exact H].
      apply names_ok_iff in H as [l Hl]. congruence. }
    split; [split; [discriminate | tauto] |]. split.
    + tauto.
    + split; [intros [r H]; discriminate | lia].
Qed.

(** X15: the rows of the metrics table are named by position, so they
    carry the names of the classes they hold exactly when the labels
    that occur are 1, 2, ..., k. *)
Theorem rows_named_right_iff (labels predictions : list Z) (cm : cm_frame)
    (m : metrics_frame) :
  modelMetrics labels predictions = Ok (cm, m) ->
  (mapM bsMap_get (unique_labels labels predictions) = Ok (m_index m) <->
   unique_labels labels predictions
   = map Z.of_nat (seq 1 (length (unique_labels labels predictions)))).
Proof.
  unfold modelMetrics.
  destruct (confusion_matrix labels predictions) as [c |] eqn:Hc;
    [| discriminate].
  apply confusion_matrix_rows in Hc. unfold mbind, res_bind.
  destruct (names (length c)) as [idx |] eqn:Hn; [| discriminate].
  intros H. inversion H; subst; clear H. cbn [m_index].
  rewrite Hc in Hn. unfold names in Hn. rewrite <- mapM_map in Hn.
  split.
  - intros Hu. eapply mapM_inj; [| exact Hu | exact Hn].
    intros a b y. apply bsMap_get_inj.
  - intros Hu. rewrite Hu at 1. exact Hn.
Qed.

Lemma rows_named_right_iff_witness :
  mapM bsMap_get (unique_labels [1; 2; 2] [2; 1; 2])
    = Ok ["Vegetation Growth"; "Unburned"] <->
  unique_labels [1; 2; 2] [2; 1; 2]
    = map Z.of_nat (seq 1 (length (unique_labels [1; 2; 2] [2; 1; 2]))).
Proof.
  destruct (modelMetrics [1; 2; 2] [2; 1; 2]) as [[cm m] |] eqn:E;
    [| vm_compute in E; discriminate].
  pose proof (rows_named_right_iff [1; 2; 2] [2; 1; 2] cm m E) as H.
  vm_compute in E. inversion E; subst. exact H.
Defined.

End MetricsMore.

(** ** Metrics engine: what the counts are *)

From Stdlib Require Import Sorted.

Section MetricsCounts.
Import Table Metrics MetricsSpec.

Lemma insert_label_Forall (P : Z -> Prop) (x : Z) (l : list Z) :
  P x -> Forall P l -> Forall P (insert_label x l).
Proof.
  intros Hx Hl. apply List.Forall_forall. intros y Hy.
  apply insert_label_In in Hy as [-> | Hy]; [exact Hx |].
  rewrite List.Forall_forall in Hl. now apply Hl.
Qed.

Lemma insert_label_sorted (x : Z) (l : list Z) :
  StronglySorted Z.lt l -> StronglySorted Z.lt (insert_label x l).
Proof.
  induction 1 as [| y l Hs IH Hall]; cbn.
  - repeat constructor.
  - destruct (Z.ltb_spec x y) as [Hlt | Hge].
    + constructor; [now constructor |].
      constructor; [exact Hlt |].
      apply List.Forall_forall. intros z Hz.
      rewrite List.Forall_forall in Hall. specialize (Hall z Hz). lia.
    + destruct (Z.eqb_spec x y) as [-> | Hne]; [now constructor |].
      constructor; [exact IH |].
      apply insert_label_Forall; [lia | exact Hall].
Qed.

Lemma unique_labels_sorted (y_true y_pred : list Z) :
  StronglySorted Z.lt (unique_labels y_true y_pred).
Proof.
  unfold unique_labels.
  induction (y_true ++ y_pred)%list as [| x l IH]; cbn;
    [constructor | now apply insert_label_sorted].
Qed.

Lemma sorted_NoDup (l : list Z) : StronglySorted Z.lt l -> List.NoDup l.
Proof.
  induction 1 as [| y l Hs IH Hall]; constructor; [| exact IH].
  intros Hin. rewrite List.Forall_forall in Hall. specialize (Hall y Hin). lia.
Qed.

Lemma sumZ_map_add {A : Type} (f h : A -> Z) (l : list A) :
  sumZ (map (fun x => f x + h x) l) = sumZ (map f l) + sumZ (map h l).
Proof.
  unfold sumZ. induction l as [| x l IH]; cbn; lia.
Qed.

Lemma sumZ_map_zero {A : Type} (f : A -> Z) (l : list A) :
  (forall x, In x l -> f x = 0) -> sumZ (map f l) = 0.
Proof.
  unfold sumZ. induction l as [| x l IH]; intros H; cbn; [reflexivity |].
  rewrite (H x) by now left. rewrite IH; [reflexivity |].
  intros y Hy. apply H. now right.
Qed.

(** A label of a duplicate-free list is hit exactly once. *)
Lemma sumZ_indicator (q : Z) (l : list Z) :
  List.NoDup l -> In q l ->
  sumZ (map (fun b => if q =? b then 1 else 0) l) = 1.
Proof.
  induction 1 as [| y l Hnin Hnd IH]; intros Hin; [destruct Hin |].
  cbn [map]. unfold sumZ. cbn [fold_right]. fold (sumZ (map (fun b => if q =? b then 1 else 0) l)).
  destruct (Z.eqb_spec q y) as [-> | Hne].
  - rewrite sumZ_map_zero; [reflexivity |].
    intros x Hx. destruct (Z.eqb_spec y x); [subst; contradiction | reflexivity].
  - destruct Hin as [E | Hin]; [congruence |]. rewrite IH by exact Hin. reflexivity.
Qed.

Lemma cell_count_cons (t p : Z) (pairs : list (Z * Z)) (a b : Z) :
  cell_count ((t, p) :: pairs) a b
  = (if (t =? a) && (p =? b) then 1 else 0) + cell_count pairs a b.
Proof.
  unfold cell_count. cbn [List.filter].
  destruct ((t =? a) && (p =? b)); cbn [length]; lia.
Qed.

(** Summing a row of the count matrix over the label domain counts the
    pairs with that reference label. *)
Lemma row_total (pairs : list (Z * Z)) (U : list Z) (a : Z) :
  List.NoDup U -> (forall t p, In (t, p) pairs -> In p U) ->
  sumZ (map (cell_count pairs a) U)
  = Z.of_nat (length (List.filter (fun tp => fst tp =? a) pairs)).
Proof.
  intros Hnd. induction pairs as [| [t p] pairs IH]; intros Hin.
  - cbn. apply sumZ_map_zero. reflexivity.
  - rewrite (map_ext _ _ (cell_count_cons t p pairs a)), sumZ_map_add.
    rewrite IH by (intros t' p' H; apply (Hin t' p'); now right).
    cbn [List.filter fst]. destruct (Z.eqb_spec t a) as [-> | Hne]; cbn [andb].
    + rewrite sumZ_indicator; [cbn [length]; lia | exact Hnd |].
      apply (Hin a p). now left.
    + rewrite sumZ_map_zero by reflexivity. lia.
Qed.

(** The same for a column and the predicted label. *)
Lemma col_total (pairs : list (Z * Z)) (U : list Z) (b : Z) :
  List.NoDup U -> (forall t p, In (t, p) pairs -> In t U) ->
  sumZ (map (fun a => cell_count pairs a b) U)
  = Z.of_nat (length (List.filter (fun tp => snd tp =? b) pairs)).
Proof.
  intros Hnd. induction pairs as [| [t p] pairs IH]; intros Hin.
  - cbn. apply sumZ_map_zero. reflexivity.
  - rewrite (map_ext _ _ (fun a => cell_count_cons t p pairs a b)), sumZ_map_add.
    rewrite IH by (intros t' p' H; apply (Hin t' p'); now right).
    cbn [List.filter snd]. destruct (Z.eqb_spec p b) as [-> | Hne].
    + rewrite (map_ext (fun a => if (t =? a) && true then 1 else 0)
                 (fun a => if t =? a then 1 else 0))
        by (intros a; now rewrite andb_true_r).
      rewrite sumZ_indicator; [cbn [length]; lia | exact Hnd |].
      apply (Hin t b). now left.
    + rewrite sumZ_map_zero; [lia |]. intros a _.
      now rewrite andb_false_r.
Qed.

Lemma filter_fst_combine (a : Z) (l p : list Z) :
  length l = length p ->
  length (List.filter (fun tp => fst tp =? a) (combine l p))
  = length (List.filter (Z.eqb a) l).
Proof.
  revert p. induction l as [| x l IH]; intros p Hlen; [reflexivity |].
  destruct p as [| y p]; [discriminate |]. cbn [combine List.filter fst].
  rewrite (Z.eqb_sym a x). destruct (x =? a); cbn [length];
    rewrite IH by (cbn in Hlen; lia); reflexivity.
Qed.

Lemma filter_snd_combine (b : Z) (l p : list Z) :
  length l = length p ->
  length (List.filter (fun tp => snd tp =? b) (combine l p))
  = length (List.filter (Z.eqb b) p).
Proof.
  revert p. induction l as [| x l IH]; intros p Hlen;
    [destruct p; [reflexivity | discriminate] |].
  destruct p as [| y p]; [discriminate |]. cbn [combine List.filter snd].
  rewrite (Z.eqb_sym b y). destruct (y =? b); cbn [length];
    rewrite IH by (cbn in Hlen; lia); reflexivity.
Qed.

Lemma map_nth_seq {A B : Type} (h : A -> B) (d : A) (l : list A) :
  map (fun j => h (nth j l d)) (seq 0 (length l)) = map h l.
Proof.
  induction l as [| x l IH]; [reflexivity |].
  cbn [length seq map nth]. f_equal.
  rewrite <- seq_shift, map_map. exact IH.
Qed.

Lemma nth_map_in {A B : Type} (r : A -> B) (l : list A) (j : nat) (d : A)
    (e : B) :
  (j < length l)%nat -> nth j (map r l) e = r (nth j l d).
Proof.
  intros Hj. rewrite (nth_indep _ e (r d)) by now rewrite length_map.
  apply map_nth.
Qed.

Lemma col_sums_matrix (f : Z -> Z -> Z) (U : list Z) :
  col_sums (map (fun a => map (f a) U) U)
  = map (fun b => sumZ (map (fun a => f a b) U)) U.
Proof.
  unfold col_sums. rewrite length_map.
  rewrite <- (map_nth_seq (fun b => sumZ (map (fun a => f a b) U)) 0 U).
  apply map_ext_in. intros j Hj. apply in_seq in Hj.
  unfold sumZ. f_equal. rewrite map_map. apply map_ext. intros a.
  apply (nth_map_in (f a) U j 0 0). lia.
Qed.

Lemma diag_index (rows : list (list Z)) (s : nat) :
  map (fun '(i, row) => nth i row 0) (combine (seq s (length rows)) rows)
  = map (fun i => nth i (nth (i - s) rows []) 0) (seq s (length rows)).
Proof.
  revert s. induction rows as [| row rows IH]; intros s; [reflexivity |].
  cbn [length seq combine map]. rewrite Nat.sub_diag. cbn [nth]. f_equal.
  rewrite IH. apply map_ext_in. intros i Hi. apply in_seq in Hi.
  replace (i - s)%nat with (S (i - S s)) by lia. reflexivity.
Qed.

Lemma diag_matrix (f : Z -> Z -> Z) (U : list Z) :
  diag (map (fun a => map (f a) U) U) = map (fun a => f a a) U.
Proof.
  unfold diag. rewrite diag_index, length_map.
  rewrite <- (map_nth_seq (fun a => f a a) 0 U).
  apply map_ext_in. intros j Hj. apply in_seq in Hj.
  rewrite Nat.sub_0_r.
  rewrite (nth_map_in (fun a => map (f a) U) U j 0 []) by lia.
  apply (nth_map_in (f (nth j U 0)) U j 0 0). lia.
Qed.

(** Summing the diagonal over the label domain counts the pairs whose
    two labels agree. *)
Lemma diag_total (pairs : list (Z * Z)) (U : list Z) :
  List.NoDup U -> (forall t p, In (t, p) pairs -> In t U) ->
  sumZ (map (fun a => cell_count pairs a a) U)
  = Z.of_nat (length (List.filter (fun tp => fst tp =? snd tp) pairs)).
Proof.
  intros Hnd. induction pairs as [| [t p] pairs IH]; intros Hin.
  - cbn. apply sumZ_map_zero. reflexivity.
  - rewrite (map_ext _ _ (fun a => cell_count_cons t p pairs a a)), sumZ_map_add.
    rewrite IH by (intros t' p' H; apply (Hin t' p'); now right).
    cbn [List.filter fst snd]. destruct (Z.eqb_spec t p) as [<- | Hne].
    + rewrite (map_ext (fun a => if (t =? a) && (t =? a) then 1 else 0)
                 (fun a => if t =? a then 1 else 0))
        by (intros a; now rewrite andb_diag).
      rewrite sumZ_indicator; [cbn [length]; lia | exact Hnd |].
      apply (Hin t t). now left.
    + rewrite sumZ_map_zero; [lia |]. intros a _.
      destruct (Z.eqb_spec t a); destruct (Z.eqb_spec p a);
        try reflexivity. congruence.
Qed.

Lemma confusion_matrix_form (labels predictions : list Z) (c : list (list Z)) :
  confusion_matrix labels predictions = Ok c ->
  length labels = length predictions /\
  c = map (fun a =>
             map (cell_count (combine labels predictions) a)
                 (unique_labels labels predictions))
          (unique_labels labels predictions).
Proof.
  unfold confusion_matrix.
  destruct (Nat.eqb_spec (length labels) (length predictions)) as [Hlen | Hlen];
    cbn [negb]; [| discriminate].
  intros H. inversion H. split; [exact Hlen | reflexivity].
Qed.

Lemma confusion_totals (labels predictions : list Z) (c : list (list Z)) :
  confusion_matrix labels predictions = Ok c ->
  row_sums c
    = map (fun a => occurrences a labels) (unique_labels labels predictions) /\
  col_sums c
    = map (fun b => occurrences b predictions)
        (unique_labels labels predictions) /\
  sumZ (diag c) = agreements labels predictions.
Proof.
  intros Hc. apply confusion_matrix_form in Hc as [Hlen ->].
  set (U := unique_labels labels predictions).
  set (pairs := combine labels predictions).
  assert (Hnd : List.NoDup U) by apply sorted_NoDup, unique_labels_sorted.
  assert (Ht : forall t p, In (t, p) pairs -> In t U).
  { intros t p H. apply in_combine_l in H. apply unique_labels_In. now left. }
  assert (Hp : forall t p, In (t, p) pairs -> In p U).
  { intros t p H. apply in_combine_r in H. apply unique_labels_In. now right. }
  split; [| split].
  - unfold row_sums. rewrite map_map. apply map_ext. intros a.
    change (fold_right Z.add 0 (map (cell_count pairs a) U))
      with (sumZ (map (cell_count pairs a) U)).
    rewrite (row_total pairs U a Hnd Hp). unfold occurrences, pairs.
    now rewrite filter_fst_combine.
  - rewrite (col_sums_matrix (cell_count pairs) U). apply map_ext. intros b.
    rewrite (col_total pairs U b Hnd Ht). unfold occurrences, pairs.
    now rewrite filter_snd_combine.
  - rewrite (diag_matrix (cell_count pairs) U).
    now rewrite (diag_total pairs U Hnd Ht).
Qed.

(** X16: in the count matrix the sum of row i is the number of reference
    labels equal to the i-th label that occurs, the sum of column j is
    the number of predictions equal to the j-th, and the diagonal sums
    to the number of positions where prediction and reference agree. *)
Theorem matrix_totals_are_counts (labels predictions : list Z)
    (c : list (list Z)) :
  confusion_matrix labels predictions = Ok c ->
  row_sums c
    = map (fun a => occurrences a labels) (unique_labels labels predictions) /\
  col_sums c
    = map (fun b => occurrences b predictions)
        (unique_labels labels predictions) /\
  sumZ (diag c) = agreements labels predictions.
Proof. apply confusion_totals. Qed.

Lemma matrix_totals_are_counts_witness :
  row_sums [[1; 1; 0]; [0; 1; 0]; [0; 0; 1]]
    = map (fun a => occurrences a [2; 2; 3; 5]) [2; 3; 5] /\
  col_sums [[1; 1; 0]; [0; 1; 0]; [0; 0; 1]]
    = map (fun b => occurrences b [2; 3; 3; 5]) [2; 3; 5] /\
  sumZ (diag [[1; 1; 0]; [0; 1; 0]; [0; 0; 1]])
    = agreements [2; 2; 3; 5] [2; 3; 3; 5].
Proof.
  exact (matrix_totals_are_counts [2; 2; 3; 5] [2; 3; 3; 5]
           [[1; 1; 0]; [0; 1; 0]; [0; 0; 1]] eq_refl).
Defined.

Lemma combine_snoc {A B : Type} (a : list A) (b : list B) (x : A) (y : B) :
  length a = length b ->
  combine (a ++ [x]) (b ++ [y]) = (combine a b ++ [(x, y)])%list.
Proof.
  revert b. induction a as [| u a IH]; intros b Hlen.
  - destruct b; [reflexivity | discriminate].
  - destruct b as [| v b]; [discriminate |]. cbn. f_equal. apply IH.
    cbn in Hlen. lia.
Qed.

Lemma fill_row (row : list Z) (t : option Z) :
  map (default 0) (map Some row ++ [t]) = (row ++ [default 0 t])%list.
Proof.
  rewrite map_app, map_map. cbn. f_equal.
  induction row as [| x row IH]; cbn; congruence.
Qed.

Lemma margin_rows (h : list Z -> Z) (c : list (list Z)) :
  map (fun '(row, t) => (row ++ [default 0 t])%list)
      (combine c (map Some (map h c)))
  = map (fun row => (row ++ [h row])%list) c.
Proof.
  induction c as [| row c IH]; cbn; [reflexivity |]. now rewrite IH.
Qed.

Lemma map_combine_maps {A : Type} (r : A -> list Z) (h : A -> Z)
    (V : list A) :
  map (fun '(row, t) => (row ++ [t])%list) (combine (map r V) (map h V))
  = map (fun a => (r a ++ [h a])%list) V.
Proof.
  induction V as [| a V IH]; cbn; [reflexivity |]. now rewrite IH.
Qed.

(** X17: in the confusion table that is returned, the last column
    (named Predicted Total) holds for each row the number of reference
    labels of that class, the last row (named Actual Total) holds for
    each column the number of predictions of that class, and the corner
    is 0. *)
Theorem margins_of_confusion_table (labels predictions : list Z)
    (cm : cm_frame) (m : metrics_frame) :
  modelMetrics labels predictions = Ok (cm, m) ->
  cm_values cm
  = (map (fun a =>
            map (cell_count (combine labels predictions) a)
                (unique_labels labels predictions)
            ++ [occurrences a labels])
         (unique_labels labels predictions)
     ++ [map (fun b => occurrences b predictions)
             (unique_labels labels predictions) ++ [0]])%list /\
  cm_index cm = (m_index m ++ ["Actual Total"])%list /\
  cm_columns cm = (m_index m ++ ["Predicted Total"])%list.
Proof.
  unfold modelMetrics.
  destruct (confusion_matrix labels predictions) as [c |] eqn:Hc;
    [| discriminate].
  pose proof (confusion_totals _ _ _ Hc) as (Hrow & Hcol & _).
  pose proof (confusion_matrix_form _ _ _ Hc) as [_ Hform].
  unfold mbind, res_bind.
  destruct (names (length c)) as [idx |] eqn:Hn; [| discriminate].
  intros H. inversion H; subst cm m; clear H.
  cbn [cm_values cm_index cm_columns m_index].
  split; [| split; reflexivity].
  rewrite combine_snoc by (unfold row_sums; now rewrite !length_map).
  rewrite map_app, map_app. cbn [map].
  rewrite fill_row. cbn [default]. rewrite Hcol.
  f_equal.
  rewrite map_map.
  rewrite (map_ext _ (fun '(row, t) => (row ++ [default 0 t])%list))
    by (intros [row t]; apply fill_row).
  unfold row_sums. rewrite (margin_rows (fold_right Z.add 0) c).
  fold (row_sums c).
  assert (E : map (fun row => (row ++ [fold_right Z.add 0 row])%list) c
              = map (fun '(row, t) => (row ++ [t])%list)
                    (combine c (row_sums c))).
  { unfold row_sums. clear. induction c as [| row c IH]; cbn; congruence. }
  rewrite E, Hrow, Hform.
  apply (map_combine_maps
           (fun a => map (cell_count (combine labels predictions) a)
                       (unique_labels labels predictions))
           (fun a => occurrences a labels)).
Qed.

Lemma margins_of_confusion_table_witness :
  exists cm m,
    modelMetrics [2; 2; 3; 5] [2; 3; 3; 5] = Ok (cm, m) /\
    cm_values cm = [[1; 1; 0; 2]; [0; 1; 0; 1]; [0; 0; 1; 1]; [1; 2; 1; 0]].
Proof.
  destruct (modelMetrics [2; 2; 3; 5] [2; 3; 3; 5]) as [[cm m] |] eqn:E;
    [| vm_compute in E; discriminate].
  exists cm, m. split; [reflexivity |].
  destruct (margins_of_confusion_table _ _ cm m E) as (H & _ & _).
  rewrite H. vm_compute. reflexivity.
Defined.

End MetricsCounts.

(** ** [downloadRaster] end to end *)

Section DownloadFacts.
Import Files.

Lemma parquet_not_tif : raster_parquet <> Exporter.raster_tif.
Proof. discriminate. Qed.

(** A call that writes no raster.tif leaves the one in the directory as
    it is. *)
Lemma ee_export_image_keeps_tif (a : attempt) (d : disk) :
  produces a = false ->
  fst (ee_export_image a d) !! Exporter.raster_tif = d !! Exporter.raster_tif.
Proof.
  pose proof tif_not_zip as Hne.
  destruct a as [| | | h | written | members];
    cbn [ee_export_image produces fst]; intros Hp; try reflexivity.
  - rewrite lookup_insert_ne by congruence. reflexivity.
  - apply bool_decide_eq_false in Hp.
    rewrite lookup_union_r by (apply eq_None_not_Some; exact Hp).
    rewrite lookup_insert_ne by congruence. reflexivity.
  - apply bool_decide_eq_false in Hp.
    rewrite lookup_delete_ne by congruence.
    rewrite lookup_union_r by (apply eq_None_not_Some; exact Hp).
    rewrite lookup_insert_ne by congruence. reflexivity.
Qed.

(** If no attempt writes raster.tif, the ladder ends with the
    raster.tif it started with, or with none. *)
Lemma ladder_keeps_stale (service : nat -> Z -> attempt) (imgScale : list Z) :
  forall (i : nat) (d : disk),
    (forall (j : nat) (s : Z),
       imgScale !! j = Some s -> produces (service (i + j)%nat s) = false) ->
    ladder service i imgScale d !! Exporter.raster_tif
    = d !! Exporter.raster_tif.
Proof.
  induction imgScale as [| s rest IH]; intros i d Hall; [reflexivity |].
  cbn [ladder].
  assert (Hs : produces (service i s) = false).
  { specialize (Hall 0%nat s eq_refl). now rewrite Nat.add_0_r in Hall. }
  pose proof (ee_export_image_keeps_tif (service i s) d Hs) as Hkeep.
  destruct (ee_export_image (service i s) d) as [d' raised]. cbn [fst] in Hkeep.
  assert (Hrest : ladder service (S i) rest d' !! Exporter.raster_tif
                  = d !! Exporter.raster_tif).
  { rewrite IH; [exact Hkeep |].
    intros j s0 Hj. specialize (Hall (S j) s0 Hj).
    now rewrite Nat.add_succ_r in Hall. }
  destruct raised; [exact Hrest |].
  destruct (bool_decide (is_Some (d' !! Exporter.raster_tif)));
    [exact Hkeep | exact Hrest].
Qed.

(** X18: when [downloadRaster] writes a table, the band enumeration had
    succeeded, the raster.tif in the working directory is a readable
    raster, the table is the conversion of that file, and
    raster.parquet holds it. When the band enumeration succeeds and no
    attempt writes a raster.tif, the run stops with the export-limit
    failure if the directory held no raster.tif before, and it converts
    the raster.tif of an earlier run if the directory held one. *)
Theorem downloadRaster_outcomes (mean : list Floats.cell -> Floats.cell)
    (round2 : Floats.cell -> Floats.cell) (bandNamesOk : bool)
    (service : nat -> Z -> attempt) (imgScale : list Z) (d : disk)
    (g : Table.rng) :
  (forall t : Table.frame Z,
     snd (downloadRaster mean round2 bandNamesOk service imgScale d g)
     = Written t ->
     bandNamesOk = true /\
     exists img : Floats.raster,
       fst (downloadRaster mean round2 bandNamesOk service imgScale d g)
         !! Exporter.raster_tif = Some (RasterFile img) /\
       Floats.toTable mean round2 img g = Ok t /\
       fst (downloadRaster mean round2 bandNamesOk service imgScale d g)
         !! raster_parquet = Some (TableFile t)) /\
  (bandNamesOk = true /\
   (forall (j : nat) (s : Z),
      imgScale !! j = Some s -> produces (service j s) = false) ->
   (d !! Exporter.raster_tif = None ->
    downloadRaster mean round2 bandNamesOk service imgScale d g
    = (ladder service 0 imgScale d, Stopped ExportExceededLimits)) /\
   (forall img : Floats.raster,
      d !! Exporter.raster_tif = Some (RasterFile img) ->
      snd (downloadRaster mean round2 bandNamesOk service imgScale d g)
      = match Floats.toTable mean round2 img g with
        | Ok t => Written t
        | Raise e => Stopped e
        end)).
Proof.
  pose proof parquet_not_tif as Hne.
  split.
  - intros t. unfold downloadRaster.
    destruct bandNamesOk; cbn [negb]; [| discriminate].
    destruct (ladder service 0 imgScale d !! Exporter.raster_tif)
      as [[img | t0 |] |] eqn:Htif; cbn [snd]; try discriminate.
    destruct (Floats.toTable mean round2 img g) as [t0 | e] eqn:Ht;
      cbn [fst snd]; [| discriminate].
    intros H. inversion H; subst t0.
    split; [reflexivity |]. exists img.
    split; [rewrite lookup_insert_ne by congruence; exact Htif |].
    split; [exact Ht |].
    apply lookup_insert_eq.
  - intros [-> Hall].
    pose proof (ladder_keeps_stale service imgScale 0 d Hall) as Hkeep.
    unfold downloadRaster. cbn [negb]. rewrite Hkeep.
    split.
    + intros ->. reflexivity.
    + intros img ->.
      destruct (Floats.toTable mean round2 img g); reflexivity.
Qed.

(** With the raster of an earlier run in the directory and a service
    that refuses every request, the run converts the old raster. *)
Example stale_raster_is_converted :
  snd (downloadRaster Floats.exact_mean Floats.exact_round2 true
         refusing_service [30; 60; 90]
         {[Exporter.raster_tif := RasterFile Floats.edge_raster]}
         (fun _ => 0%nat))
  = Written (Samples.edge_table 1).
Proof.
  unfold downloadRaster. cbn [negb].
  rewrite (ladder_keeps_stale refusing_service [30; 60; 90] 0)
    by (intros j s _; reflexivity).
  rewrite lookup_singleton_eq. reflexivity.
Qed.

End DownloadFacts.

(** ** Fire selection glue *)

Section FiresFacts.
Import Fires.

Lemma isin_spec (values : list string) (v : string) :
  isin values v = true <-> In v values.
Proof.
  unfold isin. rewrite existsb_exists. split.
  - intros (x & Hin & Hx). apply String.eqb_eq in Hx. now subst.
  - intros Hin. exists v. split; [exact Hin | apply String.eqb_refl].
Qed.

Lemma insert_by_name_In (r x : fire) (l : list fire) :
  In x (insert_by_name r l) <-> x = r \/ In x l.
Proof.
  induction l as [| y l IH]; cbn; [intuition congruence |].
  destruct (String.leb (Fire r) (Fire y)); cbn; [intuition congruence |].
  rewrite IH. intuition congruence.
Qed.

Lemma sort_values_In (x : fire) (l : list fire) :
  In x (sort_values l) <-> In x l.
Proof.
  unfold sort_values. induction l as [| y l IH]; cbn; [tauto |].
  rewrite insert_by_name_In, IH. intuition congruence.
Qed.

Lemma insert_by_name_sorted (r : fire) (l : list fire) :
  Sorted by_name l -> Sorted by_name (insert_by_name r l).
Proof.
  induction 1 as [| y l Hs IH Hhd]; cbn.
  - repeat constructor.
  - destruct (String.leb (Fire r) (Fire y)) eqn:Hle.
    + constructor; [now constructor |]. constructor. exact Hle.
    + constructor; [exact IH |].
      assert (Hyr : by_name y r).
      { destruct (String.leb_total (Fire r) (Fire y)) as [H | H];
          [congruence | exact H]. }
      destruct l as [| z l]; cbn.
      * constructor. exact Hyr.
      * destruct (String.leb (Fire r) (Fire z)); constructor;
          [exact Hyr | now inversion Hhd].
Qed.

Lemma sort_values_sorted (l : list fire) : Sorted by_name (sort_values l).
Proof.
  unfold sort_values. induction l as [| y l IH]; cbn;
    [constructor | now apply insert_by_name_sorted].
Qed.

Lemma narrow_bound (col : fire -> string) (values : list string)
    (s : list fire) :
  exists s',
    narrow col values (Some s) = Returns (Some s') /\
    forall r, In r s' <-> In r s /\ (values = [] \/ In (col r) values).
Proof.
  unfold narrow. destruct values as [| v values]; cbn [length Nat.ltb Nat.leb].
  - exists s. split; [reflexivity |]. intros r. tauto.
  - eexists. split; [reflexivity |]. intros r.
    rewrite filter_In, isin_spec. intuition discriminate.
Qed.

Lemma narrow_unbound (col : fire -> string) (values : list string) :
  narrow col values None = Returns None \/
  narrow col values None = Throws UnboundLocalError.
Proof.
  unfold narrow. destruct (0 <? length values)%nat; [right | left]; reflexivity.
Qed.

(** X19: with equal start and end year [subsetFires] shows its message
    and then fails: [subset] was never bound, so the first statement
    that reads it raises UnboundLocalError, whatever the filters. *)
Theorem subsetFires_equal_years (data : list fire) (year : Z)
    (containedMonths sizeClass counties : list string) :
  subsetFires data year year containedMonths sizeClass counties
  = (["### Select valid time interval"], Throws UnboundLocalError).
Proof.
  unfold subsetFires. rewrite Z.eqb_refl. f_equal.
  destruct (narrow_unbound ContainedMonth containedMonths) as [-> | ->];
    [| reflexivity].
  cbn [mbind outcome_bind]. unfold mbind, outcome_bind.
  destruct (narrow_unbound SizeClass sizeClass) as [-> | ->]; [| reflexivity].
  destruct (narrow_unbound County counties) as [-> | ->]; reflexivity.
Qed.

(** X20: with different years [subsetFires] shows nothing and returns,
    sorted by fire name, exactly the rows of the data whose year is in
    [startYear, endYear) and which pass each filter that is not empty. *)
Theorem subsetFires_selects (data : list fire) (startYear endYear : Z)
    (containedMonths sizeClass counties : list string) :
  startYear <> endYear ->
  exists rows,
    subsetFires data startYear endYear containedMonths sizeClass counties
    = ([], Returns rows) /\
    Sorted by_name rows /\
    forall r,
      In r rows <->
      In r data /\ startYear <= Year r < endYear /\
      (containedMonths = [] \/ In (ContainedMonth r) containedMonths) /\
      (sizeClass = [] \/ In (SizeClass r) sizeClass) /\
      (counties = [] \/ In (County r) counties).
Proof.
  intros Hne. unfold subsetFires.
  destruct (Z.eqb_spec startYear endYear) as [E | _]; [contradiction |].
  set (s0 := List.filter _ data).
  destruct (narrow_bound ContainedMonth containedMonths s0) as (s1 & -> & H1).
  unfold mbind, outcome_bind.
  destruct (narrow_bound SizeClass sizeClass s1) as (s2 & -> & H2).
  destruct (narrow_bound County counties s2) as (s3 & -> & H3).
  cbn [read_local]. exists (sort_values s3).
  split; [reflexivity |]. split; [apply sort_values_sorted |].
  intros r. rewrite sort_values_In, H3, H2, H1. unfold s0.
  rewrite filter_In, andb_true_iff, Z.leb_le, Z.ltb_lt. tauto.
Qed.

Lemma subsetFires_selects_witness :
  exists rows,
    subsetFires
      [{| ID := 1; Fire := "Camp"; Year := 2018; ContainedMonth := "11";
          SizeClass := "G"; County := "Butte" |}]
      2018 2019 [] [] []
    = ([], Returns rows) /\
    Sorted by_name rows /\
    forall r,
      In r rows <->
      In r [{| ID := 1; Fire := "Camp"; Year := 2018; ContainedMonth := "11";
               SizeClass := "G"; County := "Butte" |}] /\
      2018 <= Year r < 2019 /\
      (@nil string = [] \/ In (ContainedMonth r) []) /\
      (@nil string = [] \/ In (SizeClass r) []) /\
      (@nil string = [] \/ In (County r) []).
Proof.
  apply subsetFires_selects. discriminate.
Defined.

End FiresFacts.

Section SelectBoxFacts.
Import Fires.

Lemma fold_insert_lookup (l : list fire) (acc : gmap Z string) (k : Z)
    (v : string) :
  fold_left (fun acc r => <[ID r := label r]> acc) l acc !! k = Some v ->
  acc !! k = Some v \/ exists r, In r l /\ ID r = k /\ v = label r.
Proof.
  revert acc. induction l as [| x l IH]; intros acc H; [now left |].
  cbn [fold_left] in H. apply IH in H as [H | (r & Hin & Hk & Hv)].
  - destruct (decide (ID x = k)) as [E | E].
    + subst k. rewrite lookup_insert_eq in H. inversion H.
      right. exists x. split; [now left | tauto].
    + rewrite lookup_insert_ne in H by exact E. now left.
  - right. exists r. split; [now right | tauto].
Qed.

Lemma fold_insert_keeps (l : list fire) (acc : gmap Z string) (k : Z) :
  is_Some (acc !! k) ->
  is_Some (fold_left (fun acc r => <[ID r := label r]> acc) l acc !! k).
Proof.
  revert acc. induction l as [| x l IH]; intros acc H; [exact H |].
  cbn [fold_left]. apply IH.
  destruct (decide (ID x = k)) as [E | E].
  - subst k. rewrite lookup_insert_eq. eauto.
  - now rewrite lookup_insert_ne by exact E.
Qed.

Lemma fold_insert_has (l : list fire) (acc : gmap Z string) (r : fire) :
  In r l ->
  is_Some (fold_left (fun acc r => <[ID r := label r]> acc) l acc !! ID r).
Proof.
  revert acc. induction l as [| x l IH]; intros acc Hin; [destruct Hin |].
  cbn [fold_left]. destruct Hin as [-> | Hin]; [| now apply IH].
  apply fold_insert_keeps. rewrite lookup_insert_eq. eauto.
Qed.

(** X21: every entry of the select-box dict is the label "Fire (Year)"
    of a row with that id; and when rows with the same id are the same
    row, every row's id is mapped to that row's label. *)
Theorem formatFireSelectBox_lookup (data : list fire) :
  (forall k v,
     formatFireSelectBox data !! k = Some v ->
     exists r, In r data /\ ID r = k /\ v = Fire r +:+ " (" +:+ str (Year r) +:+ ")") /\
  ((forall r1 r2, In r1 data -> In r2 data -> ID r1 = ID r2 -> r1 = r2) ->
   forall r, In r data ->
     formatFireSelectBox data !! ID r
     = Some (Fire r +:+ " (" +:+ str (Year r) +:+ ")")).
Proof.
  unfold formatFireSelectBox. split.
  - intros k v H. apply fold_insert_lookup in H as [H | (r & Hin & Hk & Hv)].
    + rewrite lookup_empty in H. discriminate.
    + exists r. rewrite <- sort_values_In. tauto.
  - intros Hfun r Hin.
    assert (Hin' : In r (sort_values data)) by now apply sort_values_In.
    destruct (fold_insert_has (sort_values data) ∅ r Hin') as [v Hv].
    rewrite Hv. f_equal.
    apply fold_insert_lookup in Hv as [Hv | (r' & Hr' & Hk & ->)].
    + rewrite lookup_empty in Hv. discriminate.
    + apply (proj1 (sort_values_In r' data)) in Hr'.
      rewrite (Hfun r' r Hr' Hin Hk). reflexivity.
Qed.

Example select_box_sample :
  formatFireSelectBox
    [{| ID := 7; Fire := "Dixie"; Year := 2021; ContainedMonth := "10";
        SizeClass := "G"; County := "Plumas" |};
     {| ID := 3; Fire := "Camp"; Year := 2018; ContainedMonth := "11";
        SizeClass := "G"; County := "Butte" |}] !! 7
  = Some "Dixie (2021)".
Proof. vm_compute. reflexivity. Qed.

End SelectBoxFacts.

(** ** Bounding box *)

Section GeometryFacts.
Import Geometry.

Lemma qmin_l (a b : Q) : (a <= b)%Q -> qmin a b = a.
Proof. intros H. unfold qmin. apply Qle_bool_iff in H. now rewrite H. Qed.

Lemma qmax_r (a b : Q) : (a <= b)%Q -> qmax a b = b.
Proof. intros H. unfold qmax. apply Qle_bool_iff in H. now rewrite H. Qed.

Lemma qmax_eq (a b : Q) : (b <= a)%Q -> (qmax a b == a)%Q.
Proof.
  intros H. unfold qmax. destruct (Qle_bool a b) eqn:E; [| reflexivity].
  apply Qle_bool_iff in E. now apply Qle_antisym.
Qed.

(** X22: [bbox] accepts exactly four numbers (any other arity fails the
    tuple unpacking), and the polygon it builds from ordered bounds has
    those same bounds. *)
Theorem bbox_bounds_round_trip (x : list Q) :
  (length x <> 4%nat -> bbox x = Raise ValueError) /\
  (forall minx miny maxx maxy,
     x = [minx; miny; maxx; maxy] ->
     (minx <= maxx)%Q -> (miny <= maxy)%Q ->
     exists poly b,
       bbox x = Ok poly /\ length poly = 4%nat /\
       bounds poly = Some b /\
       Forall2 Qeq b [minx; miny; maxx; maxy]).
Proof.
  split.
  - intros Hlen. destruct x as [| a [| b [| c [| d [| e x]]]]];
      try reflexivity. cbn in Hlen. lia.
  - intros minx miny maxx maxy -> Hx Hy.
    eexists. eexists. split; [reflexivity |]. split; [reflexivity |].
    split; [reflexivity |]. cbn [map fst snd fold_left].
    rewrite (qmin_l minx minx) by apply Qle_refl.
    rewrite (qmin_l minx maxx) by exact Hx.
    rewrite (qmin_l minx maxx) by exact Hx.
    rewrite (qmin_l miny maxy) by exact Hy.
    rewrite (qmin_l miny maxy) by exact Hy.
    rewrite (qmin_l miny miny) by apply Qle_refl.
    rewrite (qmax_r minx minx) by apply Qle_refl.
    rewrite (qmax_r minx maxx) by exact Hx.
    rewrite (qmax_r maxx maxx) by apply Qle_refl.
    rewrite (qmax_r miny maxy) by exact Hy.
    rewrite (qmax_r maxy maxy) by apply Qle_refl.
    repeat constructor; try reflexivity.
    apply qmax_eq. exact Hy.
Qed.

End GeometryFacts.

(** ** Date display *)

Section DatesFacts.
Import Window Composite Dates.

Lemma In_range (lo z : Z) (n : nat) :
  lo <= z < lo + Z.of_nat n -> In z (range lo n).
Proof.
  intros H. unfold range. apply in_map_iff.
  exists (Z.to_nat (z - lo)). split; [lia |]. apply in_seq. lia.
Qed.

Lemma years_round_trip : forallb year_round_trip (range 1970 131) = true.
Proof. vm_compute. reflexivity. Qed.

Lemma days_in_month_le_31 (y m : Z) : 1 <= m <= 12 -> days_in_month y m <= 31.
Proof.
  intros Hm. unfold days_in_month.
  assert (Hcases : m = 1 \/ m = 2 \/ m = 3 \/ m = 4 \/ m = 5 \/ m = 6 \/
                   m = 7 \/ m = 8 \/ m = 9 \/ m = 10 \/ m = 11 \/ m = 12) by lia.
  destruct Hcases as [-> | [-> | [-> | [-> | [-> | [-> | [-> | [-> | [-> |
                     [-> | [-> | ->]]]]]]]]]]];
    destruct (is_leap y); vm_compute; discriminate.
Qed.

Lemma date_round_trip_holds (y m d : Z) :
  1970 <= y <= 2100 -> 1 <= m <= 12 -> 1 <= d <= days_in_month y m ->
  date_round_trip y m d = true.
Proof.
  intros Hy Hm Hd.
  pose proof years_round_trip as Hall.
  rewrite forallb_forall in Hall.
  specialize (Hall y (In_range 1970 y 131 ltac:(lia))).
  unfold year_round_trip in Hall. rewrite forallb_forall in Hall.
  specialize (Hall m (In_range 1 m 12 ltac:(lia))).
  rewrite forallb_forall in Hall.
  pose proof (days_in_month_le_31 y m Hm) as H31.
  specialize (Hall d (In_range 1 d 31 ltac:(lia))).
  apply orb_true_iff in Hall as [Hall | Hall]; [| exact Hall].
  apply negb_true_iff, Z.leb_gt in Hall. lia.
Qed.

(** X23: for every calendar date from 1970 to 2100, the timestamp of any
    instant of that UTC day, counted in milliseconds from the midnight
    that [ee.Date] gives to the ISO date, is displayed by [convertDate]
    as that date, YYYY-MM-DD. *)
Theorem convertDate_shows_the_day (y m d t : Z) :
  1970 <= y <= 2100 -> 1 <= m <= 12 -> 1 <= d <= days_in_month y m ->
  0 <= t < MS_PER_DAY ->
  convertDate (ee_Date (ymd2ord y m d) + t) = Ok (strftime (y, m, d)).
Proof.
  intros Hy Hm Hd Ht.
  pose proof (date_round_trip_holds y m d Hy Hm Hd) as Hrt.
  unfold date_round_trip in Hrt.
  destruct (ord2ymd (ymd2ord y m d)) as [[y' m'] d'] eqn:Hord.
  repeat (apply andb_true_iff in Hrt as [Hrt ?]).
  unfold convertDate, ee_Date. cbv zeta.
  assert (Hdiv : ((ymd2ord y m d - EPOCH) * MS_PER_DAY + t) / MS_PER_DAY
                 = ymd2ord y m d - EPOCH).
  { unfold MS_PER_DAY in *. rewrite Z.div_add_l by lia.
    rewrite Z.div_small by lia. lia. }
  rewrite Hdiv.
  replace (EPOCH + (ymd2ord y m d - EPOCH)) with (ymd2ord y m d) by lia.
  rewrite Hrt, H2. cbn [andb]. rewrite Hord.
  repeat match goal with
         | H : (_ =? _) = true |- _ => apply Z.eqb_eq in H
         end.
  now subst.
Qed.

Lemma convertDate_shows_the_day_witness :
  convertDate (ee_Date (ymd2ord 2020 8 20) + 3600000) = Ok "2020-08-20".
Proof.
  apply (convertDate_shows_the_day 2020 8 20 3600000);
    vm_compute; split; first [discriminate | reflexivity].
Defined.

End DatesFacts.

(** ** Legend *)

Section LegendFacts.
Import Fires Legend.

Lemma fill_before_39 (colors : option (list (string * string)))
    (opacity : string) (lines : list string) :
  forall (index : nat) (content : list string),
    (index + length lines <= 39)%nat ->
    fill colors opacity index lines content = Returns (content ++ lines)%list.
Proof.
  induction lines as [| line rest IH]; intros index content Hlen.
  - cbn. now rewrite app_nil_r.
  - cbn [fill length] in *.
    assert (Hidx : (index < 39)%nat) by lia.
    rewrite IH by lia. rewrite <- app_assoc. cbn [app].
    destruct (index <=? 36)%nat; [reflexivity |].
    apply Nat.ltb_lt in Hidx. now rewrite Hidx.
Qed.

Lemma fill_prefix (colors : option (list (string * string)))
    (opacity : string) (a b : list string) :
  forall (index : nat) (content : list string),
    (index + length a <= 39)%nat ->
    fill colors opacity index (a ++ b) content
    = fill colors opacity (index + length a) b (content ++ a).
Proof.
  induction a as [| line a IH]; intros index content Hlen.
  - cbn. now rewrite Nat.add_0_r, app_nil_r.
  - cbn [app fill length] in *.
    assert (Hidx : (index < 39)%nat) by lia.
    rewrite IH by lia. rewrite <- app_assoc. cbn [app].
    replace (S index + length a)%nat with (index + S (length a))%nat by lia.
    destruct (index <=? 36)%nat; [reflexivity |].
    apply Nat.ltb_lt in Hidx. now rewrite Hidx.
Qed.

Lemma fill_after_41 (colors : option (list (string * string)))
    (opacity : string) (lines : list string) :
  forall (index : nat) (content : list string),
    (41 < index)%nat ->
    fill colors opacity index lines content = Returns (content ++ lines)%list.
Proof.
  induction lines as [| line rest IH]; intros index content Hidx.
  - cbn. now rewrite app_nil_r.
  - cbn [fill]. rewrite IH by lia. rewrite <- app_assoc. cbn [app].
    assert (H36 : (index <=? 36)%nat = false) by (apply Nat.leb_gt; lia).
    assert (H39 : (index <? 39)%nat = false) by (apply Nat.ltb_ge; lia).
    assert (E39 : (index =? 39)%nat = false) by (apply Nat.eqb_neq; lia).
    assert (H41 : (41 <? index)%nat = true) by (apply Nat.ltb_lt; lia).
    now rewrite H36, H39, E39, H41.
Qed.

Lemma fill_from_40 (colors : option (list (string * string)))
    (opacity : string) (lines content : list string) :
  fill colors opacity 40 lines content
  = Returns (content ++ skipn 2 lines)%list.
Proof.
  destruct lines as [| l40 [| l41 rest]]; cbn [fill skipn Nat.leb Nat.ltb Nat.eqb];
    try (now rewrite app_nil_r).
  apply fill_after_41. lia.
Qed.

(** X24: a template of at most 39 lines comes back unchanged: the
    legend entries are written only when line 39 is reached, so they
    are silently dropped, and an absent legend is not noticed; a legend
    that is not a dict raises ValueError before the template is read. *)
Theorem add_legend_short_template (template : list string)
    (opacity : string) :
  (length template <= 39)%nat ->
  add_legend template NoLegend opacity = Returns template /\
  (forall items,
     add_legend template (LegendDict items) opacity = Returns template) /\
  add_legend template NotADict opacity = Throws (Std ValueError).
Proof.
  intros Hlen. unfold add_legend. cbn [mbind outcome_bind].
  unfold mbind, outcome_bind.
  split; [apply (fill_before_39 None opacity template 0 []); lia |].
  split; [| reflexivity].
  intros items. apply (fill_before_39 _ opacity template 0 []). lia.
Qed.

Lemma add_legend_short_template_witness :
  add_legend ["<ul>"; "</ul>"] NoLegend "1.0" = Returns ["<ul>"; "</ul>"] /\
  (forall items,
     add_legend ["<ul>"; "</ul>"] (LegendDict items) "1.0"
     = Returns ["<ul>"; "</ul>"]) /\
  add_legend ["<ul>"; "</ul>"] NotADict "1.0" = Throws (Std ValueError).
Proof.
  apply add_legend_short_template. cbn. lia.
Defined.

(** X25: on a template of at least 40 lines, a legend dict replaces
    template lines 39, 40 and 41 by its entries: the result is the
    first 39 lines, the entries (with # put before each colour), and
    the lines from 42 on; without a legend the call raises
    UnboundLocalError at line 39. *)
Theorem add_legend_long_template (template : list string)
    (opacity : string) :
  (40 <= length template)%nat ->
  add_legend template NoLegend opacity = Throws UnboundLocalError /\
  (forall items,
     add_legend template (LegendDict items) opacity
     = Returns (firstn 39 template
                ++ entries 0 opacity
                     (map (fun '(label, color) => (label, "#" +:+ color)) items)
                ++ skipn 42 template)%list).
Proof.
  intros Hlen. unfold add_legend. unfold mbind, outcome_bind.
  assert (H39 : length (firstn 39 template) = 39%nat)
    by (rewrite length_firstn; lia).
  destruct (skipn 39 template) as [| l39 rest] eqn:Hskip.
  { apply (f_equal (@length _)) in Hskip. rewrite length_skipn in Hskip.
    cbn in Hskip. lia. }
  assert (Hrest : skipn 42 template = skipn 2 rest).
  { replace 42%nat with (S 2 + 39)%nat by reflexivity.
    rewrite <- skipn_skipn, Hskip. reflexivity. }
  assert (Hsplit : template = (firstn 39 template ++ l39 :: rest)%list)
    by (rewrite <- Hskip; symmetry; apply firstn_skipn).
  split.
  - rewrite Hsplit at 1. rewrite fill_prefix by (rewrite H39; lia).
    rewrite H39. reflexivity.
  - intros items. rewrite Hsplit at 1.
    rewrite fill_prefix by (rewrite H39; lia).
    rewrite H39. cbn [Nat.add app fill Nat.leb Nat.ltb Nat.eqb].
    rewrite fill_from_40, Hrest. now rewrite <- app_assoc.
Qed.

Lemma add_legend_long_template_witness :
  add_legend (repeat "x" 43) (LegendDict [("High", "A41FD6")]) "1.0"
  = Returns (repeat "x" 39
             ++ ["    <li><span style='background:#A41FD6;opacity:1.0;'></span>High</li>"
                 +:+ nl]
             ++ ["x"])%list.
Proof.
  destruct (add_legend_long_template (repeat "x" 43) "1.0") as [_ H];
    [cbn; lia |].
  rewrite H. reflexivity.
Defined.

End LegendFacts.

(** ** Picture and chart *)

Section PictureFacts.
Import Table Picture Chart.

Lemma mapM_all_ok {A B : Type} (f : A -> res B) (l : list A) :
  (forall x, In x l -> exists y, f x = Ok y) -> exists r, mapM f l = Ok r.
Proof.
  induction l as [| x l IH]; intros H; [exists []; reflexivity |].
  destruct (H x ltac:(now left)) as [y Hy].
  destruct IH as [r Hr]; [intros z Hz; apply H; now right |].
  exists (y :: r). now apply mapM_cons_ok.
Qed.

Lemma sorted_set_In (v : Z) (data : list Z) :
  In v (sorted_set data) <-> In v data.
Proof.
  unfold sorted_set. induction data as [| x data IH]; cbn; [tauto |].
  rewrite insert_label_In, IH. intuition congruence.
Qed.

Lemma cmapDict_get_cases (i : Z) :
  (1 <= i <= 5 /\ exists s, cmapDict_get i = Ok s) \/
  ((i < 1 \/ 5 < i) /\ cmapDict_get i = Raise KeyError).
Proof.
  unfold cmapDict_get, cmapDict. cbn [List.find fst snd].
  destruct (Z.eqb_spec 1 i); [left; split; [lia | eauto] |].
  destruct (Z.eqb_spec 2 i); [left; split; [lia | eauto] |].
  destruct (Z.eqb_spec 3 i); [left; split; [lia | eauto] |].
  destruct (Z.eqb_spec 4 i); [left; split; [lia | eauto] |].
  destruct (Z.eqb_spec 5 i); [left; split; [lia | eauto] |].
  right. split; [lia | reflexivity].
Qed.

Lemma lcMap_get_cases (i : Z) :
  (1 <= i <= 6 /\ exists s, lcMap_get i = Ok s) \/
  ((i < 1 \/ 6 < i) /\ lcMap_get i = Raise KeyError).
Proof.
  unfold lcMap_get, lcMap. cbn [List.find fst snd].
  destruct (Z.eqb_spec 1 i); [left; split; [lia | eauto] |].
  destruct (Z.eqb_spec 2 i); [left; split; [lia | eauto] |].
  destruct (Z.eqb_spec 3 i); [left; split; [lia | eauto] |].
  destruct (Z.eqb_spec 4 i); [left; split; [lia | eauto] |].
  destruct (Z.eqb_spec 5 i); [left; split; [lia | eauto] |].
  destruct (Z.eqb_spec 6 i); [left; split; [lia | eauto] |].
  right. split; [lia | reflexivity].
Qed.

(** Looking up every distinct value of a column in a table of classes
    [lo..hi] fails with KeyError exactly when a value is outside. *)
Lemma lookup_all (get : Z -> res string) (hi : Z) (data : list Z) :
  (forall i,
     (1 <= i <= hi /\ exists s, get i = Ok s) \/
     ((i < 1 \/ hi < i) /\ get i = Raise KeyError)) ->
  ((exists r, mapM get (sorted_set data) = Ok r) <->
   forall v, In v data -> 1 <= v <= hi) /\
  (mapM get (sorted_set data) = Raise KeyError <->
   exists v, In v data /\ (v < 1 \/ hi < v)) /\
  (forall e, mapM get (sorted_set data) = Raise e -> e = KeyError).
Proof.
  intros Hget.
  assert (Hraise : forall e, mapM get (sorted_set data) = Raise e ->
                             e = KeyError /\
                             exists v, In v data /\ (v < 1 \/ hi < v)).
  { intros e H. apply mapM_raise_inv in H as (x & Hin & Hx).
    apply (proj1 (sorted_set_In x data)) in Hin.
    destruct (Hget x) as [(_ & s & Hs) | (Hout & Hk)]; [congruence |].
    split; [congruence |]. exists x. split; [exact Hin | exact Hout]. }
  assert (Hok : forall r, mapM get (sorted_set data) = Ok r ->
                          forall v, In v data -> 1 <= v <= hi).
  { intros r H v Hv. apply (proj2 (sorted_set_In v data)) in Hv.
    destruct (mapM_ok_inv _ _ _ H v Hv) as [y Hy].
    destruct (Hget v) as [(Hin & _) | (_ & Hk)]; [exact Hin | congruence]. }
  split; [| split].
  - split; [intros [r H]; eapply Hok, H |].
    intros Hall. apply mapM_all_ok. intros x Hx.
    apply (proj1 (sorted_set_In x data)) in Hx.
    destruct (Hget x) as [(_ & s & Hs) | (Hout & _)]; [eauto |].
    specialize (Hall x Hx). lia.
  - split; [intros H; now apply Hraise in H |].
    intros (v & Hv & Hout).
    destruct (mapM get (sorted_set data)) as [r | e] eqn:E.
    + specialize (Hok r eq_refl v Hv). lia.
    + destruct (Hraise e eq_refl) as [-> _]. reflexivity.
  - intros e H. now apply Hraise in H.
Qed.

(** The outcomes of [burnSeverityImage], up to the drawing. *)
Lemma burnSeverityImage_cases (data : list Z) (height width : nat) :
  (burnSeverityImage data (height, width) = Raise KeyError <->
   exists v, In v data /\ (v < 1 \/ 5 < v)) /\
  (burnSeverityImage data (height, width) = Raise ValueError <->
   (forall v, In v data -> 1 <= v <= 5) /\
   length data <> (height * width)%nat) /\
  ((exists cmap grid,
      burnSeverityImage data (height, width) = Ok (cmap, grid) /\
      length cmap = length (sorted_set data) /\ length grid = height) <->
   (forall v, In v data -> 1 <= v <= 5) /\
   length data = (height * width)%nat).
Proof.
  pose proof (lookup_all cmapDict_get 5 data cmapDict_get_cases)
    as (Hok & Hkey & Honly).
  assert (Hgrid : forall h d, length (rows_of h width d) = h)
    by (induction h as [| h IH]; intros d; cbn; [| rewrite IH]; reflexivity).
  unfold burnSeverityImage, reshape. unfold mbind, res_bind.
  destruct (mapM cmapDict_get (sorted_set data)) as [cmap | e] eqn:Hc.
  - assert (Hall : forall v, In v data -> 1 <= v <= 5) by (apply Hok; eauto).
    assert (Hnokey : ~ exists v, In v data /\ (v < 1 \/ 5 < v)).
    { intros (v & Hv & Hout). specialize (Hall v Hv). lia. }
    apply mapM_length in Hc.
    destruct (Nat.eqb_spec (length data) (height * width)) as [Hlen | Hlen].
    + split; [split; [discriminate | intros H; contradiction] |].
      split; [split; [discriminate | intros [_ H]; contradiction] |].
      split; [tauto |]. intros _. do 2 eexists.
      split; [reflexivity |]. split; [exact Hc | apply Hgrid].
    + split; [split; [discriminate | intros H; contradiction] |].
      split; [tauto |].
      split; [intros (c & gr & H & _); discriminate | intros [_ H]; contradiction].
  - pose proof (Honly e eq_refl) as ->.
    assert (Hex : exists v, In v data /\ (v < 1 \/ 5 < v)) by now apply Hkey.
    assert (Hnall : ~ forall v, In v data -> 1 <= v <= 5).
    { intros Hall. destruct Hex as (v & Hv & Hout). specialize (Hall v Hv). lia. }
    split; [tauto |].
    split; [split; [discriminate | intros [H _]; contradiction] |].
    split; [intros (c & gr & H & _); discriminate | intros [H _]; contradiction].
Qed.

(** The outcomes of the pivot of [altChart]. *)
Lemma lcPivot_cases (landCoverViz codes : list Z) :
  (lcPivot landCoverViz = Raise KeyError <->
   exists v, In v landCoverViz /\ (v < 1 \/ 6 < v)) /\
  ((exists rows, lcPivot landCoverViz = Ok rows) <->
   forall v, In v landCoverViz -> 1 <= v <= 6) /\
  (lcPivot (map Classify.landCover codes) = Raise KeyError <->
   exists code, In code codes /\ code <= 10).
Proof.
  assert (Hgen : forall data,
             (lcPivot data = Raise KeyError <->
              exists v, In v data /\ (v < 1 \/ 6 < v)) /\
             ((exists rows, lcPivot data = Ok rows) <->
              forall v, In v data -> 1 <= v <= 6)).
  { intros data.
    pose proof (lookup_all lcMap_get 6 data lcMap_get_cases)
      as (Hok & Hkey & Honly).
    unfold lcPivot. unfold mbind, res_bind.
    destruct (mapM lcMap_get (sorted_set data)) as [names | e] eqn:Hn.
    - split.
      + split; [discriminate |]. intros Hex. apply Hkey in Hex. discriminate.
      + split; [intros _; apply Hok; eauto | eauto].
    - pose proof (Honly e eq_refl) as ->. split.
      + split; [intros _; now apply Hkey | reflexivity].
      + split; [intros [rows H]; discriminate |].
        intros Hall. apply Hok in Hall as [r Hr]. discriminate. }
  split; [apply Hgen |]. split; [apply Hgen |].
  rewrite (proj1 (Hgen (map Classify.landCover codes))). split.
  - intros (v & Hv & Hout). apply in_map_iff in Hv as (code & <- & Hcode).
    exists code. split; [exact Hcode |].
    pose proof (landCover_range code) as Hr.
    assert (H0 : Classify.landCover code = 0) by lia.
    destruct (Z.le_gt_cases code 10) as [H | H]; [exact H |].
    apply landCover_pos_iff in H. contradiction.
  - intros (code & Hcode & Hle). exists (Classify.landCover code).
    split; [apply in_map; exact Hcode |].
    destruct (Z.eq_dec (Classify.landCover code) 0) as [E | E]; [lia |].
    apply landCover_pos_iff in E. lia.
Qed.

(** X26: [burnSeverityImage] raises KeyError exactly when the data holds
    a value outside 1..5 (a single 0 is enough) and raises ValueError
    exactly when all values are classes but their number is not height
    x width; otherwise, on data that is not empty, it reaches the
    drawing with one colour per class that occurs and a grid of
    [height] rows. *)
Theorem burnSeverityImage_outcomes (data : list Z) (height width : nat) :
  (burnSeverityImage data (height, width) = Raise KeyError <->
   exists v, In v data /\ (v < 1 \/ 5 < v)) /\
  (burnSeverityImage data (height, width) = Raise ValueError <->
   (forall v, In v data -> 1 <= v <= 5) /\
   length data <> (height * width)%nat) /\
  (data <> [] ->
   ((exists cmap grid,
       burnSeverityImage data (height, width) = Ok (cmap, grid) /\
       length cmap = length (sorted_set data) /\ length grid = height) <->
    (forall v, In v data -> 1 <= v <= 5) /\
    length data = (height * width)%nat)).
Proof.
  destruct (burnSeverityImage_cases data height width) as (H1 & H2 & H3).
  split; [exact H1 |]. split; [exact H2 |]. intros _. exact H3.
Qed.

(** X27: on a table that is not empty, the land-cover chart raises
    KeyError exactly when a land-cover value outside 1..6 occurs; on a
    column classified by the land-cover expression that is exactly when
    some pixel's land-cover code is 10 or less, which the expression
    maps to 0. *)
Theorem lcPivot_key_error (landCoverViz codes : list Z) :
  landCoverViz <> [] -> codes <> [] ->
  (lcPivot landCoverViz = Raise KeyError <->
   exists v, In v landCoverViz /\ (v < 1 \/ 6 < v)) /\
  ((exists rows, lcPivot landCoverViz = Ok rows) <->
   forall v, In v landCoverViz -> 1 <= v <= 6) /\
  (lcPivot (map Classify.landCover codes) = Raise KeyError <->
   exists code, In code codes /\ code <= 10).
Proof.
  intros _ _. apply lcPivot_cases.
Qed.

Lemma lcPivot_key_error_witness :
  [3; 0; 3] <> [] /\ [42; 11; 95] <> [] /\
  lcPivot [3; 0; 3] = Raise KeyError /\
  lcPivot (map Classify.landCover [42; 11; 95]) <> Raise KeyError.
Proof.
  split; [discriminate |]. split; [discriminate |].
  destruct (lcPivot_key_error [3; 0; 3] [42; 11; 95]
              ltac:(discriminate) ltac:(discriminate)) as (H1 & _ & H3).
  split.
  - apply H1. exists 0. split; [cbn; tauto | lia].
  - intros H. apply H3 in H as (code & Hin & Hle).
    cbn in Hin. lia.
Defined.

End PictureFacts.

(** ** Metrics engine: perfect predictions *)

Section PerfectScores.
Import Table Metrics MetricsSpec.

Lemma rint_comp (q q' : Q) : (q == q')%Q -> rint q = rint q'.
Proof.
  intros H. unfold rint. rewrite (Qfloor_comp q q' H).
  assert (E : Qcompare (q - inject_Z (Qfloor q')) (1 # 2)
              = Qcompare (q' - inject_Z (Qfloor q')) (1 # 2))
    by now rewrite H.
  now rewrite E.
Qed.

Lemma percent_one (q : Q) : (q == 1)%Q -> percent (Some q) = Some 100%Q.
Proof.
  intros H. unfold percent. f_equal.
  assert (E : (100 * q * 100 == 10000 # 1)%Q) by (rewrite H; reflexivity).
  rewrite (rint_comp _ _ E), rint_of_int. reflexivity.
Qed.

Lemma cell_diag (l : list Z) (a : Z) :
  cell_count (combine l l) a a = occurrences a l.
Proof.
  unfold cell_count, occurrences. f_equal.
  induction l as [| x l IH]; [reflexivity |].
  cbn [combine List.filter]. rewrite (Z.eqb_sym a x).
  destruct (x =? a); cbn [andb length]; now rewrite IH.
Qed.

Lemma occurrences_pos (l : list Z) (a : Z) : In a l -> 0 < occurrences a l.
Proof.
  unfold occurrences. induction l as [| x l IH]; intros Hin; [destruct Hin |].
  cbn [List.filter]. destruct (Z.eqb_spec a x) as [-> | Hne]; cbn [length]; [lia |].
  destruct Hin as [E | Hin]; [congruence | now apply IH].
Qed.

Lemma ratio_self (n : Z) :
  0 < n -> exists q, div_count n n = Some q /\ (q == 1)%Q.
Proof.
  intros Hn. unfold div_count.
  destruct (Z.eqb_spec n 0) as [E | _]; [lia |].
  eexists. split; [reflexivity |].
  unfold Qdiv. apply Qmult_inv_r.
  intros H. unfold Qeq in H. cbn in H. lia.
Qed.

Lemma f1_of_ones (p r : Q) :
  (p == 1)%Q -> (r == 1)%Q ->
  percent (f1_score (Some p) (Some r)) = Some 100%Q.
Proof.
  intros Hp Hr. unfold f1_score.
  destruct (Qeq_bool (p + r) 0) eqn:E.
  - apply Qeq_bool_eq in E. rewrite Hp, Hr in E. discriminate E.
  - apply percent_one. rewrite Hp, Hr. reflexivity.
Qed.

Lemma combine_map_same {A B C : Type} (o1 o2 : A -> B) (F : B * B -> C)
    (U : list A) :
  map F (combine (map o1 U) (map o2 U)) = map (fun a => F (o1 a, o2 a)) U.
Proof.
  induction U as [| a U IH]; cbn; [reflexivity |]. now rewrite IH.
Qed.

(** X28: when the predictions equal the reference labels, every class
    that occurs gets precision, recall and F1 of exactly 100. *)
Theorem perfect_predictions_score_100 (labels : list Z) (cm : cm_frame)
    (m : metrics_frame) :
  modelMetrics labels labels = Ok (cm, m) ->
  Forall (eq 100%Q) (m_precision m) /\
  Forall (eq 100%Q) (m_recall m) /\
  Forall (eq 100%Q) (m_f1 m) /\
  length (m_precision m) = length (unique_labels labels labels).
Proof.
  unfold modelMetrics.
  destruct (confusion_matrix labels labels) as [c |] eqn:Hc; [| discriminate].
  pose proof (confusion_totals _ _ _ Hc) as (Hrow & Hcol & _).
  pose proof (confusion_matrix_form _ _ _ Hc) as [_ Hform].
  unfold mbind, res_bind.
  destruct (names (length c)) as [idx |] eqn:Hn; [| discriminate].
  intros H. inversion H; subst cm m; clear H.
  cbn [m_precision m_recall m_f1].
  set (U := unique_labels labels labels) in *.
  assert (Hdiag : diag c = map (fun a => occurrences a labels) U).
  { rewrite Hform, (diag_matrix (cell_count (combine labels labels)) U).
    apply map_ext. intros a. apply cell_diag. }
  rewrite Hdiag, Hcol, Hrow.
  rewrite !(combine_map_same (fun a => occurrences a labels)
              (fun a => occurrences a labels)).
  assert (HU : forall a, In a U -> 0 < occurrences a labels).
  { intros a Ha. apply occurrences_pos. apply unique_labels_In in Ha. tauto. }
  assert (Hall : forall (k : Z -> ratio),
             (forall a, In a U -> k a = Some 100%Q) ->
             Forall (eq 100%Q) (map fill0 (map k U))).
  { intros k Hk. apply List.Forall_forall. intros q Hq.
    apply in_map_iff in Hq as (x & <- & Hx).
    apply in_map_iff in Hx as (a & <- & Ha).
    now rewrite (Hk a Ha). }
  assert (Hprec : map percent
                    (map (fun a => div_count (occurrences a labels)
                                     (occurrences a labels)) U)
                  = map (fun a => percent (div_count (occurrences a labels)
                                             (occurrences a labels))) U)
    by apply List.map_map.
  rewrite Hprec.
  assert (Hone : forall a, In a U ->
                   percent (div_count (occurrences a labels)
                              (occurrences a labels)) = Some 100%Q).
  { intros a Ha. destruct (ratio_self _ (HU a Ha)) as (q & -> & Hq).
    now apply percent_one. }
  split; [now apply Hall |]. split; [now apply Hall |]. split.
  - rewrite (combine_map_same
               (fun a => div_count (occurrences a labels) (occurrences a labels))
               (fun a => div_count (occurrences a labels) (occurrences a labels))
               (fun '(p, r) => percent (f1_score p r))).
    apply Hall. intros a Ha.
    destruct (ratio_self _ (HU a Ha)) as (q & -> & Hq).
    now apply f1_of_ones.
  - now rewrite !length_map.
Qed.

Lemma perfect_predictions_score_100_witness :
  exists cm m,
    modelMetrics [1; 3; 3; 2] [1; 3; 3; 2] = Ok (cm, m) /\
    Forall (eq 100%Q) (m_precision m) /\ Forall (eq 100%Q) (m_recall m) /\
    Forall (eq 100%Q) (m_f1 m).
Proof.
  destruct (modelMetrics [1; 3; 3; 2] [1; 3; 3; 2]) as [[cm m] |] eqn:E;
    [| vm_compute in E; discriminate].
  exists cm, m. split; [reflexivity |].
  destruct (perfect_predictions_score_100 _ cm m E) as (H1 & H2 & H3 & _).
  tauto.
Defined.

End PerfectScores.
